(** * PPTX audio transcription: extraction, validation and timeline merge

    A shallow embedding of the Python sources

      - [pptx_audio_transc_onefile.py]  (module [OneFile]: one merged
        transcript and cue file per document),
      - [pptx_audio_transcriber.py]     (module [PerClip]: one output pair
        per clip),
      - [transcribe.py]                 (module [Transcribe]: interactive
        variant working on an unzipped folder),

    together with the Python primitives they rely on (module [Py]).

    A Python [str] is modelled by its UTF-8 encoding, a [string] of bytes:
    the comparisons, the searches for ASCII patterns and the order of
    strings are the same on both, and the files opened with
    [encoding='utf-8'] receive these bytes.

    Python floats are IEEE 754 binary64 values: they are modelled by Rocq's
    primitive [float], whose operations are the same binary64 operations.
    External collaborators (the ffmpeg decoder, the ffmpeg probe, the
    Whisper model, the zip archive) are modelled at their interface, as
    functions from a path to the outcome the Python code observes. *)

From Stdlib Require Import ZArith List String Ascii Lia Bool.
From Stdlib Require Import Floats DecimalString.
Import ListNotations.

#[local] Set Warnings "-inexact-float".
#[local] Open Scope string_scope.
#[local] Open Scope Z_scope.

(* ================================================================== *)
(** * Python primitives *)
(* ================================================================== *)

Module Py.

(** Exceptions the modelled code can meet. *)
Inductive exn : Type :=
| ValueError          (* int(nan) *)
| OverflowError       (* int(inf) *)
| FileNotFoundError   (* raised by the transcription engine, by [os] *)
| BadZipFile          (* [zipfile.BadZipFile] *)
| KeyError            (* [ZipFile.getinfo] of a name the archive has not *)
| ZlibError           (* [zlib.error] *)
| RuntimeError.       (* any other failure of a collaborator *)

Inductive result (A : Type) : Type :=
| Ok (a : A)
| Raise (e : exn).
Arguments Ok {A} a.
Arguments Raise {A} e.

(** ** Floats *)

(** [int(x)] for a float: truncation toward zero; NaN and the infinities
    raise. *)
Definition int_of_float (x : float) : result Z :=
  match Prim2SF x with
  | S754_nan => Raise ValueError
  | S754_infinity _ => Raise OverflowError
  | S754_zero _ => Ok 0
  | S754_finite s m e => Ok (cond_Zopp s (Z.shiftl (Zpos m) e))
  end.

Definition signed_zero (s : bool) : float :=
  if s then neg_zero else zero.

(** C's [fmod(x, 1.0)]: the remainder of the truncating division, with the
    sign of [x].  It is exact: for [x = m * 2^e] with [e < 0] it is
    [(m mod 2^-e) * 2^e], put in binary64 form by [binary_normalize]. *)
Definition fmod1 (x : float) : float :=
  match Prim2SF x with
  | S754_nan => nan
  | S754_infinity _ => nan
  | S754_zero s => signed_zero s
  | S754_finite s m e =>
      if 0 <=? e then signed_zero s
      else SF2Prim (binary_normalize prec emax
                      (cond_Zopp s (Zpos m mod 2 ^ (- e))) e s)
  end.

(** [x % 1] on floats (CPython's [float_rem] with divisor [1.0]): the
    result of [fmod] is moved to the sign of the divisor. *)
Definition float_mod1 (x : float) : float :=
  let m := fmod1 x in
  if negb (m =? 0)%float
  then if (m <? 0)%float then (m + 1)%float else m
  else zero.

(** ** Integers in f-strings *)

Definition str_of_N (n : N) : string :=
  NilZero.string_of_uint (N.to_uint n).

Fixpoint zeros (n : nat) : string :=
  match n with
  | O => ""
  | S k => String "0" (zeros k)
  end.

(** [f"{z:0w}"]: sign first, then the digits padded with zeros on the left
    up to the total width [w]. *)
Definition format_int (width : nat) (z : Z) : string :=
  let digits := str_of_N (Z.abs_N z) in
  let sign := if z <? 0 then "-" else "" in
  sign ++ zeros (width - String.length sign - String.length digits) ++ digits.

(** [f"{z}"] *)
Definition str_of_int (z : Z) : string := format_int 0 z.

(** ** Strings *)

(** The line feed of the string literals. *)
Definition nl : string := String "010"%char EmptyString.

(** [s.startswith(p)] *)
Definition startswith (s p : string) : bool := String.prefix p s.

Fixpoint rev_string (s : string) : string :=
  match s with
  | EmptyString => EmptyString
  | String c s' => rev_string s' ++ String c EmptyString
  end.

(** [s.endswith(p)] *)
Definition endswith (s p : string) : bool :=
  String.prefix (rev_string p) (rev_string s).

(** [s.endswith((p1, p2, ...))] *)
Definition endswith_any (s : string) (ps : list string) : bool :=
  existsb (endswith s) ps.

(** White space for [str.strip], by the length of its UTF-8 form.  One
    byte: U+0009 to U+000D, U+001C to U+001F and the space. *)
Definition isspace (c : ascii) : bool :=
  let n := N_of_ascii c in
  ((9 <=? n) && (n <=? 13) || (28 <=? n) && (n <=? 32))%N.

(** Two bytes: U+0085 and U+00A0. *)
Definition isspace2 (c d : ascii) : bool :=
  let n := N_of_ascii d in
  ((N_of_ascii c =? 194) && ((n =? 133) || (n =? 160)))%N.

(** Three bytes: U+1680, U+2000 to U+200A, U+2028, U+2029, U+202F, U+205F
    and U+3000. *)
Definition isspace3 (c d e : ascii) : bool :=
  let l := N_of_ascii c in
  let m := N_of_ascii d in
  let n := N_of_ascii e in
  ((l =? 225) && (m =? 154) && (n =? 128)
   || (l =? 226) && (m =? 128)
      && ((128 <=? n) && (n <=? 138) || (n =? 168) || (n =? 169) || (n =? 175))
   || (l =? 226) && (m =? 129) && (n =? 159)
   || (l =? 227) && (m =? 128) && (n =? 128))%N.

(** The white-space characters at the head of [s] are dropped.  With
    [backwards] the string is read from its last byte, so that the bytes
    of a character come in the opposite order. *)
Fixpoint lstrip_from (backwards : bool) (s : string) : string :=
  match s with
  | EmptyString => EmptyString
  | String c s1 =>
      if isspace c then lstrip_from backwards s1
      else
        match s1 with
        | EmptyString => s
        | String d s2 =>
            if (if backwards then isspace2 d c else isspace2 c d)
            then lstrip_from backwards s2
            else
              match s2 with
              | EmptyString => s
              | String e s3 =>
                  if (if backwards then isspace3 e d c else isspace3 c d e)
                  then lstrip_from backwards s3
                  else s
              end
        end
  end.

(** [s.lstrip()] and [s.rstrip()] *)
Definition lstrip (s : string) : string := lstrip_from false s.

Definition rstrip (s : string) : string :=
  rev_string (lstrip_from true (rev_string s)).

(** [s.strip()] *)
Definition strip (s : string) : string := rstrip (lstrip s).

(** [s.replace(old, new)] for a non-empty [old]: every occurrence, left to
    right, without overlap.  [skip] counts the characters of a matched
    occurrence that are still to be dropped. *)
Fixpoint replace_from (old new : string) (skip : nat) (s : string) : string :=
  match s with
  | EmptyString => EmptyString
  | String c s' =>
      match skip with
      | S k => replace_from old new k s'
      | O =>
          if String.prefix old s
          then new ++ replace_from old new (String.length old - 1) s'
          else String c (replace_from old new O s')
      end
  end.

Definition replace (s old new : string) : string :=
  replace_from old new O s.

(** [old in s] *)
Fixpoint contains (s old : string) : bool :=
  String.prefix old s ||
  match s with
  | EmptyString => false
  | String _ s' => contains s' old
  end.

(** [os.path.join(a, b)] with the POSIX separator. *)
Definition path_join (a b : string) : string :=
  if startswith b "/" then b
  else if (a =? "")%string || endswith a "/" then a ++ b
  else a ++ "/" ++ b.

(** [enumerate(l, start)] *)
Fixpoint enumerate {A : Type} (start : Z) (l : list A) : list (Z * A) :=
  match l with
  | [] => []
  | x :: l' => (start, x) :: enumerate (start + 1) l'
  end.

End Py.

Import Py.

(* ================================================================== *)
(** * Timestamp formatting *)
(* ================================================================== *)

(** [format_time] of [pptx_audio_transc_onefile.py] and
    [pptx_audio_transcriber.py]. *)
Definition format_time (seconds : float) : result string :=
  match int_of_float (float_mod1 seconds * 1000)%float with
  | Raise e => Raise e
  | Ok millis =>
      match int_of_float seconds with
      | Raise e => Raise e
      | Ok seconds =>
          let minutes := seconds / 60 in
          let hours := minutes / 60 in
          Ok (format_int 2 hours ++ ":" ++ format_int 2 (minutes mod 60)
              ++ ":" ++ format_int 2 (seconds mod 60)
              ++ "." ++ format_int 3 millis)
      end
  end.

(* ================================================================== *)
(** * Collaborators and effects *)
(* ================================================================== *)

(** What [subprocess.run(['ffmpeg', ..., '-i', path, ...])] gives: the exit
    code of the process, or an exception of the invocation itself. *)
Inductive run_outcome : Type :=
| Exited (returncode : Z)
| RunFailed.

(** What [float(ffmpeg.probe(path)['format']['duration'])] gives. *)
Inductive probe_outcome : Type :=
| ProbeRaised          (* ffmpeg.probe raises: process failure *)
| ProbeNoFormat        (* no 'format' key: KeyError *)
| ProbeNoDuration      (* no 'duration' key: KeyError *)
| ProbeMalformed       (* float(...) raises ValueError *)
| ProbeDuration (d : float).

Record segment : Type := {
  seg_start : float;
  seg_end : float;
  seg_text : string
}.

(** The dictionary returned by [model.transcribe]. *)
Record transcription : Type := {
  text : string;
  segments : list segment
}.

Record world : Type := {
  ffmpeg_run : string -> run_outcome;
  ffmpeg_probe : string -> probe_outcome;
  whisper_transcribe : string -> result transcription
}.

(** The observable actions of the pipeline, in program order. *)
Inductive event : Type :=
| EvOpen (file : string)                 (* open(file, 'w') *)
| EvWrite (file : string) (data : string)
| EvDecode (path : string)               (* the decoder is run on path *)
| EvProbe (path : string)                (* the probe is run on path *)
| EvTranscribe (path : string).          (* model.transcribe(path) *)

(** Computations that log events and may raise: the events emitted so far
    are kept when an exception is raised. *)
Definition M (A : Type) : Type := (list event * result A)%type.

Definition ret {A : Type} (a : A) : M A := ([], Ok a).

Definition bind {A B : Type} (m : M A) (k : A -> M B) : M B :=
  match m with
  | (t, Ok a) => let (t', r) := k a in ((t ++ t')%list, r)
  | (t, Raise e) => (t, Raise e)
  end.

Definition emit (e : event) : M unit := ([e], Ok tt).

Definition lift {A : Type} (r : result A) : M A := ([], r).

Notation "x <- m ;; k" := (bind m (fun x => k))
  (at level 61, m at next level, right associativity).
Notation "m ;; k" := (bind m (fun _ => k))
  (at level 61, right associativity).

Definition trace_of {A : Type} (m : M A) : list event := fst m.
Definition value_of {A : Type} (m : M A) : result A := snd m.

(** The content of [file] after the events of [t]: what was written since
    it was last opened for writing. *)
Fixpoint file_content (file : string) (t : list event) (acc : string) : string :=
  match t with
  | [] => acc
  | EvOpen f :: t' =>
      file_content file t' (if (f =? file)%string then "" else acc)
  | EvWrite f d :: t' =>
      file_content file t' (if (f =? file)%string then acc ++ d else acc)
  | _ :: t' => file_content file t' acc
  end.

Definition is_open (file : string) (e : event) : bool :=
  match e with
  | EvOpen f => (f =? file)%string
  | _ => false
  end.

(** [file] was created by the events of [t]. *)
Definition file_created (file : string) (t : list event) : bool :=
  existsb (is_open file) t.

(* ================================================================== *)
(** * The zip container and the scratch directory *)
(* ================================================================== *)

(** [ZipFile.extract] on one member.  The call creates the folders above
    the target, opens the member, which reads its header, then creates the
    target file and copies the data into it; the check sum is compared
    when the last block has been read.  So the call returns with the
    member written, or it raises: before the target file is created (a
    header that cannot be read raises [BadZipFile]) or after it (a wrong
    check sum raises [BadZipFile], a damaged compressed stream raises
    [zlib.error]); the file created is not removed when the copy raises.
    [target_left] tells whether the target file exists after the
    exception. *)
Inductive extract_outcome : Type :=
| Extracted
| Raised (e : exn) (target_left : bool).

Record zip_member : Type := {
  filename : string;
  extraction : extract_outcome
}.

(** [s.split('/')] *)
Fixpoint split_slash (s : string) (cur : string) : list string :=
  match s with
  | EmptyString => [cur]
  | String c s' =>
      if (c =? "/")%char then cur :: split_slash s' ""
      else split_slash s' (cur ++ String c "")
  end.

(** The path, relative to the target folder, at which [ZipFile.extract]
    writes a member: the empty, [.] and [..] components are dropped. *)
Definition arcname (name : string) : list string :=
  filter (fun c => negb ((c =? "") || (c =? ".") || (c =? ".."))%string)
         (split_slash name "").

(** The names directly inside [temp/ppt/media], given the files below
    [temp]: the third component of every path through that folder. *)
Fixpoint media_children (tree : list (list string)) : list string :=
  match tree with
  | [] => []
  | ("ppt" :: "media" :: c :: _) :: tree' =>
      let rest := media_children tree' in
      if existsb (String.eqb c) rest then rest else c :: rest
  | _ :: tree' => media_children tree'
  end.

Fixpoint insert_sorted (x : string) (l : list string) : list string :=
  match l with
  | [] => [x]
  | y :: l' => if String.leb x y then x :: l else y :: insert_sorted x l'
  end.

(** [sorted(l)] on names *)
Fixpoint sorted (l : list string) : list string :=
  match l with
  | [] => []
  | x :: l' => insert_sorted x (sorted l')
  end.

Definition AUDIO_EXTENSIONS : list string := [".m4a"; ".mp3"; ".wav"].

(** One turn of an extraction loop: [zip_ref.extract(...)] inside
    [try: ... except zipfile.BadZipFile:].  The value is the path that
    exists below the target folder after the turn, and whether the name
    goes on [corrupted_files]: the member itself when the target file was
    created, the folder above it when [BadZipFile] came before that.  An
    exception of another class is not handled. *)
Definition try_extract (file_info : zip_member) : result (list string * bool) :=
  match extraction file_info with
  | Extracted => Ok (arcname (filename file_info), false)
  | Raised BadZipFile target_left =>
      Ok (if target_left then arcname (filename file_info)
          else removelast (arcname (filename file_info)), true)
  | Raised e _ => Raise e
  end.

(** [extract_audio_from_pptx] of [pptx_audio_transc_onefile.py] and of
    [pptx_audio_transcriber.py] (the two are the same text).  The scratch
    folder is emptied first, so the paths below it are exactly those left
    by the extraction loop.  Returns the candidate clips, and the local
    list [corrupted_files] that the function prints; an exception that the
    loop does not handle ends the call. *)
Fixpoint extract_members (members : list zip_member)
  : result (list (list string) * list string) :=
  match members with
  | [] => Ok ([], [])
  | file_info :: rest =>
      if startswith (filename file_info) "ppt/media/"
         && endswith_any (filename file_info) AUDIO_EXTENSIONS
      then match try_extract file_info with
           | Raise e => Raise e
           | Ok (path, bad) =>
               match extract_members rest with
               | Raise e => Raise e
               | Ok (tree, corrupted_files) =>
                   Ok (path :: tree,
                       if bad then filename file_info :: corrupted_files
                       else corrupted_files)
               end
           end
      else extract_members rest
  end.

Definition media_folder_exists (tree : list (list string)) : bool :=
  existsb (fun p => match p with
                    | "ppt" :: "media" :: _ => true
                    | _ => false
                    end) tree.

Definition glob_m4a (tree : list (list string)) : list string :=
  filter (fun n => endswith n ".m4a") (media_children tree).

Definition extract_audio_from_pptx (members : list zip_member)
    (output_folder : string) : result (list string * list string) :=
  let temp_folder := path_join output_folder "temp" in
  match extract_members members with
  | Raise e => Raise e
  | Ok (tree, corrupted_files) =>
      let media_folder := path_join (path_join temp_folder "ppt") "media" in
      if negb (media_folder_exists tree) then Ok ([], corrupted_files)
      else Ok (map (path_join media_folder) (sorted (glob_m4a tree)),
               corrupted_files)
  end.

(* ================================================================== *)
(** * Clip validation *)
(* ================================================================== *)

(** [is_valid_audio]: the decoder is run; an exit code other than zero, or
    an exception of the invocation, gives [False]. *)
Definition is_valid_audio (w : world) (file_path : string) : M bool :=
  emit (EvDecode file_path) ;;
  ret (match ffmpeg_run w file_path with
       | Exited returncode => returncode =? 0
       | RunFailed => false
       end).

(** [get_audio_duration]: every exception is caught and gives [0.0]. *)
Definition get_audio_duration (w : world) (file_path : string) : M float :=
  emit (EvProbe file_path) ;;
  ret (match ffmpeg_probe w file_path with
       | ProbeDuration duration => duration
       | _ => 0%float
       end).

(** [is_silent_transcription] *)
Definition is_silent_transcription (text : string) : bool :=
  (String.length (strip text) =? 0)%nat.

(** [model.transcribe(str(audio_file))] *)
Definition transcribe (w : world) (audio_file : string) : M transcription :=
  emit (EvTranscribe audio_file) ;;
  lift (whisper_transcribe w audio_file).

(* ================================================================== *)
(** * The merged pipeline, [pptx_audio_transc_onefile.py] *)
(* ================================================================== *)

Module OneFile.

(** The inner loop [for segment in result['segments']]. *)
Fixpoint write_cues (vtt_path : string) (current_time : float)
    (segs : list segment) : M unit :=
  match segs with
  | [] => ret tt
  | segment :: rest =>
      start <- lift (format_time (current_time + seg_start segment)) ;;
      end_ <- lift (format_time (current_time + seg_end segment)) ;;
      emit (EvWrite vtt_path
              (start ++ " --> " ++ end_ ++ nl ++ seg_text segment ++ nl ++ nl)) ;;
      write_cues vtt_path current_time rest
  end.

(** One iteration of the loop over [enumerate(audio_files, 1)]; the value
    is [current_time] after the iteration. *)
Definition merge_step (w : world) (txt_path vtt_path : string)
    (current_time : float) (item : Z * string) : M float :=
  let (index, audio_file) := item in
  valid <- is_valid_audio w audio_file ;;
  if negb valid then ret current_time
  else
    duration <- get_audio_duration w audio_file ;;
    if (duration <? 1)%float then ret current_time
    else
      result <- transcribe w audio_file ;;
      let transcribed_text := text result in
      if is_silent_transcription transcribed_text then ret current_time
      else
        emit (EvWrite txt_path
                ("Slide " ++ str_of_int index ++ ":" ++ nl
                 ++ transcribed_text ++ nl ++ nl)) ;;
        write_cues vtt_path current_time (segments result) ;;
        ret (current_time + duration)%float.

Fixpoint merge_loop (w : world) (txt_path vtt_path : string)
    (items : list (Z * string)) (current_time : float) : M float :=
  match items with
  | [] => ret current_time
  | item :: rest =>
      current_time' <- merge_step w txt_path vtt_path current_time item ;;
      merge_loop w txt_path vtt_path rest current_time'
  end.

Definition txt_path_of (output_folder original_filename : string) : string :=
  path_join output_folder (original_filename ++ "_transcription.txt").

Definition vtt_path_of (output_folder original_filename : string) : string :=
  path_join output_folder (original_filename ++ "_transcription.vtt").

(** [transcribe_and_merge]; the value is the final [current_time] (the
    Python function returns nothing). *)
Definition transcribe_and_merge (w : world) (audio_files : list string)
    (output_folder original_filename : string) : M float :=
  let txt_path := txt_path_of output_folder original_filename in
  let vtt_path := vtt_path_of output_folder original_filename in
  emit (EvOpen txt_path) ;;
  emit (EvOpen vtt_path) ;;
  emit (EvWrite vtt_path ("WEBVTT" ++ nl ++ nl)) ;;
  merge_loop w txt_path vtt_path (enumerate 1 audio_files) 0%float.

(** The body of the loop of [main] for one document whose archive holds
    [members]. *)
Definition process_document (w : world) (members : list zip_member)
    (pptx_output_folder original_filename : string) : M unit :=
  audio_files_corrupted <- lift (extract_audio_from_pptx members pptx_output_folder) ;;
  let audio_files := fst audio_files_corrupted in
  match audio_files with
  | [] => ret tt
  | _ => transcribe_and_merge w audio_files pptx_output_folder original_filename ;;
         ret tt
  end.

End OneFile.

(* ================================================================== *)
(** * The per-clip pipeline, [pptx_audio_transcriber.py] *)
(* ================================================================== *)

Module PerClip.

(** The components of a [pathlib.Path]: empty and [.] components are
    dropped. *)
Definition path_parts (p : string) : list string :=
  filter (fun c => negb ((c =? "") || (c =? "."))%string) (split_slash p "").

(** [audio_file.parent.parent.parent.name] *)
Definition parent3_name (audio_file : string) : string :=
  nth 3 (rev (path_parts audio_file)) "".

(** The loop writing the cues with the clip's own timestamps. *)
Fixpoint write_cues (vtt_file : string) (segs : list segment) : M unit :=
  match segs with
  | [] => ret tt
  | segment :: rest =>
      start <- lift (format_time (seg_start segment)) ;;
      end_ <- lift (format_time (seg_end segment)) ;;
      emit (EvWrite vtt_file
              (start ++ " --> " ++ end_ ++ nl ++ seg_text segment ++ nl ++ nl)) ;;
      write_cues vtt_file rest
  end.

(** [transcribe_audio] *)
Definition transcribe_audio (w : world) (audio_file output_folder : string)
    (slide_number : Z) : M unit :=
  valid <- is_valid_audio w audio_file ;;
  if negb valid then ret tt
  else
    duration <- get_audio_duration w audio_file ;;
    if (duration <? 1)%float then ret tt
    else
      result <- transcribe w audio_file ;;
      let transcribed_text := text result in
      if is_silent_transcription transcribed_text then ret tt
      else
        let original_filename := parent3_name audio_file in
        let slide := str_of_int slide_number in
        let text_file :=
          path_join output_folder (original_filename ++ "_slide_" ++ slide ++ ".txt") in
        let vtt_file :=
          path_join output_folder (original_filename ++ "_slide_" ++ slide ++ ".vtt") in
        emit (EvOpen text_file) ;;
        emit (EvWrite text_file transcribed_text) ;;
        emit (EvOpen vtt_file) ;;
        emit (EvWrite vtt_file ("WEBVTT" ++ nl ++ nl)) ;;
        write_cues vtt_file (segments result).

(** The loop of [main] over [enumerate(audio_files, 1)]. *)
Fixpoint transcribe_all (w : world) (items : list (Z * string))
    (output_folder : string) : M unit :=
  match items with
  | [] => ret tt
  | (index, audio_file) :: rest =>
      transcribe_audio w audio_file output_folder index ;;
      transcribe_all w rest output_folder
  end.

End PerClip.

(* ================================================================== *)
(** * The interactive variant, [transcribe.py] *)
(* ================================================================== *)

Module Transcribe.

(** [format_time] of [transcribe.py]. *)
Definition format_time (seconds : float) : result string :=
  match int_of_float (float_mod1 seconds * 1000)%float with
  | Raise e => Raise e
  | Ok ms =>
      match int_of_float seconds with
      | Raise e => Raise e
      | Ok seconds =>
          let hours := seconds / 3600 in
          let minutes := (seconds mod 3600) / 60 in
          let seconds := seconds mod 60 in
          Ok (format_int 2 hours ++ ":" ++ format_int 2 minutes
              ++ ":" ++ format_int 2 seconds ++ "." ++ format_int 3 ms)
      end
  end.

(** [zip_ref.getinfo(name)]: the archive keeps one entry per name, the
    last one read from the directory of the archive. *)
Definition getinfo (members : list zip_member) (name : string)
  : result zip_member :=
  match find (fun info => (filename info =? name)%string) (rev members) with
  | Some info => Ok info
  | None => Raise KeyError
  end.

Fixpoint path_eqb (p q : list string) : bool :=
  match p, q with
  | [], [] => true
  | a :: p', b :: q' => (a =? b)%string && path_eqb p' q'
  | _, _ => false
  end.

(** A file written below a folder: it is there once, also when it is
    written again. *)
Definition add_file (p : list string) (tree : list (list string))
  : list (list string) :=
  if existsb (path_eqb p) tree then tree else (tree ++ [p])%list.

(** One turn of the loop of [unzip_pptx]: [zip_ref.extract(member, ...)]
    inside [try: ... except zipfile.BadZipFile:], for the entry [info]
    that the name stands for.  The value is the file that the turn leaves,
    if any, and whether the name goes on [corrupted_files].  An entry
    whose name ends in a slash is a folder: it is created and no data is
    read. *)
Definition unzip_turn (info : zip_member) : result (option (list string) * bool) :=
  if endswith (filename info) "/"
  then match extraction info with
       | Raised BadZipFile _ => Ok (None, true)
       | Raised e _ => Raise e
       | Extracted => Ok (None, false)
       end
  else match extraction info with
       | Extracted => Ok (Some (arcname (filename info)), false)
       | Raised BadZipFile target_left =>
           Ok (if target_left then Some (arcname (filename info)) else None, true)
       | Raised e _ => Raise e
       end.

(** The loop of [unzip_pptx] (also of [test_zip.py]) over
    [zip_ref.namelist()]: [tree] holds the files below the extraction
    folder, which is not emptied first, and [corrupted_files] the local
    list of that name. *)
Fixpoint unzip_names (members : list zip_member) (names : list string)
    (tree : list (list string)) (corrupted_files : list string)
  : result (list (list string) * list string) :=
  match names with
  | [] => Ok (tree, corrupted_files)
  | member :: rest =>
      match getinfo members member with
      | Raise e => Raise e
      | Ok info =>
          match unzip_turn info with
          | Raise e => Raise e
          | Ok (file, bad) =>
              unzip_names members rest
                (match file with
                 | Some p => add_file p tree
                 | None => tree
                 end)
                (if bad then (corrupted_files ++ [member])%list
                 else corrupted_files)
          end
      end
  end.

(** The files below the extraction folder after the loop, and the list
    [corrupted_files]; [tree] holds the files that were there before. *)
Definition unzip_members (tree : list (list string)) (members : list zip_member)
  : result (list (list string) * list string) :=
  unzip_names members (map filename members) tree [].

(** [extract_audio_from_pptx] of [transcribe.py]: every file below
    [ppt/media] of the unzipped tree with one of the three extensions is
    copied to [media/<name>]. *)
Fixpoint extract_audio_from_pptx (tree : list (list string)) : list string :=
  match tree with
  | [] => []
  | ("ppt" :: "media" :: c :: sub) :: tree' =>
      let file := last sub c in
      if endswith_any file AUDIO_EXTENSIONS
      then path_join "media" file :: extract_audio_from_pptx tree'
      else extract_audio_from_pptx tree'
  | _ :: tree' => extract_audio_from_pptx tree'
  end.

(** The file system: the content of every existing file. *)
Definition fs : Type := string -> option string.

Definition fs_set (sigma : fs) (path data : string) : fs :=
  fun q => if (q =? path)%string then Some data else sigma q.

(** [open(path, 'w')] *)
Definition fs_open (sigma : fs) (path : string) : fs := fs_set sigma path "".

(** [f.write(data)] on a file opened for writing *)
Definition fs_write (sigma : fs) (path data : string) : fs :=
  match sigma path with
  | Some old => fs_set sigma path (old ++ data)
  | None => fs_set sigma path data
  end.

(** [os.path.abspath] of a path below the working directory. *)
Definition abspath (cwd file : string) : string := path_join cwd file.

(** The derived output paths of [transcribe_audio_files]. *)
Definition text_path_of (abs_path : string) : string :=
  replace abs_path ".m4a" ".txt".

Definition vtt_path_of (abs_path : string) : string :=
  replace abs_path ".m4a" ".vtt".

Fixpoint write_cues (sigma : fs) (vtt_path : string) (segs : list segment)
  : fs * result unit :=
  match segs with
  | [] => (sigma, Ok tt)
  | segment :: rest =>
      match format_time (seg_start segment) with
      | Raise e => (sigma, Raise e)
      | Ok start =>
          match format_time (seg_end segment) with
          | Raise e => (sigma, Raise e)
          | Ok end_ =>
              write_cues
                (fs_write sigma vtt_path
                   (start ++ " --> " ++ end_ ++ nl ++ seg_text segment ++ nl ++ nl))
                vtt_path rest
          end
      end
  end.

(** [p[:p.rfind('/') + 1]]: the path up to its last slash, if it has
    one. *)
Fixpoint up_to_last_slash (p : string) : option string :=
  match p with
  | EmptyString => None
  | String c p' =>
      match up_to_last_slash p' with
      | Some head => Some (String c head)
      | None => if (c =? "/")%char then Some (String c EmptyString) else None
      end
  end.

Fixpoint all_slashes (s : string) : bool :=
  match s with
  | EmptyString => true
  | String c s' => (c =? "/")%char && all_slashes s'
  end.

(** [s.rstrip('/')] *)
Fixpoint rstrip_slash (s : string) : string :=
  match s with
  | EmptyString => EmptyString
  | String c s' =>
      match rstrip_slash s' with
      | EmptyString => if (c =? "/")%char then EmptyString else String c EmptyString
      | r => String c r
      end
  end.

(** [os.path.dirname] *)
Definition dirname (p : string) : string :=
  match up_to_last_slash p with
  | None => ""
  | Some head => if all_slashes head then head else rstrip_slash head
  end.

(** [transcribe_audio_files].  For a file that does not exist the folder
    of the file is listed, outside any [try]: [listdir] tells whether
    [os.listdir] raises on a folder, as it does when the folder does not
    exist either. *)
Fixpoint transcribe_audio_files (w : world) (listdir : string -> option exn)
    (cwd : string) (audio_files : list string) (sigma : fs) : fs * result unit :=
  match audio_files with
  | [] => (sigma, Ok tt)
  | file :: rest =>
      let abs_path := abspath cwd file in
      match sigma abs_path with
      | None =>
          let media_folder := dirname abs_path in
          match listdir media_folder with
          | Some e => (sigma, Raise e)
          | None => transcribe_audio_files w listdir cwd rest sigma
          end
      | Some _ =>
          match whisper_transcribe w abs_path with
          | Raise FileNotFoundError =>
              transcribe_audio_files w listdir cwd rest sigma
          | Raise e => (sigma, Raise e)
          | Ok result =>
              let text_path := text_path_of abs_path in
              let vtt_path := vtt_path_of abs_path in
              let sigma1 := fs_write (fs_open sigma text_path) text_path (text result) in
              let sigma2 :=
                fs_write (fs_open sigma1 vtt_path) vtt_path ("WEBVTT" ++ nl ++ nl) in
              match write_cues sigma2 vtt_path (segments result) with
              | (sigma3, Raise e) => (sigma3, Raise e)
              | (sigma3, Ok _) => transcribe_audio_files w listdir cwd rest sigma3
              end
          end
      end
  end.

End Transcribe.

(* ================================================================== *)
(** * Specification-level definitions *)
(* ================================================================== *)

(** What the validation gates and the engine say about one clip, without
    the event log. *)
Inductive verdict : Type :=
| Undecodable
| TooShort (duration : float)
| EngineFailed (duration : float) (e : exn)
| Silent (duration : float) (result : transcription)
| Included (duration : float) (result : transcription).

Definition decodable (w : world) (audio_file : string) : bool :=
  match ffmpeg_run w audio_file with
  | Exited returncode => returncode =? 0
  | RunFailed => false
  end.

Definition probe_failed (w : world) (audio_file : string) : bool :=
  match ffmpeg_probe w audio_file with
  | ProbeDuration _ => false
  | _ => true
  end.

Definition probed_duration (w : world) (audio_file : string) : float :=
  match ffmpeg_probe w audio_file with
  | ProbeDuration duration => duration
  | _ => 0%float
  end.

Definition examine (w : world) (audio_file : string) : verdict :=
  if negb (decodable w audio_file) then Undecodable
  else
    let duration := probed_duration w audio_file in
    if (duration <? 1)%float then TooShort duration
    else match whisper_transcribe w audio_file with
         | Raise e => EngineFailed duration e
         | Ok result =>
             if is_silent_transcription (text result) then Silent duration result
             else Included duration result
         end.

Definition is_included (w : world) (audio_file : string) : bool :=
  match examine w audio_file with
  | Included _ _ => true
  | _ => false
  end.

(** A clip is excluded when one of the three gates rejects it. *)
Definition is_excluded (w : world) (audio_file : string) : bool :=
  match examine w audio_file with
  | Undecodable | TooShort _ | Silent _ _ => true
  | _ => false
  end.

(** The spec's running offset: the durations of the included clips met so
    far, added in order to the starting value. *)
Definition advance (w : world) (offset : float) (audio_file : string) : float :=
  match examine w audio_file with
  | Included duration _ => (offset + duration)%float
  | _ => offset
  end.

Definition spec_offset (w : world) (clips : list string) : float :=
  fold_left (advance w) clips 0%float.

(** The text of one cue, following the spec: the two formatted bounds
    rebased by [offset], then the segment's text. *)
Definition cue_line (offset : float) (s : segment) : result string :=
  match format_time (offset + seg_start s) with
  | Raise e => Raise e
  | Ok start =>
      match format_time (offset + seg_end s) with
      | Raise e => Raise e
      | Ok end_ =>
          Ok (start ++ " --> " ++ end_ ++ nl ++ seg_text s ++ nl ++ nl)
      end
  end.

Fixpoint cue_lines (offset : float) (segs : list segment) : result (list string) :=
  match segs with
  | [] => Ok []
  | s :: rest =>
      match cue_line offset s with
      | Raise e => Raise e
      | Ok line =>
          match cue_lines offset rest with
          | Raise e => Raise e
          | Ok lines => Ok (line :: lines)
          end
      end
  end.

(** One block of the plain-text artifact. *)
Definition text_block (label : Z) (body : string) : string :=
  "Slide " ++ str_of_int label ++ ":" ++ nl ++ body ++ nl ++ nl.

(** The blocks of the plain-text artifact following the code: one block
    per included clip, labelled by the clip's position in the candidate
    list. *)
Fixpoint spec_blocks (w : world) (items : list (Z * string)) : list string :=
  match items with
  | [] => []
  | (index, audio_file) :: rest =>
      match examine w audio_file with
      | Included _ result => text_block index (text result) :: spec_blocks w rest
      | _ => spec_blocks w rest
      end
  end.

(** The blocks following the claim's words: numbered by their position
    among the included clips. *)
Fixpoint claimed_blocks (w : world) (clips : list string) (next : Z) : list string :=
  match clips with
  | [] => []
  | audio_file :: rest =>
      match examine w audio_file with
      | Included _ result =>
          text_block next (text result) :: claimed_blocks w rest (next + 1)
      | _ => claimed_blocks w rest next
      end
  end.

(** What a trace writes to [file], in order. *)
Definition writes_to (file : string) (t : list event) : list string :=
  flat_map (fun e => match e with
                     | EvWrite f d => if (f =? file)%string then [d] else []
                     | _ => []
                     end) t.

Definition is_write (e : event) : bool :=
  match e with
  | EvWrite _ _ => true
  | _ => false
  end.

Definition is_examination (e : event) : bool :=
  match e with
  | EvDecode _ | EvProbe _ | EvTranscribe _ => true
  | _ => false
  end.

(** In a trace, every probe and every transcription of a path comes after
    a run of the decoder on that path. *)
Definition decode_first (t : list event) : Prop :=
  forall pre e post path,
    t = (pre ++ e :: post)%list ->
    e = EvProbe path \/ e = EvTranscribe path ->
    In (EvDecode path) pre.

(** The end-to-end scenario of the spec: [a.m4a] lasts 2.0 s and says
    hello, [b.m4a] lasts 0.5 s, [c.m4a] lasts 3.0 s and says world. *)
Definition scenario : world := {|
  ffmpeg_run := fun _ => Exited 0;
  ffmpeg_probe := fun p =>
    if (p =? "a.m4a")%string then ProbeDuration 2
    else if (p =? "b.m4a")%string then ProbeDuration 0.5
    else ProbeDuration 3;
  whisper_transcribe := fun p =>
    if (p =? "a.m4a")%string
    then Ok {| text := "hello";
               segments := [{| seg_start := 0; seg_end := 1.5; seg_text := "hello" |}] |}
    else if (p =? "b.m4a")%string
    then Ok {| text := ""; segments := [] |}
    else Ok {| text := "world";
               segments := [{| seg_start := 0.25; seg_end := 2.5; seg_text := "world" |}] |}
|}.

Definition scenario_clips : list string := ["a.m4a"; "b.m4a"; "c.m4a"].

(** The scenario with a probe that finds no duration for [b.m4a]. *)
Definition scenario_probe_failure : world := {|
  ffmpeg_run := ffmpeg_run scenario;
  ffmpeg_probe := fun p =>
    if (p =? "b.m4a")%string then ProbeNoDuration else ffmpeg_probe scenario p;
  whisper_transcribe := whisper_transcribe scenario
|}.

(** A document none of whose clips passes the gates: the decoder rejects
    every file. *)
Definition all_undecodable : world := {|
  ffmpeg_run := fun _ => Exited 1;
  ffmpeg_probe := fun _ => ProbeRaised;
  whisper_transcribe := fun _ => Raise RuntimeError
|}.

(** The scenario with a middle clip that passes the gates: [b.m4a] lasts
    2.5 s and says mid. *)
Definition scenario_all_included : world := {|
  ffmpeg_run := ffmpeg_run scenario;
  ffmpeg_probe := fun p =>
    if (p =? "b.m4a")%string then ProbeDuration 2.5 else ffmpeg_probe scenario p;
  whisper_transcribe := fun p =>
    if (p =? "b.m4a")%string
    then Ok {| text := "mid";
               segments := [{| seg_start := 0.5; seg_end := 2; seg_text := "mid" |}] |}
    else whisper_transcribe scenario p
|}.

(** A float that is a number: [x == x] in Python. *)
Definition is_number (x : float) : bool := (x =? x)%float.

(** Every clip of the list has a probed duration that is a number. *)
Definition durations_are_numbers (w : world) (items : list (Z * string)) : bool :=
  forallb (fun item => is_number (probed_duration w (snd item))) items.

(* ================================================================== *)
(** * Binary64 arithmetic: definitions *)
(* ================================================================== *)

(** Round to nearest, ties to even, of [m / 2^n] to an integer. *)
Definition rne (m n : Z) : Z :=
  let q := m / 2 ^ n in
  match 2 * (m mod 2 ^ n) ?= 2 ^ n with
  | Lt => q
  | Eq => if Z.even q then q else q + 1
  | Gt => q + 1
  end.

(** Position of the highest bit of a positive mantissa. *)
Definition digits (m : positive) : Z := Zpos (digits2_pos m).

(** The binary64 value nearest to [m * 2^e], for a mantissa that is at
    least as fine as the format's. *)
Definition round64 (m : positive) (e : Z) : spec_float :=
  let E := fexp prec emax (digits m + e) in
  match rne (Zpos m) (E - e) with
  | Zpos p =>
      if (Zpos p =? 9007199254740992)
      then if E + 1 <=? emax - prec
           then S754_finite false 4503599627370496%positive (E + 1)
           else S754_infinity false
      else if E <=? emax - prec
           then S754_finite false p E
           else S754_infinity false
  | _ => S754_zero false
  end.

(** The float for an integer mantissa [q] of at most 54 bits at exponent
    [E]: the last steps of rounding. *)
Definition pack (q E : Z) : spec_float :=
  match q with
  | Zpos p =>
      if (Zpos p =? 9007199254740992)
      then if E + 1 <=? emax - prec
           then S754_finite false 4503599627370496%positive (E + 1)
           else S754_infinity false
      else if E <=? emax - prec
           then S754_finite false p E
           else S754_infinity false
  | _ => S754_zero false
  end.

(** Non-negative values: what [0 <= x] means on [spec_float]. *)
Definition nonneg (x : spec_float) : bool :=
  match x with
  | S754_zero _ => true
  | S754_infinity s => negb s
  | S754_finite s _ _ => negb s
  | S754_nan => false
  end.

(** The largest binary64 value below 1. *)
Definition below_one : spec_float :=
  S754_finite false 9007199254740991 (-53).

(** [1000.0] *)
Definition thousand : spec_float :=
  S754_finite false 8796093022208000 (-43).

(** The largest value a product [frac * 1000.0] can take. *)
Definition below_thousand : spec_float :=
  S754_finite false 8796093022207999 (-43).

(* ================================================================== *)
(** * Selection of container entries *)
(* ================================================================== *)

Definition selected (m : zip_member) : bool :=
  startswith (filename m) "ppt/media/"
  && endswith_any (filename m) AUDIO_EXTENSIONS.

Definition is_extracted (m : zip_member) : bool :=
  match extraction m with
  | Extracted => true
  | Raised _ _ => false
  end.

(** The target file of the member exists after its extraction. *)
Definition target_exists (m : zip_member) : bool :=
  match extraction m with
  | Extracted => true
  | Raised _ target_left => target_left
  end.

(** The path that the extraction of a member leaves below the scratch
    folder: the member, or the folder above it. *)
Definition path_left (m : zip_member) : list string :=
  if target_exists m then arcname (filename m)
  else removelast (arcname (filename m)).

(** Every character of the text is white space: the text is read from its
    first byte, character by character. *)
Fixpoint all_space (s : string) : bool :=
  match s with
  | EmptyString => true
  | String c s1 =>
      if isspace c then all_space s1
      else
        match s1 with
        | EmptyString => false
        | String d s2 =>
            if isspace2 c d then all_space s2
            else
              match s2 with
              | EmptyString => false
              | String e s3 => if isspace3 c d e then all_space s3 else false
              end
        end
  end.

(** A sequence of white-space characters. *)
Inductive spaces : string -> Prop :=
| spaces_nil : spaces ""
| spaces_1 c s : isspace c = true -> spaces s -> spaces (String c s)
| spaces_2 c d s :
    isspace2 c d = true -> spaces s -> spaces (String c (String d s))
| spaces_3 c d e s :
    isspace3 c d e = true -> spaces s ->
    spaces (String c (String d (String e s))).

(* ================================================================== *)
(** * Further definitions: the rest of the code *)
(* ================================================================== *)

(** A list of names in non-decreasing order. *)
Fixpoint is_sorted (l : list string) : bool :=
  match l with
  | [] => true
  | x :: l' =>
      match l' with
      | [] => true
      | y :: _ => String.leb x y && is_sorted l'
      end
  end.

(** The cue texts the merged loop writes from [offset] on: the cues of
    every included clip, rebased by the offset in force at that clip. *)
Fixpoint spec_cues (w : world) (items : list (Z * string)) (offset : float)
  : result (list string) :=
  match items with
  | [] => Ok []
  | (_, audio_file) :: rest =>
      match examine w audio_file with
      | Included duration result =>
          match cue_lines offset (segments result) with
          | Raise e => Raise e
          | Ok lines =>
              match spec_cues w rest (offset + duration)%float with
              | Raise e => Raise e
              | Ok more => Ok (lines ++ more)%list
              end
          end
      | EngineFailed _ e => Raise e
      | _ => spec_cues w rest offset
      end
  end.

(** A path that [pathlib.Path] prints as it is given: plain components
    separated by single slashes, with at most one slash in front. *)
Definition normalised (p : string) : bool :=
  (p =? (if startswith p "/" then "/" else "")
        ++ String.concat "/" (PerClip.path_parts p))%string.

(** The two files [transcribe_audio] writes for a clip. *)
Definition clip_text_file (output_folder audio_file : string)
    (slide_number : Z) : string :=
  path_join output_folder
    (PerClip.parent3_name audio_file ++ "_slide_" ++ str_of_int slide_number
     ++ ".txt").

Definition clip_vtt_file (output_folder audio_file : string)
    (slide_number : Z) : string :=
  path_join output_folder
    (PerClip.parent3_name audio_file ++ "_slide_" ++ str_of_int slide_number
     ++ ".vtt").

Module Interactive.

(** [os.makedirs(name, exist_ok=True)]: the empty name is no path, and
    [FileNotFoundError] is raised for it; for another name the outcome is
    that of the file system, [mk]. *)
Definition makedirs (mk : string -> option exn) (name : string) : option exn :=
  if (name =? "")%string then Some FileNotFoundError else mk name.

(** [unzip_pptx] of [transcribe.py] and [test_zip.py]: the value is the
    extraction folder, or [None] when the path does not end in [.pptx] or
    does not exist.  [open_zip] is [zipfile.ZipFile(pptx_path, 'r')], which
    raises for a file that is no archive; neither this call nor
    [os.makedirs] stands in a [try].  [tree] holds the files that are
    below the extraction folder before the call. *)
Definition unzip_pptx (path_exists : string -> bool)
    (mk : string -> option exn) (open_zip : string -> result (list zip_member))
    (tree : list (list string)) (pptx_path : string) : result (option string) :=
  if endswith pptx_path ".pptx" && path_exists pptx_path
  then
    let extract_folder := replace pptx_path ".pptx" "" in
    match makedirs mk extract_folder with
    | Some e => Raise e
    | None =>
        match open_zip pptx_path with
        | Raise e => Raise e
        | Ok members =>
            match Transcribe.unzip_members tree members with
            | Raise e => Raise e
            | Ok _ => Ok (Some extract_folder)
            end
        end
    end
  else Ok None.

(** [auto_detect_pptx]: [listing] is [os.listdir(folder_path)] and
    [answer] is [int(input(...))], read only when several files match. *)
Definition auto_detect_pptx (isdir : bool) (listing : list string)
    (answer : result Z) (folder_path : string) : result (option string) :=
  if negb isdir then Ok None
  else
    let pptx_files := filter (fun f => endswith f ".pptx") listing in
    match pptx_files with
    | [] => Ok None
    | [f] => Ok (Some (path_join folder_path f))
    | _ =>
        match answer with
        | Raise e => Raise e
        | Ok n =>
            let choice := n - 1 in
            if (0 <=? choice) && (choice <? Z.of_nat (List.length pptx_files))
            then Ok (Some (path_join folder_path
                             (nth (Z.to_nat choice) pptx_files "")))
            else Ok None
        end
    end.

End Interactive.


Module Main.

(** [name.rfind('.')] as a split: the text before the last dot and the
    text after it. *)
Fixpoint rsplit_dot (name : string) : option (string * string) :=
  match name with
  | EmptyString => None
  | String c name' =>
      match rsplit_dot name' with
      | Some (before, after) => Some (String c before, after)
      | None => if (c =? ".")%char then Some ("", name') else None
      end
  end.

(** [Path(name).stem] for a file name: the name without its last suffix;
    a name whose last dot is its first or its last character has no
    suffix (CPython up to 3.12; from 3.13 on the stem must also hold a
    character other than a dot, which makes no difference for the names
    considered below). *)
Definition stem (name : string) : string :=
  match rsplit_dot name with
  | Some (before, after) =>
      if negb (before =? "")%string && negb (after =? "")%string
      then before else name
  | None => name
  end.


(** The body of the loop of [main] of [pptx_audio_transc_onefile.py] for
    the entry [pptx_file] of the input folder; [archive] is
    [zipfile.ZipFile(pptx_path, 'r')], which raises for a file that is no
    archive. *)
Definition document (w : world) (INPUT_FOLDER OUTPUT_FOLDER : string)
    (archive : string -> result (list zip_member)) (pptx_file : string) : M unit :=
  let pptx_path := path_join INPUT_FOLDER pptx_file in
  let original_filename := stem pptx_file in
  let pptx_output_folder := path_join OUTPUT_FOLDER original_filename in
  members <- lift (archive pptx_path) ;;
  OneFile.process_document w members pptx_output_folder original_filename.

(** The loop of [main] over the documents. *)
Fixpoint documents (w : world) (INPUT_FOLDER OUTPUT_FOLDER : string)
    (archive : string -> result (list zip_member)) (pptx_files : list string)
  : M unit :=
  match pptx_files with
  | [] => ret tt
  | pptx_file :: rest =>
      document w INPUT_FOLDER OUTPUT_FOLDER archive pptx_file ;;
      documents w INPUT_FOLDER OUTPUT_FOLDER archive rest
  end.

(** [main]: the entries of the input folder whose name ends in [.pptx],
    in the order of the listing. *)
Definition main (w : world) (INPUT_FOLDER OUTPUT_FOLDER : string)
    (archive : string -> result (list zip_member)) (listing : list string)
  : M unit :=
  documents w INPUT_FOLDER OUTPUT_FOLDER archive
    (filter (fun f => endswith f ".pptx") listing).

End Main.

(* ================================================================== *)
(** * Binary64 arithmetic: rounding, order and truncation *)
(* ================================================================== *)

Lemma digits_bounds (m : positive) :
  2 ^ (digits m - 1) <= Zpos m < 2 ^ digits m.
Proof.
  unfold digits. induction m as [m IH|m IH|]; cbn [digits2_pos].
  - rewrite Pos2Z.inj_succ.
    replace (Z.succ (Zpos (digits2_pos m)) - 1) with (Z.succ (Zpos (digits2_pos m) - 1)) by lia.
    rewrite !Z.pow_succ_r by lia. lia.
  - rewrite Pos2Z.inj_succ.
    replace (Z.succ (Zpos (digits2_pos m)) - 1) with (Z.succ (Zpos (digits2_pos m) - 1)) by lia.
    rewrite !Z.pow_succ_r by lia. lia.
  - cbn. lia.
Qed.

Lemma digits_pos (m : positive) : 0 < digits m.
Proof. unfold digits. lia. Qed.

Lemma digits_unique (m : positive) (k : Z) :
  2 ^ (k - 1) <= Zpos m < 2 ^ k -> digits m = k.
Proof.
  intros [Hlo Hhi]. pose proof (digits_bounds m) as [Dlo Dhi].
  pose proof (digits_pos m).
  assert (0 < k).
  { destruct (Z.ltb_spec 0 k); [assumption|]. exfalso.
    assert (2 ^ k <= 1)
      by (destruct (Z.eq_dec k 0); [subst; cbn; lia | rewrite Z.pow_neg_r; lia]).
    lia. }
  destruct (Z.lt_trichotomy (digits m) k) as [Hlt|[Heq|Hgt]]; [|assumption|].
  - assert (2 ^ digits m <= 2 ^ (k - 1)) by (apply Z.pow_le_mono_r; lia). lia.
  - assert (2 ^ k <= 2 ^ (digits m - 1)) by (apply Z.pow_le_mono_r; lia). lia.
Qed.

Lemma digits_le (m1 m2 : positive) :
  (m1 <= m2)%positive -> digits m1 <= digits m2.
Proof.
  intros H. pose proof (digits_bounds m1) as [L1 H1].
  pose proof (digits_bounds m2) as [L2 H2].
  destruct (Z.leb_spec (digits m1) (digits m2)); [assumption|].
  assert (2 ^ digits m2 <= 2 ^ (digits m1 - 1)) by (apply Z.pow_le_mono_r; lia).
  lia.
Qed.

(** ** Shifting right with round and sticky bits *)

Lemma iter_pos_nat {A : Type} (f : A -> A) (p : positive) (x : A) :
  iter_pos f p x = Nat.iter (Pos.to_nat p) f x.
Proof.
  revert x. induction p as [p IH|p IH|]; intros x; cbn [iter_pos].
  - rewrite !IH, Pos2Nat.inj_xI. 
    replace (S (2 * Pos.to_nat p)) with (Pos.to_nat p + S (Pos.to_nat p))%nat by lia.
    rewrite Nat.iter_add. f_equal. now rewrite Nat.iter_succ_r.
  - rewrite !IH, Pos2Nat.inj_xO.
    replace (2 * Pos.to_nat p)%nat with (Pos.to_nat p + Pos.to_nat p)%nat by lia.
    now rewrite Nat.iter_add.
  - reflexivity.
Qed.

Lemma shr_1_spec (m : Z) (r s : bool) :
  0 <= m ->
  shr_1 {| shr_m := m; shr_r := r; shr_s := s |}
  = {| shr_m := m / 2; shr_r := Z.odd m; shr_s := r || s |}.
Proof.
  intros Hm. unfold shr_1.
  destruct m as [|[p|p|]|p]; try lia; try reflexivity.
  - f_equal. rewrite Pos2Z.inj_xI. 
    apply (Z.div_unique_pos _ _ _ 1); lia.
  - f_equal. rewrite Pos2Z.inj_xO.
    apply (Z.div_unique_pos _ _ _ 0); lia.
Qed.

(** After [k+1] steps: the quotient, the bit just below it, and whether
    anything lies below that bit. *)
Lemma shr_iter (m : Z) (k : nat) :
  0 <= m ->
  Nat.iter (S k) shr_1 {| shr_m := m; shr_r := false; shr_s := false |}
  = {| shr_m := m / 2 ^ Z.of_nat (S k);
       shr_r := Z.odd (m / 2 ^ Z.of_nat k);
       shr_s := negb (m mod 2 ^ Z.of_nat k =? 0) |}.
Proof.
  intros Hm. induction k as [|k IH].
  - cbn [Nat.iter]. rewrite shr_1_spec by assumption.
    change (2 ^ Z.of_nat 1) with 2. change (2 ^ Z.of_nat 0) with 1.
    rewrite Z.div_1_r, Z.mod_1_r. reflexivity.
  - change (Nat.iter (S (S k)) shr_1 ?x) with (shr_1 (Nat.iter (S k) shr_1 x)).
    rewrite IH.
    assert (Hp : 0 < 2 ^ Z.of_nat k) by (apply Z.pow_pos_nonneg; lia).
    assert (Hp1 : 2 ^ Z.of_nat (S k) = 2 ^ Z.of_nat k * 2)
      by (rewrite Nat2Z.inj_succ, Z.pow_succ_r; lia).
    assert (Hp2 : 2 ^ Z.of_nat (S (S k)) = 2 ^ Z.of_nat (S k) * 2)
      by (rewrite (Nat2Z.inj_succ (S k)), Z.pow_succ_r; lia).
    rewrite shr_1_spec by (apply Z.div_pos; lia).
    f_equal.
    + rewrite Hp2, Z.div_div by lia. reflexivity.
    + rewrite Hp1, Z.rem_mul_r by lia.
      set (a := m / 2 ^ Z.of_nat k). set (b := m mod 2 ^ Z.of_nat k).
      assert (0 <= b < 2 ^ Z.of_nat k) by (apply Z.mod_pos_bound; lia).
      rewrite (Zmod_odd a).
      destruct (Z.odd a); cbn [orb negb].
      * symmetry. apply negb_true_iff, Z.eqb_neq. lia.
      * f_equal. f_equal. lia.
Qed.

Lemma shr_rne (m : positive) (e n : Z) :
  0 <= n ->
  let '(mrs, e') := shr {| shr_m := Zpos m; shr_r := false; shr_s := false |} e n in
  round_nearest_even (shr_m mrs) (loc_of_shr_record mrs) = rne (Zpos m) n
  /\ e' = e + n.
Proof.
  intros Hn. unfold shr. destruct n as [|p|p]; [| |lia].
  - cbn [shr_m loc_of_shr_record round_nearest_even]. unfold rne.
    change (2 ^ 0) with 1. rewrite Z.div_1_r, Z.mod_1_r. cbn. split; [reflexivity|lia].
  - split; [|reflexivity].
    rewrite iter_pos_nat.
    destruct (Pos.to_nat p) as [|k] eqn:Hk; [lia|].
    rewrite shr_iter by lia.
    assert (Hpk : Zpos p = Z.of_nat (S k)) by lia.
    rewrite Hpk. unfold rne.
    assert (Hp : 0 < 2 ^ Z.of_nat k) by (apply Z.pow_pos_nonneg; lia).
    assert (Hp1 : 2 ^ Z.of_nat (S k) = 2 ^ Z.of_nat k * 2)
      by (rewrite Nat2Z.inj_succ, Z.pow_succ_r; lia).
    rewrite Hp1. rewrite (Z.rem_mul_r (Zpos m)) by lia.
    set (a := Zpos m / 2 ^ Z.of_nat k). set (b := Zpos m mod 2 ^ Z.of_nat k).
    assert (Hb : 0 <= b < 2 ^ Z.of_nat k) by (apply Z.mod_pos_bound; lia).
    rewrite (Zmod_odd a).
    cbn [shr_m shr_r shr_s loc_of_shr_record].
    set (q := Zpos m / (2 ^ Z.of_nat k * 2)).
    destruct (Z.odd a); destruct (Z.eqb_spec b 0) as [Hb0|Hb0]; cbn [negb round_nearest_even].
    + replace (2 * (b + 2 ^ Z.of_nat k * 1) ?= 2 ^ Z.of_nat k * 2) with Eq
        by (symmetry; apply Z.compare_eq_iff; lia).
      reflexivity.
    + replace (2 * (b + 2 ^ Z.of_nat k * 1) ?= 2 ^ Z.of_nat k * 2) with Gt
        by (symmetry; apply Z.compare_gt_iff; lia).
      reflexivity.
    + replace (2 * (b + 2 ^ Z.of_nat k * 0) ?= 2 ^ Z.of_nat k * 2) with Lt
        by (symmetry; apply Z.compare_lt_iff; lia).
      reflexivity.
    + replace (2 * (b + 2 ^ Z.of_nat k * 0) ?= 2 ^ Z.of_nat k * 2) with Lt
        by (symmetry; apply Z.compare_lt_iff; lia).
      reflexivity.
Qed.

(** ** Rounding to an integer *)

Lemma rne_bounds (m n : Z) :
  0 <= m -> 0 <= n -> m / 2 ^ n <= rne m n <= m / 2 ^ n + 1.
Proof.
  intros Hm Hn. unfold rne.
  destruct (2 * (m mod 2 ^ n) ?= 2 ^ n); [destruct (Z.even _)| |]; lia.
Qed.

Lemma rne_exact (m : Z) : rne m 0 = m.
Proof.
  unfold rne. change (2 ^ 0) with 1. now rewrite Z.div_1_r, Z.mod_1_r.
Qed.

Lemma rne_mono (m1 m2 n : Z) :
  0 <= n -> m1 <= m2 -> rne m1 n <= rne m2 n.
Proof.
  intros Hn Hle. unfold rne.
  assert (Hp : 0 < 2 ^ n) by (apply Z.pow_pos_nonneg; lia).
  pose proof (Z.div_mod m1 (2 ^ n) ltac:(lia)) as E1.
  pose proof (Z.div_mod m2 (2 ^ n) ltac:(lia)) as E2.
  pose proof (Z.mod_pos_bound m1 (2 ^ n) Hp) as B1.
  pose proof (Z.mod_pos_bound m2 (2 ^ n) Hp) as B2.
  set (P := 2 ^ n) in *. set (q1 := m1 / P) in *. set (q2 := m2 / P) in *.
  set (r1 := m1 mod P) in *. set (r2 := m2 mod P) in *.
  assert (Hq : q1 <= q2) by nia.
  destruct (Z.compare_spec (2 * r1) P) as [C1|C1|C1];
    destruct (Z.compare_spec (2 * r2) P) as [C2|C2|C2];
    try (destruct (Z.even q1) eqn:Ev1); try (destruct (Z.even q2) eqn:Ev2);
    try lia;
    try (assert (q1 < q2 \/ q1 = q2) as [Hlt|Heq] by lia; [lia|];
         try (rewrite Heq in Ev1; congruence); nia).
Qed.

Lemma rne_upper (m n k : Z) :
  0 <= n -> 0 <= k -> 0 <= m < 2 ^ (k + n) -> rne m n <= 2 ^ k.
Proof.
  intros Hn Hk [Hm Hlt].
  pose proof (rne_bounds m n Hm Hn) as [_ Hub].
  assert (m / 2 ^ n < 2 ^ k).
  { apply Z.div_lt_upper_bound; [apply Z.pow_pos_nonneg; lia|].
    rewrite <- Z.pow_add_r by lia. now rewrite Z.add_comm. }
  lia.
Qed.

(** Scaling the mantissa and the shift together does not change the
    rounded integer. *)
Lemma rne_scale (m n j : Z) :
  0 <= n -> 0 <= j -> rne (m * 2 ^ j) (n + j) = rne m n.
Proof.
  intros Hn Hj. unfold rne.
  assert (Hpn : 0 < 2 ^ n) by (apply Z.pow_pos_nonneg; lia).
  assert (Hpj : 0 < 2 ^ j) by (apply Z.pow_pos_nonneg; lia).
  rewrite Z.pow_add_r by lia.
  rewrite Z.div_mul_cancel_r by lia.
  rewrite Z.mul_mod_distr_r by lia.
  replace (2 * (m mod 2 ^ n * 2 ^ j) ?= 2 ^ n * 2 ^ j)
    with (2 * (m mod 2 ^ n) ?= 2 ^ n); [reflexivity|].
  destruct (Z.compare_spec (2 * (m mod 2 ^ n)) (2 ^ n)); symmetry.
  - apply Z.compare_eq_iff. nia.
  - apply Z.compare_lt_iff. nia.
  - apply Z.compare_gt_iff. nia.
Qed.

(** ** [binary_round_aux] on an exact, fine enough mantissa *)

Lemma fexp_eq (k : Z) : fexp prec emax k = Z.max (k - 53) (-1074).
Proof. reflexivity. Qed.

Lemma rne_mantissa_upper (m : positive) (e : Z) :
  e <= fexp prec emax (digits m + e) ->
  0 <= rne (Zpos m) (fexp prec emax (digits m + e) - e) <= 9007199254740992.
Proof.
  intros Ha. rewrite fexp_eq in *. change 9007199254740992 with (2 ^ 53).
  pose proof (digits_bounds m) as [_ Hd]. pose proof (digits_pos m).
  set (n := Z.max (digits m + e - 53) (-1074) - e) in *.
  split.
  - pose proof (rne_bounds (Zpos m) n ltac:(lia) ltac:(lia)) as [Hlo _].
    assert (0 <= Zpos m / 2 ^ n) by (apply Z.div_pos; [lia|apply Z.pow_pos_nonneg; lia]).
    lia.
  - apply rne_upper; try lia. split; [lia|].
    eapply Z.lt_le_trans; [exact Hd|]. apply Z.pow_le_mono_r; lia.
Qed.

Lemma binary_round_aux_round64 (m : positive) (e : Z) :
  e <= fexp prec emax (digits m + e) ->
  binary_round_aux prec emax false (Zpos m) e loc_Exact = round64 m e.
Proof.
  intros Ha. pose proof (rne_mantissa_upper m e Ha) as Hq.
  unfold binary_round_aux, round64, shr_fexp.
  cbn [shr_record_of_loc Zdigits2]. fold (digits m).
  set (E := fexp prec emax (digits m + e)) in *.
  pose proof (shr_rne m e (E - e) ltac:(lia)) as Hs.
  destruct (shr {| shr_m := Zpos m; shr_r := false; shr_s := false |} e (E - e))
    as [mrs e'].
  destruct Hs as [Hs He']. rewrite Hs.
  replace e' with E by lia. clear Hs He' mrs e'.
  assert (HE : -1074 <= E) by (subst E; rewrite fexp_eq; lia).
  destruct (rne (Zpos m) (E - e)) as [|p|p] eqn:Hr; [| |lia].
  - cbn [Zdigits2]. rewrite fexp_eq.
    replace (Z.max (0 + E - 53) (-1074) - E) with (Z.max (0 + E - 53) (-1074) - E) by reflexivity.
    unfold shr.
    destruct (Z.max (0 + E - 53) (-1074) - E) eqn:Hn; try reflexivity. lia.
  - cbn [Zdigits2]. fold (digits p).
    pose proof (digits_bounds p) as [Dlo Dhi]. pose proof (digits_pos p).
    destruct (Z.eqb_spec (Zpos p) 9007199254740992) as [H53|H53].
    + assert (Hd : digits p = 54) by (injection H53 as ->; reflexivity).
      rewrite Hd, fexp_eq.
      replace (Z.max (54 + E - 53) (-1074) - E) with 1 by lia.
      injection H53 as ->. cbn [shr iter_pos shr_1 shr_m].
      replace (E + 1 <=? emax - prec) with (E + 1 <=? 971) by reflexivity.
      reflexivity.
    + assert (Hd : digits p <= 53).
      { destruct (Z.leb_spec (digits p) 53); [assumption|].
        assert (2 ^ 53 <= 2 ^ (digits p - 1)) by (apply Z.pow_le_mono_r; lia).
        change (2 ^ 53) with 9007199254740992 in *. lia. }
      rewrite fexp_eq. unfold shr.
      destruct (Z.max (digits p + E - 53) (-1074) - E) eqn:Hn; try reflexivity.
      lia.
Qed.

(** ** Order *)

Lemma round64_pack (m : positive) (e : Z) :
  round64 m e =
  pack (rne (Zpos m) (fexp prec emax (digits m + e) - e))
       (fexp prec emax (digits m + e)).
Proof. reflexivity. Qed.

Ltac split_compare :=
  rewrite ?Pos.compare_cont_spec;
  repeat match goal with
    | |- context [Z.compare ?a ?b] => destruct (Z.compare_spec a b)
    | |- context [Pos.compare ?a ?b] =>
        let H := fresh "Hc" in
        destruct (Pos.compare_spec a b) as [H|H|H];
        [ apply (f_equal Zpos) in H
        | apply Pos2Z.pos_lt_pos in H
        | apply Pos2Z.pos_lt_pos in H ]
    end;
  cbn [Pos.switch_Eq CompOpp].

Lemma pack_mono (q1 q2 E : Z) :
  0 <= q1 <= q2 -> q2 <= 9007199254740992 ->
  SFleb (pack q1 E) (pack q2 E) = true.
Proof.
  intros [H1 H12] H2. unfold pack.
  change (emax - prec) with 971.
  destruct q1 as [|p1|p1]; destruct q2 as [|p2|p2]; try lia;
    repeat match goal with
      | |- context [Z.eqb ?a ?b] => destruct (Z.eqb_spec a b)
      | |- context [Z.leb ?a ?b] => destruct (Z.leb_spec a b)
      end;
    try reflexivity; try lia;
    unfold SFleb, SFcompare; split_compare; try reflexivity; try lia.
Qed.

Ltac split_tests :=
  repeat match goal with
    | |- context [Z.eqb ?a ?b] => destruct (Z.eqb_spec a b)
    | |- context [Z.leb ?a ?b] => destruct (Z.leb_spec a b)
    end.

Ltac drop_neq :=
  repeat match goal with H : _ <> _ |- _ => clear H end.

Lemma pack_mono_exp (q1 q2 E1 E2 : Z) :
  E1 < E2 -> 0 <= q1 <= 9007199254740992 ->
  4503599627370496 <= q2 <= 9007199254740992 ->
  SFleb (pack q1 E1) (pack q2 E2) = true.
Proof.
  intros HE [H1 H1'] [H2 H2']. unfold pack.
  change (emax - prec) with 971.
  destruct q1 as [|p1|p1]; destruct q2 as [|p2|p2]; try lia;
    split_tests; try reflexivity; try lia;
    unfold SFleb, SFcompare; split_compare; try reflexivity; lia.
Qed.

Lemma fexp_mono (k1 k2 : Z) : k1 <= k2 -> fexp prec emax k1 <= fexp prec emax k2.
Proof. rewrite !fexp_eq. lia. Qed.

(** Rounding is monotone: core statement, two mantissas at one exponent. *)
Lemma round64_mono (m1 m2 : positive) (e : Z) :
  (m1 <= m2)%positive ->
  e <= fexp prec emax (digits m1 + e) ->
  SFleb (round64 m1 e) (round64 m2 e) = true.
Proof.
  intros Hm Ha. rewrite !round64_pack.
  pose proof (digits_le m1 m2 Hm) as Hd.
  pose proof (fexp_mono (digits m1 + e) (digits m2 + e) ltac:(lia)) as HE.
  assert (Ha2 : e <= fexp prec emax (digits m2 + e)) by lia.
  pose proof (rne_mantissa_upper m1 e Ha) as Hq1.
  pose proof (rne_mantissa_upper m2 e Ha2) as Hq2.
  pose proof (fexp_eq (digits m1 + e)) as F1.
  pose proof (fexp_eq (digits m2 + e)) as F2.
  set (E1 := fexp prec emax (digits m1 + e)) in *.
  set (E2 := fexp prec emax (digits m2 + e)) in *.
  destruct (Z.eq_dec E1 E2) as [Heq|Hne].
  - rewrite <- Heq in *. apply pack_mono; [|lia].
    split; [lia|]. apply rne_mono; lia.
  - apply pack_mono_exp; [lia|lia|]. split; [|lia].
    assert (HE2 : E2 = digits m2 + e - 53) by lia.
    pose proof (rne_bounds (Zpos m2) (E2 - e) ltac:(lia) ltac:(lia)) as [Hlo _].
    eapply Z.le_trans; [|exact Hlo].
    change 4503599627370496 with (2 ^ 52).
    apply Z.div_le_lower_bound; [apply Z.pow_pos_nonneg; lia|].
    pose proof (digits_bounds m2) as [Dlo _].
    eapply Z.le_trans; [|exact Dlo].
    rewrite <- Z.pow_add_r by lia.
    apply Z.pow_le_mono_r; lia.
Qed.

(** ** Canonical mantissas *)

Lemma bounded_spec (m : positive) (e : Z) :
  bounded prec emax m e = true <->
  fexp prec emax (digits m + e) = e /\ e <= 971.
Proof.
  unfold bounded, canonical_mantissa. fold (digits m).
  change (emax - prec) with 971.
  rewrite andb_true_iff, Z.eqb_eq, Z.leb_le. reflexivity.
Qed.

Lemma bounded_digits (m : positive) (e : Z) :
  bounded prec emax m e = true ->
  -1074 <= e <= 971 /\ digits m <= 53 /\ (e = -1074 \/ digits m = 53).
Proof.
  intros H. apply bounded_spec in H as [H1 H2]. rewrite fexp_eq in H1. lia.
Qed.

Lemma digits_53_lower (m : positive) :
  digits m = 53 -> 4503599627370496 <= Zpos m.
Proof.
  intros H. pose proof (digits_bounds m) as [Hlo _]. rewrite H in Hlo.
  exact Hlo.
Qed.

Lemma digits_le_53_upper (m : positive) :
  digits m <= 53 -> Zpos m < 9007199254740992.
Proof.
  intros H. pose proof (digits_bounds m) as [_ Hhi].
  eapply Z.lt_le_trans; [exact Hhi|].
  change 9007199254740992 with (2 ^ 53). apply Z.pow_le_mono_r; lia.
Qed.

(** Rounding a binary64 value gives the value itself. *)
Lemma round64_canonical (m : positive) (e : Z) :
  bounded prec emax m e = true -> round64 m e = S754_finite false m e.
Proof.
  intros H. pose proof (bounded_digits m e H) as (He & Hd & _).
  apply bounded_spec in H as [HE _].
  unfold round64. rewrite HE, Z.sub_diag, rne_exact.
  pose proof (digits_le_53_upper m Hd).
  destruct (Z.eqb_spec (Zpos m) 9007199254740992); [lia|].
  change (emax - prec) with 971.
  destruct (Z.leb_spec e 971); [reflexivity|lia].
Qed.

Lemma digits_scale (m m' : positive) (j : Z) :
  0 <= j -> Zpos m' = Zpos m * 2 ^ j -> digits m' = digits m + j.
Proof.
  intros Hj H. apply digits_unique. rewrite H.
  pose proof (digits_bounds m) as [Hlo Hhi]. pose proof (digits_pos m).
  assert (Hp : 0 < 2 ^ j) by (apply Z.pow_pos_nonneg; lia).
  replace (digits m + j - 1) with ((digits m - 1) + j) by lia.
  rewrite !Z.pow_add_r by lia. nia.
Qed.

(** The same value with a finer mantissa rounds to the same float. *)
Lemma round64_scale (m m' : positive) (e j : Z) :
  0 <= j -> Zpos m' = Zpos m * 2 ^ j ->
  e <= fexp prec emax (digits m + e) ->
  round64 m' (e - j) = round64 m e.
Proof.
  intros Hj Hm Ha. unfold round64.
  rewrite (digits_scale m m' j Hj Hm).
  replace (digits m + j + (e - j)) with (digits m + e) by lia.
  set (E := fexp prec emax (digits m + e)) in *.
  replace (E - (e - j)) with ((E - e) + j) by lia.
  rewrite Hm, rne_scale by lia. reflexivity.
Qed.

Lemma scale_aligned (m m' : positive) (e j : Z) :
  0 <= j -> Zpos m' = Zpos m * 2 ^ j ->
  e <= fexp prec emax (digits m + e) ->
  e - j <= fexp prec emax (digits m' + (e - j)).
Proof.
  intros Hj Hm Ha. rewrite (digits_scale m m' j Hj Hm).
  replace (digits m + j + (e - j)) with (digits m + e) by lia. lia.
Qed.

(** Rounding is monotone in the value [m * 2^e]. *)
Lemma round64_le (m1 m2 : positive) (e1 e2 e0 : Z) :
  e0 <= e1 -> e0 <= e2 ->
  e1 <= fexp prec emax (digits m1 + e1) ->
  e2 <= fexp prec emax (digits m2 + e2) ->
  Zpos m1 * 2 ^ (e1 - e0) <= Zpos m2 * 2 ^ (e2 - e0) ->
  SFleb (round64 m1 e1) (round64 m2 e2) = true.
Proof.
  intros H1 H2 A1 A2 Hle.
  assert (P1 : 0 < 2 ^ (e1 - e0)) by (apply Z.pow_pos_nonneg; lia).
  assert (P2 : 0 < 2 ^ (e2 - e0)) by (apply Z.pow_pos_nonneg; lia).
  set (n1 := Z.to_pos (Zpos m1 * 2 ^ (e1 - e0))).
  set (n2 := Z.to_pos (Zpos m2 * 2 ^ (e2 - e0))).
  assert (N1 : Zpos n1 = Zpos m1 * 2 ^ (e1 - e0)) by (subst n1; rewrite Z2Pos.id; nia).
  assert (N2 : Zpos n2 = Zpos m2 * 2 ^ (e2 - e0)) by (subst n2; rewrite Z2Pos.id; nia).
  rewrite <- (round64_scale m1 n1 e1 (e1 - e0)) by (assumption || lia).
  rewrite <- (round64_scale m2 n2 e2 (e2 - e0)) by (assumption || lia).
  replace (e1 - (e1 - e0)) with e0 by lia.
  replace (e2 - (e2 - e0)) with e0 by lia.
  apply round64_mono.
  - apply Pos2Z.pos_le_pos. lia.
  - pose proof (scale_aligned m1 n1 e1 (e1 - e0) ltac:(lia) N1 A1) as H.
    now replace (e1 - (e1 - e0)) with e0 in H by lia.
Qed.

(** On binary64 values the order of the floats is the order of the
    values. *)
Lemma canonical_leb_value (m1 m2 : positive) (e1 e2 e0 : Z) :
  bounded prec emax m1 e1 = true -> bounded prec emax m2 e2 = true ->
  e0 <= e1 -> e0 <= e2 ->
  SFleb (S754_finite false m1 e1) (S754_finite false m2 e2) = true ->
  Zpos m1 * 2 ^ (e1 - e0) <= Zpos m2 * 2 ^ (e2 - e0).
Proof.
  intros B1 B2 H1 H2 Hle.
  apply bounded_digits in B1 as (He1 & Hd1 & Hn1).
  apply bounded_digits in B2 as (He2 & Hd2 & Hn2).
  pose proof (digits_le_53_upper m1 Hd1) as U1.
  assert (P1 : 0 < 2 ^ (e1 - e0)) by (apply Z.pow_pos_nonneg; lia).
  unfold SFleb, SFcompare in Hle. revert Hle. split_compare; intros Hle;
    try discriminate.
  - subst e2. nia.
  - subst e2. nia.
  - assert (Hd : digits m2 = 53) by lia.
    pose proof (digits_53_lower m2 Hd) as L2.
    replace (e2 - e0) with ((e2 - e1 - 1) + 1 + (e1 - e0)) by lia.
    rewrite !Z.pow_add_r by lia.
    assert (P3 : 0 < 2 ^ (e2 - e1 - 1)) by (apply Z.pow_pos_nonneg; lia).
    change (2 ^ 1) with 2.
    set (a := 2 ^ (e1 - e0)) in *. set (b := 2 ^ (e2 - e1 - 1)) in *.
    assert (S1 : Zpos m1 * a <= 9007199254740992 * a)
      by (apply Z.mul_le_mono_nonneg_r; lia).
    assert (S2 : 9007199254740992 * a <= Zpos m2 * 2 * a)
      by (apply Z.mul_le_mono_nonneg_r; lia).
    assert (S3 : Zpos m2 * 2 * a * 1 <= Zpos m2 * 2 * a * b)
      by (apply Z.mul_le_mono_nonneg_l; lia).
    replace (Zpos m2 * (b * 2 * a)) with (Zpos m2 * 2 * a * b) by ring.
    lia.
Qed.

(** ** Addition of non-negative binary64 values *)

Lemma iter_xO (m d : positive) : Zpos (Pos.iter xO m d) = Zpos m * 2 ^ Zpos d.
Proof.
  induction d as [|d IH] using Pos.peano_ind.
  - cbn [Pos.iter]. rewrite Pos2Z.inj_xO. change (2 ^ 1) with 2. lia.
  - rewrite Pos.iter_succ, Pos2Z.inj_xO, IH, Pos2Z.inj_succ, Z.pow_succ_r by lia.
    lia.
Qed.

Lemma shl_align_spec (mx : positive) (ex ex' : Z) :
  ex' <= ex ->
  exists m', shl_align mx ex ex' = (m', ex')
             /\ Zpos m' = Zpos mx * 2 ^ (ex - ex').
Proof.
  intros H. unfold shl_align. destruct (ex' - ex) as [|d|d] eqn:Hd; [|lia|].
  - exists mx. replace ex' with ex by lia. rewrite Z.sub_diag. split; [reflexivity|lia].
  - exists (Pos.iter xO mx d). split; [reflexivity|].
    rewrite iter_xO. f_equal. f_equal. lia.
Qed.

Lemma shl_align_id (mx : positive) (ex ex' : Z) :
  ex <= ex' -> shl_align mx ex ex' = (mx, ex).
Proof.
  intros H. unfold shl_align. destruct (ex' - ex) as [|d|d] eqn:Hd; try reflexivity.
  lia.
Qed.

Lemma binary_round_round64 (m : positive) (e : Z) :
  e <= fexp prec emax (digits m + e) ->
  binary_round prec emax false m e = round64 m e.
Proof.
  intros Ha. unfold binary_round. fold (digits m).
  rewrite shl_align_id by assumption. now apply binary_round_aux_round64.
Qed.

Lemma SFadd_finite (mx my : positive) (ex ey : Z) :
  bounded prec emax mx ex = true -> bounded prec emax my ey = true ->
  exists M,
    Zpos M = Zpos mx * 2 ^ (ex - Z.min ex ey) + Zpos my * 2 ^ (ey - Z.min ex ey)
    /\ Z.min ex ey <= fexp prec emax (digits M + Z.min ex ey)
    /\ SFadd prec emax (S754_finite false mx ex) (S754_finite false my ey)
       = round64 M (Z.min ex ey).
Proof.
  intros Bx By. apply bounded_spec in Bx as [Cx _]. apply bounded_spec in By as [Cy _].
  unfold SFadd. set (ez := Z.min ex ey).
  destruct (shl_align_spec mx ex ez ltac:(lia)) as (a & Ha & Va).
  destruct (shl_align_spec my ey ez ltac:(lia)) as (b & Hb & Vb).
  rewrite Ha, Hb. cbn [fst cond_Zopp Z.add binary_normalize].
  exists (a + b)%positive.
  assert (Hal : ez <= fexp prec emax (digits (a + b) + ez)).
  { destruct (Z.le_ge_cases ex ey) as [Hle|Hle].
    - assert (ez = ex) by lia. assert (a = mx).
      { apply Pos2Z.inj. rewrite Va. replace (ex - ez) with 0 by lia. cbn. lia. }
      subst a. replace ez with ex by lia.
      pose proof (digits_le mx (mx + b) ltac:(lia)).
      pose proof (fexp_mono (digits mx + ex) (digits (mx + b) + ex) ltac:(lia)).
      lia.
    - assert (ez = ey) by lia. assert (b = my).
      { apply Pos2Z.inj. rewrite Vb. replace (ey - ez) with 0 by lia. cbn. lia. }
      subst b. replace ez with ey by lia.
      pose proof (digits_le my (a + my) ltac:(lia)).
      pose proof (fexp_mono (digits my + ey) (digits (a + my) + ey) ltac:(lia)).
      lia. }
  split; [rewrite Pos2Z.inj_add; lia|]. split; [exact Hal|].
  now apply binary_round_round64.
Qed.

Lemma nonneg_leb (x : spec_float) : SFleb (S754_zero false) x = nonneg x.
Proof. destruct x as [s|s| |s m e]; try destruct s; reflexivity. Qed.

Lemma pack_nonneg (q E : Z) : nonneg (pack q E) = true.
Proof.
  unfold pack. destruct q; try reflexivity.
  destruct (_ =? _); destruct (_ <=? _); reflexivity.
Qed.

Lemma round64_nonneg (m : positive) (e : Z) : nonneg (round64 m e) = true.
Proof. rewrite round64_pack. apply pack_nonneg. Qed.

Lemma SFleb_refl (x : spec_float) : nonneg x = true -> SFleb x x = true.
Proof.
  destruct x as [s|s| |s m e]; try destruct s; try discriminate; try reflexivity.
  intros _. unfold SFleb, SFcompare.
  rewrite Z.compare_refl, Pos.compare_cont_spec, Pos.compare_refl. reflexivity.
Qed.

Lemma nonneg_le_inf (x : spec_float) :
  nonneg x = true -> SFleb x (S754_infinity false) = true.
Proof. destruct x as [s|s| |s m e]; try destruct s; try discriminate; reflexivity. Qed.

(** [x <= x + d] for non-negative [x] and [d]. *)
Lemma SFadd_nonneg_le (x d : spec_float) :
  valid_binary x = true -> valid_binary d = true ->
  nonneg x = true -> nonneg d = true ->
  SFleb x (SFadd prec emax x d) = true
  /\ nonneg (SFadd prec emax x d) = true.
Proof.
  intros Vx Vd Nx Nd.
  destruct x as [sx|sx| |sx mx ex]; try discriminate;
    destruct d as [sd|sd| |sd md ed]; try discriminate;
    try (destruct sx; try discriminate); try (destruct sd; try discriminate);
    try (split; reflexivity);
    try (split; [apply SFleb_refl; reflexivity | reflexivity]).
  cbn [valid_binary] in Vx, Vd.
  destruct (SFadd_finite mx md ex ed Vx Vd) as (M & HM & Hal & ->).
  split; [|apply round64_nonneg].
  rewrite <- (round64_canonical mx ex Vx).
  apply bounded_spec in Vx as [Cx _].
  apply (round64_le mx M ex (Z.min ex ed) (Z.min ex ed)); try lia.
  rewrite Z.sub_diag, Z.mul_1_r, HM.
  assert (0 < 2 ^ (ed - Z.min ex ed)) by (apply Z.pow_pos_nonneg; lia).
  nia.
Qed.

(** Addition is monotone in its second argument. *)
Lemma SFadd_mono_r (x c d : spec_float) :
  valid_binary x = true -> valid_binary c = true -> valid_binary d = true ->
  nonneg x = true -> nonneg c = true -> SFleb c d = true ->
  SFleb (SFadd prec emax x c) (SFadd prec emax x d) = true.
Proof.
  intros Vx Vc Vd Nx Nc Hcd.
  assert (Nd : nonneg d = true).
  { destruct c as [sc|sc| |sc mc ec]; try discriminate;
      destruct d as [sd|sd| |sd md ed]; try destruct sc; try destruct sd;
      try discriminate; reflexivity. }
  destruct (SFadd_nonneg_le x d Vx Vd Nx Nd) as [Hxd Hnd].
  destruct (SFadd_nonneg_le x c Vx Vc Nx Nc) as [Hxc Hnc].
  destruct c as [sc|sc| |sc mc ec]; try discriminate.
  - (* c is a zero *)
    destruct x as [sx|sx| |sx mx ex]; try discriminate.
    + destruct d as [sd|sd| |sd md ed]; try discriminate;
        destruct sx, sc; try destruct sd; try discriminate; reflexivity.
    + destruct sx; [discriminate|].
      destruct d as [sd|sd| |sd md ed]; try destruct sd; try discriminate; reflexivity.
    + destruct sx; [discriminate|]. exact Hxd.
  - (* c is +inf *)
    destruct sc; [discriminate|].
    destruct d as [sd|sd| |sd md ed]; try destruct sd; try discriminate.
    now apply SFleb_refl.
  - (* c is finite *)
    destruct sc; [discriminate|].
    destruct d as [sd|sd| |sd md ed]; try destruct sd; try discriminate.
    + (* d is +inf *)
      destruct x as [sx|sx| |sx mx ex]; try destruct sx; try discriminate;
        try reflexivity.
      change (SFadd prec emax (S754_finite false mx ex) (S754_infinity false))
        with (S754_infinity false).
      now apply nonneg_le_inf.
    + (* d is finite *)
      destruct x as [sx|sx| |sx mx ex]; try discriminate.
      * exact Hcd.
      * destruct sx; [discriminate|]. reflexivity.
      * destruct sx; [discriminate|].
        cbn [valid_binary] in Vx, Vc, Vd.
        destruct (SFadd_finite mx mc ex ec Vx Vc) as (M1 & HM1 & A1 & ->).
        destruct (SFadd_finite mx md ex ed Vx Vd) as (M2 & HM2 & A2 & ->).
        set (e0 := Z.min ex (Z.min ec ed)).
        pose proof (canonical_leb_value mc md ec ed e0 Vc Vd ltac:(lia) ltac:(lia) Hcd)
          as Hv.
        apply (round64_le M1 M2 _ _ e0); try lia.
        rewrite HM1, HM2, !Z.mul_add_distr_r, <- !Z.mul_assoc, <- !Z.pow_add_r by lia.
        replace (ex - Z.min ex ec + (Z.min ex ec - e0)) with (ex - e0) by lia.
        replace (ec - Z.min ex ec + (Z.min ex ec - e0)) with (ec - e0) by lia.
        replace (ex - Z.min ex ed + (Z.min ex ed - e0)) with (ex - e0) by lia.
        replace (ed - Z.min ex ed + (Z.min ex ed - e0)) with (ed - e0) by lia.
        lia.
Qed.

Lemma SFleb_trans (a b c : spec_float) :
  SFleb a b = true -> SFleb b c = true -> SFleb a c = true.
Proof.
  destruct a as [sa|sa| |sa ma ea]; destruct b as [sb|sb| |sb mb eb];
    destruct c as [sc|sc| |sc mc ec];
    try destruct sa; try destruct sb; try destruct sc;
    try discriminate; try reflexivity;
    unfold SFleb, SFcompare; split_compare;
    try discriminate; try reflexivity; intros; lia.
Qed.

(** ** The same facts on primitive floats *)

Lemma float_nonneg_spec (x : float) :
  (0 <=? x)%float = nonneg (Prim2SF x).
Proof. rewrite leb_spec. apply nonneg_leb. Qed.

Lemma float_leb_trans (a b c : float) :
  (a <=? b)%float = true -> (b <=? c)%float = true -> (a <=? c)%float = true.
Proof. rewrite !leb_spec. apply SFleb_trans. Qed.

Lemma float_leb_refl (x : float) :
  (0 <=? x)%float = true -> (x <=? x)%float = true.
Proof. rewrite float_nonneg_spec, leb_spec. apply SFleb_refl. Qed.

Lemma float_add_nonneg (x d : float) :
  (0 <=? x)%float = true -> (0 <=? d)%float = true ->
  (x <=? x + d)%float = true /\ (0 <=? x + d)%float = true.
Proof.
  rewrite !float_nonneg_spec, leb_spec, add_spec. intros Hx Hd.
  apply SFadd_nonneg_le; auto using Prim2SF_valid.
Qed.

Lemma float_add_mono_r (x c d : float) :
  (0 <=? x)%float = true -> (0 <=? c)%float = true -> (c <=? d)%float = true ->
  (x + c <=? x + d)%float = true.
Proof.
  rewrite !float_nonneg_spec, !leb_spec, !add_spec. intros Hx Hc Hcd.
  apply SFadd_mono_r; auto using Prim2SF_valid.
Qed.

(** ** Rounded values are binary64 values *)

Lemma round64_valid (m : positive) (e : Z) :
  e <= fexp prec emax (digits m + e) ->
  valid_binary (round64 m e) = true.
Proof.
  intros Ha. pose proof (rne_mantissa_upper m e Ha) as Hq.
  pose proof (fexp_eq (digits m + e)) as HE.
  unfold round64.
  set (E := fexp prec emax (digits m + e)) in *.
  destruct (rne (Zpos m) (E - e)) as [|p|p] eqn:Hr; try reflexivity.
  change (emax - prec) with 971.
  destruct (Z.eqb_spec (Zpos p) 9007199254740992) as [H53|H53].
  - destruct (Z.leb_spec (E + 1) 971); [|reflexivity].
    cbn [valid_binary]. apply bounded_spec.
    change (digits 4503599627370496) with 53. rewrite fexp_eq. lia.
  - destruct (Z.leb_spec E 971); [|reflexivity].
    cbn [valid_binary]. apply bounded_spec. split; [|assumption].
    rewrite fexp_eq.
    assert (Hd : digits p <= 53).
    { destruct (Z.leb_spec (digits p) 53); [assumption|].
      pose proof (digits_bounds p) as [Dlo _].
      assert (2 ^ 53 <= 2 ^ (digits p - 1)) by (apply Z.pow_le_mono_r; lia).
      change (2 ^ 53) with 9007199254740992 in *. lia. }
    destruct (Z.eq_dec E (-1074)) as [Hmin|Hmin]; [lia|].
    assert (HE2 : E = digits m + e - 53) by lia.
    assert (Hlow : 4503599627370496 <= Zpos p).
    { rewrite <- Hr.
      pose proof (rne_bounds (Zpos m) (E - e) ltac:(lia) ltac:(lia)) as [Hlo _].
      eapply Z.le_trans; [|exact Hlo].
      change 4503599627370496 with (2 ^ 52).
      apply Z.div_le_lower_bound; [apply Z.pow_pos_nonneg; lia|].
      pose proof (digits_bounds m) as [Dlo _].
      eapply Z.le_trans; [|exact Dlo].
      rewrite <- Z.pow_add_r by lia.
      apply Z.pow_le_mono_r; lia. }
    assert (digits p = 53).
    { apply digits_unique. change (2 ^ (53 - 1)) with 4503599627370496.
      change (2 ^ 53) with 9007199254740992. lia. }
    lia.
Qed.

(** An exactly representable value [p * 2^e] is kept by [binary_round]. *)
Lemma binary_round_exact (p : positive) (e : Z) :
  -1074 <= e -> digits p <= 53 ->
  exists m' E,
    binary_round prec emax false p e = round64 m' E
    /\ E <= e /\ E <= fexp prec emax (digits m' + E)
    /\ Zpos m' = Zpos p * 2 ^ (e - E).
Proof.
  intros He Hd. unfold binary_round. fold (digits p).
  pose proof (fexp_eq (digits p + e)) as HE.
  set (E := fexp prec emax (digits p + e)) in *.
  destruct (shl_align_spec p e E ltac:(lia)) as (m' & Hs & Hm').
  rewrite Hs. exists m', E.
  assert (Hdm : digits m' + E = digits p + e)
    by (rewrite (digits_scale p m' (e - E)); lia).
  assert (Hal : E <= fexp prec emax (digits m' + E))
    by (rewrite Hdm; fold E; lia).
  split; [now apply binary_round_aux_round64|].
  repeat split; try assumption; lia.
Qed.

(** ** Truncation and the fractional part *)

Lemma finite_nonneg_cases (x : float) :
  (0 <=? x)%float = true -> (x <? infinity)%float = true ->
  Prim2SF x = S754_zero false \/ Prim2SF x = S754_zero true
  \/ exists m e, Prim2SF x = S754_finite false m e
                 /\ bounded prec emax m e = true.
Proof.
  rewrite float_nonneg_spec, ltb_spec.
  pose proof (Prim2SF_valid x) as Hv.
  change (Prim2SF infinity) with (S754_infinity false).
  destruct (Prim2SF x) as [s|s| |s m e]; try discriminate.
  - destruct s; auto.
  - destruct s; discriminate.
  - destruct s; [discriminate|]. intros _ _. right; right. now exists m, e.
Qed.

Lemma shiftl_as_div (m e e0 : Z) :
  0 <= m -> e0 <= e -> e0 <= 0 ->
  Z.shiftl m e = (m * 2 ^ (e - e0)) / 2 ^ (- e0).
Proof.
  intros Hm He H0.
  assert (P0 : 0 < 2 ^ (- e0)) by (apply Z.pow_pos_nonneg; lia).
  destruct (Z.le_gt_cases 0 e) as [Hpos|Hneg].
  - rewrite Z.shiftl_mul_pow2 by assumption.
    replace (e - e0) with (e + - e0) by lia.
    rewrite Z.pow_add_r, Z.mul_assoc, Z.div_mul by lia. reflexivity.
  - replace e with (- (- e)) at 1 by lia.
    rewrite Z.shiftl_opp_r, Z.shiftr_div_pow2 by lia.
    replace (- e0) with ((- e) + (e - e0)) by lia.
    rewrite Z.pow_add_r by lia.
    rewrite Z.div_mul_cancel_r; [reflexivity| |];
      apply Z.neq_sym, Z.lt_neq, Z.pow_pos_nonneg; lia.
Qed.

(** Truncation is monotone on non-negative binary64 values. *)
Lemma trunc_mono (m1 m2 : positive) (e1 e2 : Z) :
  bounded prec emax m1 e1 = true -> bounded prec emax m2 e2 = true ->
  SFleb (S754_finite false m1 e1) (S754_finite false m2 e2) = true ->
  0 <= Z.shiftl (Zpos m1) e1 <= Z.shiftl (Zpos m2) e2.
Proof.
  intros B1 B2 Hle.
  set (e0 := Z.min 0 (Z.min e1 e2)).
  pose proof (canonical_leb_value m1 m2 e1 e2 e0 B1 B2 ltac:(lia) ltac:(lia) Hle)
    as Hv.
  rewrite (shiftl_as_div (Zpos m1) e1 e0), (shiftl_as_div (Zpos m2) e2 e0) by lia.
  assert (P0 : 0 < 2 ^ (- e0)) by (apply Z.pow_pos_nonneg; lia).
  assert (P1 : 0 < 2 ^ (e1 - e0)) by (apply Z.pow_pos_nonneg; lia).
  split.
  - apply Z.div_pos; nia.
  - apply Z.div_le_mono; assumption.
Qed.

Lemma SFmul_thousand (m : positive) (e : Z) :
  bounded prec emax m e = true ->
  SFmul prec emax (S754_finite false m e) thousand
  = round64 (m * 8796093022208000) (e + -43)
  /\ e + -43 <= fexp prec emax (digits (m * 8796093022208000) + (e + -43)).
Proof.
  intros B. apply bounded_digits in B as (He & Hd & Hn).
  assert (Hal : e + -43 <= fexp prec emax (digits (m * 8796093022208000) + (e + -43))).
  { pose proof (digits_le 8796093022208000 (m * 8796093022208000) ltac:(nia)) as H.
    change (digits 8796093022208000) with 53 in H. rewrite fexp_eq. lia. }
  split; [|exact Hal].
  unfold SFmul, thousand. cbn [xorb]. now apply binary_round_aux_round64.
Qed.

Lemma SFmul_thousand_mono (m1 m2 : positive) (e1 e2 : Z) :
  bounded prec emax m1 e1 = true -> bounded prec emax m2 e2 = true ->
  SFleb (S754_finite false m1 e1) (S754_finite false m2 e2) = true ->
  SFleb (SFmul prec emax (S754_finite false m1 e1) thousand)
        (SFmul prec emax (S754_finite false m2 e2) thousand) = true.
Proof.
  intros B1 B2 Hle.
  destruct (SFmul_thousand m1 e1 B1) as [-> A1].
  destruct (SFmul_thousand m2 e2 B2) as [-> A2].
  set (e0 := Z.min e1 e2).
  pose proof (canonical_leb_value m1 m2 e1 e2 e0 B1 B2 ltac:(lia) ltac:(lia) Hle)
    as Hv.
  apply (round64_le _ _ _ _ (e0 + -43)); try lia.
  replace (e1 + -43 - (e0 + -43)) with (e1 - e0) by lia.
  replace (e2 + -43 - (e0 + -43)) with (e2 - e0) by lia.
  rewrite !Pos2Z.inj_mul. nia.
Qed.

Lemma below_one_times_thousand :
  SFmul prec emax below_one thousand = below_thousand.
Proof. vm_compute. reflexivity. Qed.

Lemma float_thousand : Prim2SF 1000 = thousand.
Proof. vm_compute. reflexivity. Qed.

(** The fractional part of a finite non-negative float lies in [0, 1). *)
Lemma frac_below_one (x : float) (m : positive) (e : Z) :
  Prim2SF x = S754_finite false m e ->
  bounded prec emax m e = true ->
  nonneg (Prim2SF (float_mod1 x)) = true
  /\ SFleb (Prim2SF (float_mod1 x)) below_one = true.
Proof.
  intros Hx B. pose proof (bounded_digits m e B) as (He & Hd & _).
  unfold float_mod1, fmod1. rewrite Hx.
  destruct (Z.leb_spec 0 e) as [Hpos|Hneg]; [split; reflexivity|].
  cbn [cond_Zopp].
  assert (P : 0 < 2 ^ (- e)) by (apply Z.pow_pos_nonneg; lia).
  pose proof (Z.mod_pos_bound (Zpos m) (2 ^ (- e)) P) as [Hr0 Hr1].
  assert (Hrm : Zpos m mod 2 ^ (- e) <= Zpos m) by (apply Z.mod_le; lia).
  destruct (Zpos m mod 2 ^ (- e)) as [|p|p] eqn:Hr; [split; reflexivity| |lia].
  cbn [binary_normalize].
  assert (Hdp : digits p <= 53)
    by (pose proof (digits_le p m ltac:(lia)); lia).
  destruct (binary_round_exact p e ltac:(lia) Hdp) as (m' & E & -> & HEe & Hal & Hm').
  pose proof (round64_valid m' E Hal) as Hv.
  pose proof (round64_nonneg m' E) as Hn.
  assert (Hle : SFleb (round64 m' E) below_one = true).
  { unfold below_one.
    rewrite <- (round64_canonical 9007199254740991 (-53) eq_refl).
    set (e0 := Z.min E (-53)).
    apply (round64_le _ _ _ _ e0); try lia; [reflexivity|].
    rewrite Hm', <- Z.mul_assoc, <- Z.pow_add_r by lia.
    replace (e - E + (E - e0)) with (e - e0) by lia.
    pose proof (digits_le_53_upper p Hdp) as Hp53.
    assert (Q0 : 0 < 2 ^ (e - e0)) by (apply Z.pow_pos_nonneg; lia).
    destruct (Z.le_gt_cases (-53) e) as [Hbig|Hsmall].
    - (* p < 2^-e *)
      assert (S1 : Zpos p * 2 ^ (e - e0) <= (2 ^ (- e) - 1) * 2 ^ (e - e0))
        by (apply Z.mul_le_mono_nonneg_r; lia).
      assert (S2 : 2 ^ (- e) * 2 ^ (e - e0) = 2 ^ (- e0))
        by (rewrite <- Z.pow_add_r by lia; f_equal; lia).
      assert (S3 : 2 ^ (-53 - e0) <= 2 ^ (e - e0))
        by (apply Z.pow_le_mono_r; lia).
      assert (S4 : 9007199254740992 * 2 ^ (-53 - e0) = 2 ^ (- e0)).
      { change 9007199254740992 with (2 ^ 53).
        rewrite <- Z.pow_add_r by lia. f_equal. lia. }
      lia.
    - assert (S1 : Zpos p * 2 ^ (e - e0) <= 9007199254740991 * 2 ^ (e - e0))
        by (apply Z.mul_le_mono_nonneg_r; lia).
      assert (S3 : 2 ^ (e - e0) <= 2 ^ (-53 - e0))
        by (apply Z.pow_le_mono_r; lia).
      assert (S5 : 9007199254740991 * 2 ^ (e - e0)
                   <= 9007199254740991 * 2 ^ (-53 - e0))
        by (apply Z.mul_le_mono_nonneg_l; lia).
      lia. }
  rewrite eqb_spec, ltb_spec, (Prim2SF_SF2Prim _ Hv).
  change (Prim2SF 0) with (S754_zero false).
  destruct (round64 m' E) as [s|s| |s m2 e2] eqn:Hy; try discriminate;
    try destruct s; try discriminate; try (split; reflexivity).
  cbn [SFeqb SFltb SFcompare negb].
  rewrite (Prim2SF_SF2Prim _ Hv). split; [reflexivity|exact Hle].
Qed.

Lemma mod1_of_zero (x : float) (s : bool) :
  Prim2SF x = S754_zero s -> float_mod1 x = zero.
Proof.
  intros H. unfold float_mod1, fmod1. rewrite H. now destruct s.
Qed.

(** The milliseconds of a finite non-negative timestamp are defined and
    at most 999. *)
Lemma millis_range (x : float) :
  (0 <=? x)%float = true -> (x <? infinity)%float = true ->
  exists ms, int_of_float (float_mod1 x * 1000) = Ok ms /\ 0 <= ms <= 999.
Proof.
  intros H0 Hfin.
  destruct (finite_nonneg_cases x H0 Hfin) as [Hz|[Hz|(m & e & Hx & B)]];
    try (rewrite (mod1_of_zero x _ Hz); exists 0; split; [reflexivity|lia]).
  destruct (frac_below_one x m e Hx B) as [Hn Hle].
  pose proof (Prim2SF_valid (float_mod1 x)) as Hv.
  unfold int_of_float. rewrite mul_spec, float_thousand.
  destruct (Prim2SF (float_mod1 x)) as [s|s| |s mf ef]; try discriminate.
  - exists 0. split; [reflexivity|lia].
  - destruct s; discriminate.
  - destruct s; [discriminate|]. cbn [valid_binary] in Hv.
    pose proof (SFmul_thousand_mono mf 9007199254740991 ef (-53) Hv eq_refl Hle)
      as Hm.
    fold below_one in Hm. rewrite below_one_times_thousand in Hm.
    destruct (SFmul_thousand mf ef Hv) as [Heq Hal].
    unfold SF64mul. rewrite Heq in *.
    pose proof (round64_valid _ _ Hal) as Hvr.
    pose proof (round64_nonneg (mf * 8796093022208000) (ef + -43)) as Hnr.
    destruct (round64 (mf * 8796093022208000) (ef + -43)) as [s|s| |s mr er];
      try discriminate.
    + exists 0. split; [reflexivity|lia].
    + destruct s; discriminate.
    + destruct s; [discriminate|]. cbn [valid_binary] in Hvr.
      exists (Z.shiftl (Zpos mr) er). split; [reflexivity|].
      pose proof (trunc_mono mr 8796093022207999 er (-43) Hvr eq_refl Hm) as Ht.
      change (Z.shiftl 8796093022207999 (-43)) with 999 in Ht. exact Ht.
Qed.

(** The whole seconds of a finite non-negative timestamp. *)
Lemma seconds_defined (x : float) :
  (0 <=? x)%float = true -> (x <? infinity)%float = true ->
  exists T, int_of_float x = Ok T /\ 0 <= T.
Proof.
  intros H0 Hfin. unfold int_of_float.
  destruct (finite_nonneg_cases x H0 Hfin) as [Hz|[Hz|(m & e & Hx & B)]];
    rewrite ?Hz, ?Hx; try (exists 0; split; [reflexivity|lia]).
  exists (Z.shiftl (Zpos m) e). split; [reflexivity|].
  apply Z.shiftl_nonneg. lia.
Qed.

(* ================================================================== *)
(** * Lemmas on the effect monad *)
(* ================================================================== *)

Lemma bind_ret_l {A B : Type} (a : A) (k : A -> M B) :
  (x <- ret a ;; k x) = k a.
Proof. unfold bind, ret. destruct (k a). reflexivity. Qed.

Lemma bind_emit {B : Type} (e : event) (k : M B) :
  (emit e ;; k) = (e :: fst k, snd k).
Proof. unfold bind, emit. destruct k. reflexivity. Qed.

Lemma bind_lift_ok {A B : Type} (a : A) (k : A -> M B) :
  (x <- lift (Ok a) ;; k x) = k a.
Proof. unfold bind, lift. destruct (k a). reflexivity. Qed.

Lemma bind_lift_raise {A B : Type} (e : exn) (k : A -> M B) :
  (x <- lift (Raise e) ;; k x) = ([], Raise e).
Proof. reflexivity. Qed.

Lemma trace_bind_app {A B : Type} (m : M A) (k : A -> M B) :
  exists t', trace_of (x <- m ;; k x) = (trace_of m ++ t')%list.
Proof.
  destruct m as [t [a|e]]; unfold bind, trace_of; simpl.
  - destruct (k a) as [t' r]. exists t'. reflexivity.
  - exists []. now rewrite app_nil_r.
Qed.

Lemma bind_ok {A B : Type} (m : M A) (k : A -> M B) (t : list event) (a : A) :
  m = (t, Ok a) ->
  (x <- m ;; k x) = ((t ++ fst (k a))%list, snd (k a)).
Proof. intros ->. unfold bind. destruct (k a). reflexivity. Qed.

Lemma bind_raise {A B : Type} (m : M A) (k : A -> M B) (t : list event) (e : exn) :
  m = (t, Raise e) ->
  (x <- m ;; k x) = (t, Raise e).
Proof. intros ->. reflexivity. Qed.

(* ================================================================== *)
(** * The loop body, case by case *)
(* ================================================================== *)

Lemma write_cues_spec (vtt_path : string) (offset : float) (segs : list segment) :
  OneFile.write_cues vtt_path offset segs =
  match cue_lines offset segs with
  | Ok lines => (map (EvWrite vtt_path) lines, Ok tt)
  | Raise e =>
      (fst (OneFile.write_cues vtt_path offset segs), Raise e)
  end.
Proof.
  induction segs as [|s rest IH]; cbn [OneFile.write_cues cue_lines];
    [reflexivity|].
  unfold cue_line.
  destruct (format_time (offset + seg_start s)) as [start|e];
    [rewrite bind_lift_ok | reflexivity].
  destruct (format_time (offset + seg_end s)) as [end_|e];
    [rewrite bind_lift_ok, bind_emit | reflexivity].
  rewrite IH.
  destruct (cue_lines offset rest) as [lines|e]; reflexivity.
Qed.

Lemma write_cues_only_writes (vtt_path : string) (offset : float) (segs : list segment) :
  forall e, In e (fst (OneFile.write_cues vtt_path offset segs)) ->
            exists d, e = EvWrite vtt_path d.
Proof.
  induction segs as [|s rest IH]; cbn [OneFile.write_cues]; intros e HIn;
    [contradiction|].
  destruct (format_time (offset + seg_start s)) as [start|x];
    [rewrite bind_lift_ok in HIn | contradiction].
  destruct (format_time (offset + seg_end s)) as [end_|x];
    [rewrite bind_lift_ok, bind_emit in HIn | contradiction].
  destruct HIn as [<-|HIn]; [eexists; reflexivity | now apply IH].
Qed.

Lemma is_valid_audio_eq (w : world) (audio_file : string) :
  is_valid_audio w audio_file = ([EvDecode audio_file], Ok (decodable w audio_file)).
Proof. reflexivity. Qed.

Lemma get_audio_duration_eq (w : world) (audio_file : string) :
  get_audio_duration w audio_file =
  ([EvProbe audio_file], Ok (probed_duration w audio_file)).
Proof. reflexivity. Qed.

Lemma transcribe_eq (w : world) (audio_file : string) :
  transcribe w audio_file = ([EvTranscribe audio_file], whisper_transcribe w audio_file).
Proof.
  unfold transcribe, bind, emit, lift.
  destruct (whisper_transcribe w audio_file); reflexivity.
Qed.

(** [merge_step] against the verdict on the clip. *)
Lemma merge_step_spec (w : world) (txt_path vtt_path : string)
    (current_time : float) (index : Z) (audio_file : string) :
  OneFile.merge_step w txt_path vtt_path current_time (index, audio_file) =
  match examine w audio_file with
  | Undecodable => ([EvDecode audio_file], Ok current_time)
  | TooShort _ => ([EvDecode audio_file; EvProbe audio_file], Ok current_time)
  | EngineFailed _ e =>
      ([EvDecode audio_file; EvProbe audio_file; EvTranscribe audio_file], Raise e)
  | Silent _ _ =>
      ([EvDecode audio_file; EvProbe audio_file; EvTranscribe audio_file],
       Ok current_time)
  | Included duration result =>
      let cues := OneFile.write_cues vtt_path current_time (segments result) in
      ((EvDecode audio_file :: EvProbe audio_file :: EvTranscribe audio_file
        :: EvWrite txt_path (text_block index (text result)) :: fst cues)%list,
       match snd cues with
       | Ok _ => Ok (current_time + duration)%float
       | Raise e => Raise e
       end)
  end.
Proof.
  unfold OneFile.merge_step, examine.
  rewrite (bind_ok _ _ _ _ (is_valid_audio_eq w audio_file)).
  destruct (decodable w audio_file); cbn [negb]; [|reflexivity].
  rewrite (bind_ok _ _ _ _ (get_audio_duration_eq w audio_file)).
  destruct (probed_duration w audio_file <? 1)%float; [reflexivity|].
  rewrite transcribe_eq.
  destruct (whisper_transcribe w audio_file) as [result|e]; [|reflexivity].
  rewrite (bind_ok _ _ _ _ eq_refl).
  destruct (is_silent_transcription (text result)); [reflexivity|].
  rewrite bind_emit. unfold text_block.
  destruct (OneFile.write_cues vtt_path current_time (segments result))
    as [tc [u|e]]; unfold bind, ret; cbn [fst snd app];
    rewrite ?app_nil_r; reflexivity.
Qed.

Lemma bind_assoc {A B C : Type} (m : M A) (f : A -> M B) (g : B -> M C) :
  (x <- (y <- m ;; f y) ;; g x) = (y <- m ;; x <- f y ;; g x).
Proof.
  destruct m as [t [a|e]]; unfold bind; [|reflexivity].
  destruct (f a) as [t1 [b|e1]]; [|reflexivity].
  destruct (g b) as [t2 r]. now rewrite app_assoc.
Qed.


Lemma bind_ext {A B : Type} (m : M A) (f g : A -> M B) :
  (forall a, f a = g a) -> (x <- m ;; f x) = (x <- m ;; g x).
Proof.
  intros H. destruct m as [t [a|e]]; unfold bind; [now rewrite H | reflexivity].
Qed.

(** The loop takes the clips one after the other, in list order. *)
Lemma merge_loop_app (w : world) (txt_path vtt_path : string)
    (l1 l2 : list (Z * string)) (t : float) :
  OneFile.merge_loop w txt_path vtt_path (l1 ++ l2)%list t =
  (t' <- OneFile.merge_loop w txt_path vtt_path l1 t ;;
   OneFile.merge_loop w txt_path vtt_path l2 t').
Proof.
  revert t. induction l1 as [|item l1 IH]; intros t; cbn [app OneFile.merge_loop].
  - now rewrite bind_ret_l.
  - rewrite bind_assoc. apply bind_ext. intros a. apply IH.
Qed.

(** On completion, the loop's value is the spec's running offset. *)
Lemma merge_loop_value (w : world) (txt_path vtt_path : string)
    (items : list (Z * string)) (t t' : float) :
  value_of (OneFile.merge_loop w txt_path vtt_path items t) = Ok t' ->
  t' = fold_left (advance w) (map snd items) t.
Proof.
  revert t. induction items as [|[index audio_file] rest IH]; intros t;
    cbn [OneFile.merge_loop map fold_left snd].
  - unfold value_of, ret. cbn. congruence.
  - rewrite merge_step_spec. unfold advance at 2.
    destruct (examine w audio_file) as [|d|d e|d r|d r]; cbn zeta;
      try (rewrite (bind_ok _ _ _ _ eq_refl); unfold value_of; cbn [snd];
           apply IH);
      try (unfold value_of, bind; cbn [snd]; discriminate).
    destruct (OneFile.write_cues vtt_path t (segments r)) as [tc [u|e]];
      cbn [fst snd].
    + rewrite (bind_ok _ _ _ _ eq_refl). unfold value_of; cbn [snd]. apply IH.
    + unfold value_of, bind; cbn [snd]. discriminate.
Qed.

Lemma strip_empty_silent (s : string) :
  strip s = "" -> is_silent_transcription s = true.
Proof. unfold is_silent_transcription. now intros ->. Qed.

Lemma silent_strip_empty (s : string) :
  is_silent_transcription s = true -> strip s = "".
Proof.
  unfold is_silent_transcription. destruct (strip s); [reflexivity|discriminate].
Qed.

(** The three gates, in the words of the claims. *)
Lemma excluded_iff (w : world) (audio_file : string) :
  is_excluded w audio_file = true <->
  decodable w audio_file = false
  \/ (probed_duration w audio_file <? 1)%float = true
  \/ (decodable w audio_file = true
      /\ (probed_duration w audio_file <? 1)%float = false
      /\ exists result, whisper_transcribe w audio_file = Ok result
                        /\ strip (text result) = "").
Proof.
  unfold is_excluded, examine.
  destruct (decodable w audio_file); cbn [negb]; [|tauto].
  destruct (probed_duration w audio_file <? 1)%float; [tauto|].
  destruct (whisper_transcribe w audio_file) as [result|e].
  - destruct (is_silent_transcription (text result)) eqn:Hs.
    + apply silent_strip_empty in Hs. split; [|reflexivity].
      intros _. right; right. repeat split. now exists result.
    + split; [discriminate|].
      intros [H|[H|(_ & _ & r & Hr & Hstrip)]]; try discriminate.
      injection Hr as <-. apply strip_empty_silent in Hstrip. congruence.
  - split; [discriminate|].
    intros [H|[H|(_ & _ & r & Hr & _)]]; discriminate.
Qed.

Lemma included_iff (w : world) (audio_file : string) (duration : float)
    (result : transcription) :
  examine w audio_file = Included duration result <->
  decodable w audio_file = true
  /\ duration = probed_duration w audio_file
  /\ (duration <? 1)%float = false
  /\ whisper_transcribe w audio_file = Ok result
  /\ strip (text result) <> "".
Proof.
  unfold examine.
  destruct (decodable w audio_file); cbn [negb];
    [|split; [discriminate | intros (H & _); discriminate]].
  destruct (probed_duration w audio_file <? 1)%float eqn:Hd.
  - split; [discriminate|]. intros (_ & -> & H & _). congruence.
  - destruct (whisper_transcribe w audio_file) as [r|e].
    + destruct (is_silent_transcription (text r)) eqn:Hs.
      * split; [discriminate|]. intros (_ & _ & _ & Hr & Hne).
        injection Hr as <-. apply silent_strip_empty in Hs. contradiction.
      * split.
        -- intros H. injection H as <- <-. repeat split; auto.
           intros Hstrip. apply strip_empty_silent in Hstrip. congruence.
        -- intros (_ & -> & _ & Hr & _). now injection Hr as <-.
    + split; [discriminate|]. intros (_ & _ & _ & H & _). discriminate.
Qed.

(* ================================================================== *)
(** * The timeline merge *)
(* ================================================================== *)

(** The statement on the timeline is with the lemmas on the whole run,
    below. *)

(* ================================================================== *)
(** * Probe failures *)
(* ================================================================== *)

Lemma value_bind {A B : Type} (m : M A) (k : A -> M B) (t : list event) (a : A) :
  m = (t, Ok a) -> value_of (x <- m ;; k x) = value_of (k a).
Proof. intros H. rewrite (bind_ok _ _ _ _ H). reflexivity. Qed.

Lemma value_bind_eq {A B : Type} (m1 m2 : M A) (k : A -> M B) :
  value_of m1 = value_of m2 ->
  value_of (x <- m1 ;; k x) = value_of (x <- m2 ;; k x).
Proof.
  destruct m1 as [t1 r1], m2 as [t2 r2]. unfold value_of; cbn [snd].
  intros <-. destruct r1 as [a|e]; unfold bind; [|reflexivity].
  now destruct (k a).
Qed.

Lemma value_bind_ext {A B : Type} (m : M A) (f g : A -> M B) :
  (forall a, value_of (f a) = value_of (g a)) ->
  value_of (x <- m ;; f x) = value_of (x <- m ;; g x).
Proof.
  intros H. destruct m as [t [a|e]]; unfold bind; [|reflexivity].
  specialize (H a). destruct (f a), (g a). exact H.
Qed.

(** C6.  When the probe fails, whatever the failure, [get_audio_duration]
    gives 0.0; as 0.0 < 1.0 the clip is then skipped: the iteration ends
    normally with the offset unchanged, nothing is written and the engine
    is not called, and the rest of the document is merged as if the clip
    were not there. *)
Theorem probe_failure_excludes (w : world) (txt_path vtt_path : string)
    (audio_file : string) (index : Z) :
  probe_failed w audio_file = true ->
  value_of (get_audio_duration w audio_file) = Ok 0%float
  /\ (0 <? 1)%float = true
  /\ (forall offset,
         value_of (OneFile.merge_step w txt_path vtt_path offset (index, audio_file))
         = Ok offset
         /\ forallb (fun e => negb (is_write e))
              (trace_of (OneFile.merge_step w txt_path vtt_path offset
                           (index, audio_file))) = true
         /\ ~ In (EvTranscribe audio_file)
              (trace_of (OneFile.merge_step w txt_path vtt_path offset
                           (index, audio_file))))
  /\ (forall l1 l2 t,
         value_of (OneFile.merge_loop w txt_path vtt_path
                     (l1 ++ (index, audio_file) :: l2)%list t)
         = value_of (OneFile.merge_loop w txt_path vtt_path (l1 ++ l2)%list t)).
Proof.
  intros Hfail.
  assert (Hdur : probed_duration w audio_file = 0%float).
  { unfold probe_failed in Hfail. unfold probed_duration.
    destruct (ffmpeg_probe w audio_file); [reflexivity..|discriminate]. }
  assert (Hstep : forall offset,
             exists tr, OneFile.merge_step w txt_path vtt_path offset (index, audio_file)
                        = (tr, Ok offset)
                        /\ forallb (fun e => negb (is_write e)) tr = true
                        /\ ~ In (EvTranscribe audio_file) tr).
  { intros offset. rewrite merge_step_spec. unfold examine. rewrite Hdur.
    change (0 <? 1)%float with true.
    destruct (decodable w audio_file); cbn [negb]; eexists; (split; [reflexivity|]);
      (split; [reflexivity|]); cbn [In]; intros H;
      repeat (destruct H as [H|H]; [discriminate|]); exact H. }
  split; [now rewrite get_audio_duration_eq, Hdur|].
  split; [reflexivity|]. split.
  - intros offset. destruct (Hstep offset) as (tr & -> & Hw & Hn). auto.
  - intros l1 l2 t. rewrite !merge_loop_app. apply value_bind_ext.
    intros t'. cbn [OneFile.merge_loop].
    destruct (Hstep t') as (tr & Heq & _). apply (value_bind _ _ _ _ Heq).
Qed.

Lemma probe_failure_excludes_witness :
  value_of (get_audio_duration scenario_probe_failure "b.m4a") = Ok 0%float
  /\ value_of (OneFile.merge_loop scenario_probe_failure "t" "v"
                 (enumerate 1 scenario_clips) 0%float) = Ok 5%float.
Proof.
  destruct (probe_failure_excludes scenario_probe_failure "t" "v" "b.m4a" 2
              eq_refl) as (Hdur & _ & _ & Hloop).
  split; [exact Hdur|].
  etransitivity; [exact (Hloop [(1, "a.m4a")] [(3, "c.m4a")] 0%float)|].
  reflexivity.
Defined.

(* ================================================================== *)
(** * The plain-text artifact *)
(* ================================================================== *)

Lemma writes_to_app (file : string) (t1 t2 : list event) :
  writes_to file (t1 ++ t2) = (writes_to file t1 ++ writes_to file t2)%list.
Proof. apply flat_map_app. Qed.

Lemma writes_to_other (file other : string) (t : list event) :
  other <> file ->
  (forall e, In e t -> exists d, e = EvWrite other d) ->
  writes_to file t = [].
Proof.
  intros Hne. induction t as [|e t IH]; intros H; [reflexivity|].
  cbn [writes_to flat_map]. destruct (H e (or_introl eq_refl)) as [d ->].
  apply String.eqb_neq in Hne. rewrite Hne. cbn [app].
  apply IH. intros e' He'. apply H. now right.
Qed.

Lemma writes_to_no_write (file : string) (t : list event) :
  forallb (fun e => negb (is_write e)) t = true -> writes_to file t = [].
Proof.
  induction t as [|e t IH]; [reflexivity|]. cbn [forallb writes_to flat_map].
  intros H. apply andb_prop in H as [He Ht].
  destruct e; try discriminate; cbn [app]; now apply IH.
Qed.

(** The content of a file that is not reopened: what is written to it. *)
Lemma file_content_writes (file : string) (t : list event) (acc : string) :
  forallb (fun e => negb (is_open file e)) t = true ->
  file_content file t acc = acc ++ String.concat "" (writes_to file t).
Proof.
  assert (Hnil : forall s : string, s ++ "" = s)
    by (induction s as [|c s IHs]; cbn; [reflexivity | now rewrite IHs]).
  assert (Hassoc : forall a b c : string, (a ++ b) ++ c = a ++ b ++ c)
    by (induction a as [|x a IHa]; intros; cbn; [reflexivity | now rewrite IHa]).
  assert (Hcat : forall (d : string) l, String.concat "" (d :: l) = d ++ String.concat "" l).
  { intros d [|y l]; cbn; [now rewrite Hnil | reflexivity]. }
  revert acc. induction t as [|e t IH]; intros acc H; cbn [forallb] in H.
  - cbn. now rewrite Hnil.
  - apply andb_prop in H as [He Ht].
    destruct e as [f|f d|p|p|p]; cbn [file_content writes_to flat_map is_open] in *;
      try (cbn [app]; now apply IH).
    + apply negb_true_iff in He. rewrite He. now apply IH.
    + destruct (f =? file)%string; cbn [app].
      * rewrite (IH _ Ht). fold (writes_to file t). rewrite Hcat. apply Hassoc.
      * now apply IH.
Qed.

Lemma step_trace_no_open (w : world) (txt_path vtt_path file : string)
    (t : float) (item : Z * string) :
  forallb (fun e => negb (is_open file e))
    (trace_of (OneFile.merge_step w txt_path vtt_path t item)) = true.
Proof.
  destruct item as [index audio_file]. rewrite merge_step_spec.
  destruct (examine w audio_file); try reflexivity.
  cbn zeta. unfold trace_of. cbn [fst forallb is_open negb andb].
  apply forallb_forall. intros e He.
  apply write_cues_only_writes in He as [d ->]. reflexivity.
Qed.

Lemma loop_trace_no_open (w : world) (txt_path vtt_path file : string)
    (items : list (Z * string)) (t : float) :
  forallb (fun e => negb (is_open file e))
    (trace_of (OneFile.merge_loop w txt_path vtt_path items t)) = true.
Proof.
  revert t. induction items as [|item rest IH]; intros t; [reflexivity|].
  cbn [OneFile.merge_loop].
  pose proof (step_trace_no_open w txt_path vtt_path file t item) as Hs.
  destruct (OneFile.merge_step w txt_path vtt_path t item) as [ts [a|e]];
    unfold trace_of in *; cbn [fst] in Hs.
  - rewrite (bind_ok _ _ _ _ eq_refl). cbn [fst].
    rewrite forallb_app, Hs. apply IH.
  - exact Hs.
Qed.

(** One write to the text file per included clip, in order, labelled by
    the clip's index in the candidate list. *)
Lemma loop_writes_txt (w : world) (txt_path vtt_path : string)
    (items : list (Z * string)) (t t' : float) :
  vtt_path <> txt_path ->
  value_of (OneFile.merge_loop w txt_path vtt_path items t) = Ok t' ->
  writes_to txt_path (trace_of (OneFile.merge_loop w txt_path vtt_path items t))
  = spec_blocks w items.
Proof.
  intros Hne. revert t.
  induction items as [|[index audio_file] rest IH]; intros t; [reflexivity|].
  cbn [OneFile.merge_loop spec_blocks]. rewrite merge_step_spec.
  destruct (examine w audio_file) as [|d|d e|d r|d r]; cbn zeta;
    try (rewrite (bind_ok _ _ _ _ eq_refl); unfold value_of, trace_of;
         cbn [fst snd]; intros H; rewrite writes_to_app; cbn [app];
         now apply IH);
    try (unfold value_of, bind; cbn [snd]; discriminate).
  pose proof (write_cues_only_writes vtt_path t (segments r)) as Hc.
  destruct (OneFile.write_cues vtt_path t (segments r)) as [tc [u|e]];
    cbn [fst snd] in *.
  - rewrite (bind_ok _ _ _ _ eq_refl). unfold value_of, trace_of. cbn [fst snd].
    intros H. rewrite writes_to_app.
    cbn [writes_to flat_map]. rewrite String.eqb_refl. cbn [app].
    fold (writes_to txt_path tc). rewrite (writes_to_other _ _ _ Hne Hc).
    cbn [app]. f_equal. now apply IH.
  - unfold value_of, bind; cbn [snd]. discriminate.
Qed.

Lemma append_inj_l (s x y : string) : s ++ x = s ++ y -> x = y.
Proof.
  induction s as [|c s IH]; cbn; [auto|]. intros H. injection H as H. auto.
Qed.

Lemma startswith_slash_ext (name a b : string) :
  startswith a "/" = startswith b "/" ->
  startswith (name ++ a) "/" = startswith (name ++ b) "/".
Proof.
  destruct name as [|c name]; [auto|]. intros _.
  unfold startswith. cbn [String.append String.prefix].
  destruct (ascii_dec "/" c); [|reflexivity].
  now destruct (name ++ a), (name ++ b).
Qed.

Lemma path_join_inj (a b1 b2 : string) :
  startswith b1 "/" = startswith b2 "/" ->
  path_join a b1 = path_join a b2 -> b1 = b2.
Proof.
  unfold path_join. intros ->.
  destruct (startswith b2 "/"); [auto|].
  destruct ((a =? "")%string || endswith a "/"); intros H;
    repeat apply append_inj_l in H; exact H.
Qed.

Lemma txt_vtt_distinct (out name : string) :
  OneFile.vtt_path_of out name <> OneFile.txt_path_of out name.
Proof.
  unfold OneFile.vtt_path_of, OneFile.txt_path_of. intros H.
  apply path_join_inj in H.
  - apply append_inj_l in H. discriminate.
  - now apply startswith_slash_ext.
Qed.

Lemma merge_trace_eq (w : world) (audio_files : list string) (out name : string) :
  OneFile.transcribe_and_merge w audio_files out name =
  ((EvOpen (OneFile.txt_path_of out name)
    :: EvOpen (OneFile.vtt_path_of out name)
    :: EvWrite (OneFile.vtt_path_of out name) ("WEBVTT" ++ nl ++ nl)
    :: trace_of (OneFile.merge_loop w (OneFile.txt_path_of out name)
                   (OneFile.vtt_path_of out name) (enumerate 1 audio_files) 0%float))%list,
   value_of (OneFile.merge_loop w (OneFile.txt_path_of out name)
               (OneFile.vtt_path_of out name) (enumerate 1 audio_files) 0%float)).
Proof.
  unfold OneFile.transcribe_and_merge. rewrite !bind_emit. reflexivity.
Qed.

Lemma spec_blocks_length (w : world) (clips : list string) (start : Z) :
  List.length (spec_blocks w (enumerate start clips))
  = List.length (filter (is_included w) clips).
Proof.
  revert start. induction clips as [|c clips IH]; intros start; [reflexivity|].
  cbn [enumerate spec_blocks filter]. unfold is_included.
  destruct (examine w c); cbn [List.length]; now rewrite IH.
Qed.

(** C2 (as the code has it).  When the merge of a document completes, the
    plain-text artifact consists of exactly one block per included clip, in
    clip order, and each block is labelled by the clip's 1-based position
    in the candidate list (excluded clips are counted): with three
    candidates of which the second is too short, the two blocks are
    labelled 1 and 3. *)
Theorem text_blocks_labelled_by_candidate_position (w : world)
    (audio_files : list string) (out name : string) (t : float) :
  value_of (OneFile.transcribe_and_merge w audio_files out name) = Ok t ->
  writes_to (OneFile.txt_path_of out name)
    (trace_of (OneFile.transcribe_and_merge w audio_files out name))
  = spec_blocks w (enumerate 1 audio_files)
  /\ file_content (OneFile.txt_path_of out name)
       (trace_of (OneFile.transcribe_and_merge w audio_files out name)) ""
     = String.concat "" (spec_blocks w (enumerate 1 audio_files))
  /\ List.length (spec_blocks w (enumerate 1 audio_files))
     = List.length (filter (is_included w) audio_files)
  /\ spec_blocks scenario (enumerate 1 scenario_clips)
     = [text_block 1 "hello"; text_block 3 "world"].
Proof.
  rewrite merge_trace_eq. unfold value_of, trace_of. cbn [fst snd]. intros H.
  pose proof (txt_vtt_distinct out name) as Hne.
  assert (Hw : writes_to (OneFile.txt_path_of out name)
                 (fst (OneFile.merge_loop w (OneFile.txt_path_of out name)
                         (OneFile.vtt_path_of out name) (enumerate 1 audio_files)
                         0%float))
               = spec_blocks w (enumerate 1 audio_files))
    by (eapply loop_writes_txt; eauto).
  assert (Hvt : (OneFile.vtt_path_of out name =? OneFile.txt_path_of out name)%string
                = false) by now apply String.eqb_neq.
  repeat split.
  - cbn [writes_to flat_map]. rewrite Hvt. cbn [app]. exact Hw.
  - cbn [file_content]. rewrite String.eqb_refl, Hvt.
    rewrite file_content_writes by apply loop_trace_no_open.
    cbn [String.append]. now rewrite Hw.
  - apply spec_blocks_length.
Qed.

Lemma text_blocks_labelled_by_candidate_position_witness :
  writes_to "out/deck_transcription.txt"
    (trace_of (OneFile.transcribe_and_merge scenario scenario_clips "out" "deck"))
  = [text_block 1 "hello"; text_block 3 "world"].
Proof.
  exact (proj1 (text_blocks_labelled_by_candidate_position
                  scenario scenario_clips "out" "deck" 5%float eq_refl)).
Defined.

(** C2 fails as stated: in the spec's own scenario the second block is
    labelled 3, the position of [c.m4a] among the candidates, and not 2. *)
Lemma labels_follow_candidates_not_included :
  writes_to "out/deck_transcription.txt"
    (trace_of (OneFile.transcribe_and_merge scenario scenario_clips "out" "deck"))
  = [text_block 1 "hello"; text_block 3 "world"]
  /\ claimed_blocks scenario scenario_clips 1
     = [text_block 1 "hello"; text_block 2 "world"]
  /\ writes_to "out/deck_transcription.txt"
       (trace_of (OneFile.transcribe_and_merge scenario scenario_clips "out" "deck"))
     <> claimed_blocks scenario scenario_clips 1.
Proof.
  split; [reflexivity|]. split; [reflexivity|].
  intros H. vm_compute in H. discriminate H.
Qed.

(* ================================================================== *)
(** * The artifacts of a document *)
(* ================================================================== *)

Lemma excluded_step (w : world) (txt_path vtt_path : string) (offset : float)
    (index : Z) (audio_file : string) :
  is_excluded w audio_file = true ->
  exists tr,
    OneFile.merge_step w txt_path vtt_path offset (index, audio_file) = (tr, Ok offset)
    /\ forallb (fun e => negb (is_write e)) tr = true.
Proof.
  rewrite merge_step_spec. unfold is_excluded.
  destruct (examine w audio_file); try discriminate; intros _;
    eexists; split; reflexivity.
Qed.

Lemma all_excluded_loop (w : world) (txt_path vtt_path : string)
    (clips : list string) (start : Z) (offset : float) :
  forallb (is_excluded w) clips = true ->
  value_of (OneFile.merge_loop w txt_path vtt_path (enumerate start clips) offset)
  = Ok offset
  /\ forallb (fun e => negb (is_write e))
       (trace_of (OneFile.merge_loop w txt_path vtt_path (enumerate start clips)
                    offset)) = true.
Proof.
  revert start. induction clips as [|c clips IH]; intros start H;
    [split; reflexivity|].
  cbn [forallb] in H. apply andb_prop in H as [Hc Hrest].
  cbn [enumerate OneFile.merge_loop].
  destruct (excluded_step w txt_path vtt_path offset start c Hc) as (tr & Heq & Hw).
  rewrite (bind_ok _ _ _ _ Heq). unfold value_of, trace_of. cbn [fst snd].
  destruct (IH (start + 1) Hrest) as [Hv Ht]. split; [exact Hv|].
  rewrite forallb_app, Hw. exact Ht.
Qed.

(** C10.  For a document with at least one candidate clip, the merged
    writer first creates the plain-text and the cue artifact and writes
    the header [WEBVTT] and a blank line to the cue artifact; every
    examination of a clip comes after these three actions.  Hence when
    every candidate is excluded the document completes with a cue artifact
    holding exactly the header and an empty plain-text artifact. *)
Theorem artifacts_exist_before_clips (w : world) (members : list zip_member)
    (out name : string) (audio_files corrupted_files : list string) :
  extract_audio_from_pptx members out = Ok (audio_files, corrupted_files) ->
  audio_files <> [] ->
  let run := OneFile.process_document w members out name in
  let txt_path := OneFile.txt_path_of out name in
  let vtt_path := OneFile.vtt_path_of out name in
  (exists rest,
      trace_of run =
      (EvOpen txt_path :: EvOpen vtt_path
       :: EvWrite vtt_path ("WEBVTT" ++ nl ++ nl) :: rest)%list)
  /\ file_created txt_path (trace_of run) = true
  /\ file_created vtt_path (trace_of run) = true
  /\ (forallb (is_excluded w) audio_files = true ->
      value_of run = Ok tt
      /\ file_content vtt_path (trace_of run) "" = "WEBVTT" ++ nl ++ nl
      /\ file_content txt_path (trace_of run) "" = "").
Proof.
  intros Hfiles Hne run txt_path vtt_path. subst run.
  unfold OneFile.process_document. rewrite Hfiles, bind_lift_ok. cbn [fst].
  destruct audio_files as [|c clips]; [contradiction|].
  rewrite merge_trace_eq. fold txt_path vtt_path.
  set (loop := OneFile.merge_loop w txt_path vtt_path (enumerate 1 (c :: clips))
                 0%float).
  assert (Hvt : (vtt_path =? txt_path)%string = false)
    by (apply String.eqb_neq, txt_vtt_distinct).
  assert (Htv : (txt_path =? vtt_path)%string = false)
    by (rewrite String.eqb_sym; exact Hvt).
  assert (Hex : forallb (is_excluded w) (c :: clips) = true ->
                value_of loop = Ok 0%float
                /\ forallb (fun e => negb (is_write e)) (trace_of loop) = true)
    by apply all_excluded_loop.
  assert (Hno : forall file,
             forallb (fun e => negb (is_open file e)) (trace_of loop) = true)
    by (intros file; apply loop_trace_no_open).
  clearbody loop. clearbody txt_path vtt_path.
  assert (Htrace : forall r : result float,
             trace_of (_ <- ((EvOpen txt_path :: EvOpen vtt_path
                              :: EvWrite vtt_path ("WEBVTT" ++ nl ++ nl)
                              :: trace_of loop)%list, r) ;; ret tt)
             = (EvOpen txt_path :: EvOpen vtt_path
                :: EvWrite vtt_path ("WEBVTT" ++ nl ++ nl) :: trace_of loop)%list).
  { intros [a|e]; unfold bind, ret, trace_of; cbn [fst snd app];
      rewrite ?app_nil_r; reflexivity. }
  rewrite Htrace. split; [eexists; reflexivity|].
  split; [cbn [file_created existsb is_open]; now rewrite String.eqb_refl|].
  split.
  { cbn [file_created existsb is_open]. rewrite String.eqb_refl.
    now rewrite orb_true_r. }
  intros Hall.
  destruct (Hex Hall) as [Hv Hw]. split.
  - unfold value_of in *. destruct loop as [tl rl]. cbn [snd] in Hv. subst rl.
    reflexivity.
  - cbn [file_content]. rewrite !String.eqb_refl, ?Hvt, ?Htv.
    rewrite !file_content_writes by apply Hno.
    rewrite !(writes_to_no_write _ _ Hw). split; reflexivity.
Qed.

Lemma artifacts_exist_before_clips_witness :
  value_of (OneFile.process_document all_undecodable
              [{| filename := "ppt/media/a.m4a"; extraction := Extracted |}]
              "out" "deck") = Ok tt
  /\ file_content "out/deck_transcription.vtt"
       (trace_of (OneFile.process_document all_undecodable
                    [{| filename := "ppt/media/a.m4a"; extraction := Extracted |}]
                    "out" "deck")) ""
     = "WEBVTT" ++ nl ++ nl.
Proof.
  assert (Hfiles : extract_audio_from_pptx
                     [{| filename := "ppt/media/a.m4a"; extraction := Extracted |}]
                     "out"
                   = Ok (["out/temp/ppt/media/a.m4a"], [])) by reflexivity.
  assert (Hne : ["out/temp/ppt/media/a.m4a"] <> []) by discriminate.
  destruct (artifacts_exist_before_clips all_undecodable
              [{| filename := "ppt/media/a.m4a"; extraction := Extracted |}]
              "out" "deck" _ _ Hfiles Hne) as (_ & _ & _ & H).
  destruct (H eq_refl) as (Hv & Hvtt & _).
  split; [exact Hv | exact Hvtt].
Defined.

(* ================================================================== *)
(** * Order of the examinations *)
(* ================================================================== *)

Lemma decode_first_app (t1 t2 : list event) :
  decode_first t1 -> decode_first t2 -> decode_first (t1 ++ t2).
Proof.
  intros H1 H2 pre e post path Heq He.
  apply app_eq_app in Heq as [l [[Ha Hb]|[Ha Hb]]].
  - destruct l as [|x l].
    + cbn [app] in Hb. exfalso.
      exact (H2 [] e post path (eq_sym Hb) He).
    + cbn [app] in Hb. injection Hb as <- Hpost.
      exact (H1 pre e l path Ha He).
  - subst pre. apply in_or_app. right. exact (H2 l e post path Hb He).
Qed.

(** A trace that starts with the decoder on [path] and then examines only
    [path] is in order. *)
Lemma decode_first_head (path : string) (t : list event) :
  (forall e p, In e t -> e = EvProbe p \/ e = EvTranscribe p -> p = path) ->
  decode_first (EvDecode path :: t).
Proof.
  intros H pre e post p Heq He.
  destruct pre as [|x pre]; cbn [app] in Heq; injection Heq as Hx Ht.
  - subst e. destruct He; discriminate.
  - subst x. left.
    assert (Hin : In e t) by (rewrite Ht; apply in_elt).
    now rewrite (H e p Hin He).
Qed.

Lemma decode_first_no_examination (t : list event) :
  forallb (fun e => negb (is_examination e)) t = true -> decode_first t.
Proof.
  intros H pre e post p Heq He.
  rewrite forallb_forall in H.
  assert (Hin : In e t) by (rewrite Heq; apply in_elt).
  apply H in Hin. destruct He; subst e; discriminate.
Qed.

Lemma decodable_false_iff (w : world) (path : string) :
  decodable w path = false <->
  ffmpeg_run w path = RunFailed
  \/ exists returncode, ffmpeg_run w path = Exited returncode /\ returncode <> 0.
Proof.
  unfold decodable. destruct (ffmpeg_run w path) as [rc|].
  - split.
    + intros H. right. exists rc. split; [reflexivity|].
      now apply Z.eqb_neq.
    + intros [H|(rc' & H & Hne)]; [discriminate|].
      injection H as <-. now apply Z.eqb_neq.
  - split; auto.
Qed.

Lemma examine_transcribe_decodable (w : world) (audio_file : string) :
  match examine w audio_file with
  | Undecodable => True
  | _ => decodable w audio_file = true
  end.
Proof.
  unfold examine. destruct (decodable w audio_file); cbn [negb]; [|exact I].
  destruct (probed_duration w audio_file <? 1)%float; [reflexivity|].
  destruct (whisper_transcribe w audio_file) as [r|e]; [|reflexivity].
  destruct (is_silent_transcription (text r)); reflexivity.
Qed.

(** The trace of one iteration of the merged loop. *)
Lemma merge_step_order (w : world) (txt_path vtt_path : string) (t : float)
    (index : Z) (audio_file : string) :
  let tr := trace_of (OneFile.merge_step w txt_path vtt_path t (index, audio_file)) in
  decode_first tr
  /\ forall p, In (EvTranscribe p) tr -> decodable w p = true.
Proof.
  cbn zeta. rewrite merge_step_spec.
  pose proof (examine_transcribe_decodable w audio_file) as Hd.
  pose proof (write_cues_only_writes vtt_path t) as Hc.
  destruct (examine w audio_file) as [|d|d e|d r|d r]; unfold trace_of; cbn [fst];
    (split;
     [ apply decode_first_head; cbn [In]; intros e' p Hin He';
       repeat (destruct Hin as [Hin|Hin];
               [subst e'; destruct He' as [He'|He']; congruence|]);
       try contradiction
     | cbn [In]; intros p Hin;
       repeat (destruct Hin as [Hin|Hin]; [congruence|]);
       try contradiction ]).
  - apply Hc in Hin as [x ->]. destruct He'; discriminate.
  - apply Hc in Hin as [x Hx]. discriminate.
Qed.

Lemma merge_loop_order (w : world) (txt_path vtt_path : string)
    (items : list (Z * string)) (t : float) :
  let tr := trace_of (OneFile.merge_loop w txt_path vtt_path items t) in
  decode_first tr
  /\ forall p, In (EvTranscribe p) tr -> decodable w p = true.
Proof.
  cbn zeta. revert t. induction items as [|[index audio_file] rest IH]; intros t.
  - split; [apply decode_first_no_examination; reflexivity | intros p []].
  - cbn [OneFile.merge_loop].
    destruct (merge_step_order w txt_path vtt_path t index audio_file) as [Ho Hn].
    destruct (OneFile.merge_step w txt_path vtt_path t (index, audio_file))
      as [ts [a|e]]; unfold trace_of in *; cbn [fst] in *.
    + rewrite (bind_ok _ _ _ _ eq_refl). cbn [fst].
      destruct (IH a) as [Ho' Hn']. split.
      * now apply decode_first_app.
      * intros p Hin. apply in_app_or in Hin as [Hin|Hin]; auto.
    + split; assumption.
Qed.

Lemma per_clip_write_cues_only_writes (vtt_file : string) (segs : list segment) :
  forall e, In e (fst (PerClip.write_cues vtt_file segs)) ->
            exists d, e = EvWrite vtt_file d.
Proof.
  induction segs as [|s rest IH]; cbn [PerClip.write_cues]; intros e HIn;
    [contradiction|].
  destruct (format_time (seg_start s)) as [start|x];
    [rewrite bind_lift_ok in HIn | contradiction].
  destruct (format_time (seg_end s)) as [end_|x];
    [rewrite bind_lift_ok, bind_emit in HIn | contradiction].
  destruct HIn as [<-|HIn]; [eexists; reflexivity | now apply IH].
Qed.

(** [transcribe_audio] against the verdict on the clip. *)
Lemma transcribe_audio_spec (w : world) (audio_file output_folder : string)
    (slide_number : Z) :
  exists outputs,
    (forall e, In e outputs -> is_examination e = false)
    /\ trace_of (PerClip.transcribe_audio w audio_file output_folder slide_number) =
       match examine w audio_file with
       | Undecodable => [EvDecode audio_file]
       | TooShort _ => [EvDecode audio_file; EvProbe audio_file]
       | EngineFailed _ _ | Silent _ _ =>
           [EvDecode audio_file; EvProbe audio_file; EvTranscribe audio_file]
       | Included _ _ =>
           (EvDecode audio_file :: EvProbe audio_file :: EvTranscribe audio_file
            :: outputs)%list
       end.
Proof.
  unfold PerClip.transcribe_audio, examine.
  rewrite (bind_ok _ _ _ _ (is_valid_audio_eq w audio_file)).
  destruct (decodable w audio_file); cbn [negb];
    [|exists []; split; [intros e []|reflexivity]].
  rewrite (bind_ok _ _ _ _ (get_audio_duration_eq w audio_file)).
  destruct (probed_duration w audio_file <? 1)%float;
    [exists []; split; [intros e []|reflexivity]|].
  rewrite transcribe_eq.
  destruct (whisper_transcribe w audio_file) as [result|e];
    [|exists []; split; [intros e' []|reflexivity]].
  rewrite (bind_ok _ _ _ _ eq_refl).
  destruct (is_silent_transcription (text result));
    [exists []; split; [intros e' []|reflexivity]|].
  rewrite !bind_emit. unfold trace_of. cbn [fst app].
  eexists. split; [|reflexivity].
  cbn [In]. intros e He.
  repeat (destruct He as [He|He]; [subst e; reflexivity|]).
  apply per_clip_write_cues_only_writes in He as [d ->]. reflexivity.
Qed.

Lemma transcribe_audio_order (w : world) (audio_file output_folder : string)
    (slide_number : Z) :
  let tr := trace_of (PerClip.transcribe_audio w audio_file output_folder
                        slide_number) in
  decode_first tr
  /\ forall p, In (EvTranscribe p) tr -> decodable w p = true.
Proof.
  cbn zeta.
  destruct (transcribe_audio_spec w audio_file output_folder slide_number)
    as (outputs & Hout & ->).
  pose proof (examine_transcribe_decodable w audio_file) as Hd.
  destruct (examine w audio_file) as [|d|d e|d r|d r];
    (split;
     [ apply decode_first_head; cbn [In]; intros e' p Hin He';
       repeat (destruct Hin as [Hin|Hin];
               [subst e'; destruct He' as [He'|He']; congruence|]);
       try contradiction
     | cbn [In]; intros p Hin;
       repeat (destruct Hin as [Hin|Hin]; [congruence|]);
       try contradiction ]).
  - apply Hout in Hin. destruct He'; subst e'; discriminate.
  - apply Hout in Hin. discriminate.
Qed.

(** C8.  In both pipelines the decoder is run on a clip before the probe
    and before the transcription engine are given that clip, and a clip
    for which the decoder reports a failure (the invocation fails, or the
    exit code is not zero) is never given to the transcription engine. *)
Theorem decodability_checked_first (w : world) :
  (forall audio_files out name,
      decode_first (trace_of (OneFile.transcribe_and_merge w audio_files out name))
      /\ forall path,
           ffmpeg_run w path = RunFailed
           \/ (exists returncode,
                  ffmpeg_run w path = Exited returncode /\ returncode <> 0) ->
           ~ In (EvTranscribe path)
               (trace_of (OneFile.transcribe_and_merge w audio_files out name)))
  /\ (forall audio_file output_folder slide_number,
         decode_first (trace_of (PerClip.transcribe_audio w audio_file output_folder
                                   slide_number))
         /\ forall path,
              ffmpeg_run w path = RunFailed
              \/ (exists returncode,
                     ffmpeg_run w path = Exited returncode /\ returncode <> 0) ->
              ~ In (EvTranscribe path)
                  (trace_of (PerClip.transcribe_audio w audio_file output_folder
                               slide_number))).
Proof.
  split.
  - intros audio_files out name. rewrite merge_trace_eq. unfold trace_of at 1 3.
    cbn [fst].
    destruct (merge_loop_order w (OneFile.txt_path_of out name)
                (OneFile.vtt_path_of out name) (enumerate 1 audio_files) 0%float)
      as [Ho Hn].
    split.
    + apply (decode_first_app [_; _; _]); [|exact Ho].
      apply decode_first_no_examination. reflexivity.
    + intros path Hfail Hin. apply decodable_false_iff in Hfail.
      cbn [In] in Hin.
      repeat (destruct Hin as [Hin|Hin]; [discriminate|]).
      apply Hn in Hin. congruence.
  - intros audio_file output_folder slide_number.
    destruct (transcribe_audio_order w audio_file output_folder slide_number)
      as [Ho Hn].
    split; [exact Ho|].
    intros path Hfail Hin. apply decodable_false_iff in Hfail.
    apply Hn in Hin. congruence.
Qed.

Lemma decodability_checked_first_witness :
  ~ In (EvTranscribe "a.m4a")
      (trace_of (OneFile.transcribe_and_merge all_undecodable ["a.m4a"] "out" "deck"))
  /\ ~ In (EvTranscribe "a.m4a")
         (trace_of (PerClip.transcribe_audio all_undecodable "a.m4a" "out" 1)).
Proof.
  destruct (decodability_checked_first all_undecodable) as [H1 H2].
  split.
  - apply (proj2 (H1 ["a.m4a"] "out" "deck")).
    right. exists 1. split; [reflexivity | discriminate].
  - apply (proj2 (H2 "a.m4a" "out" 1)).
    right. exists 1. split; [reflexivity | discriminate].
Defined.

(* ================================================================== *)
(** * Extraction from the container *)
(* ================================================================== *)

(** What one turn of the loop leaves. *)
Lemma try_extract_ok (m : zip_member) (path : list string) (bad : bool) :
  try_extract m = Ok (path, bad) ->
  path = path_left m /\ bad = negb (is_extracted m).
Proof.
  unfold try_extract, path_left, target_exists, is_extracted.
  destruct (extraction m) as [|e target_left].
  - intros H. injection H as <- <-. split; reflexivity.
  - destruct e; try discriminate. intros H. injection H as <- <-.
    split; reflexivity.
Qed.

Lemma try_extract_bad_zip (m : zip_member) :
  (forall e target_left, extraction m = Raised e target_left -> e = BadZipFile) ->
  try_extract m = Ok (path_left m, negb (is_extracted m)).
Proof.
  unfold try_extract, path_left, target_exists, is_extracted. intros H.
  destruct (extraction m) as [|e target_left]; [reflexivity|].
  now rewrite (H e target_left eq_refl).
Qed.

(** Extraction goes member by member: when the loop completes, every
    selected member has left its path below the scratch folder, and the
    members whose extraction raised [BadZipFile] are the ones on
    [corrupted_files]. *)
Lemma extraction_is_per_entry (members : list zip_member)
    (tree : list (list string)) (corrupted_files : list string) :
  extract_members members = Ok (tree, corrupted_files) ->
  tree = map path_left (filter selected members)
  /\ corrupted_files
     = map filename (filter (fun m => selected m && negb (is_extracted m)) members).
Proof.
  revert tree corrupted_files.
  induction members as [|m members IH]; intros tree corrupted_files H.
  - injection H as <- <-. split; reflexivity.
  - cbn [extract_members filter] in *.
    change (startswith (filename m) "ppt/media/"
            && endswith_any (filename m) AUDIO_EXTENSIONS)
      with (selected m) in H.
    destruct (selected m); cbn [andb]; [|now apply IH].
    destruct (try_extract m) as [[path bad]|e] eqn:Hm; [|discriminate H].
    apply try_extract_ok in Hm as [-> ->].
    destruct (extract_members members) as [[tree' corrupted']|e];
      [|discriminate H].
    destruct (IH _ _ eq_refl) as [-> ->]. injection H as <- <-.
    split; [reflexivity|]. now destruct (is_extracted m).
Qed.

(** The loop completes when no extraction raises anything but
    [BadZipFile]. *)
Lemma extraction_completes (members : list zip_member) :
  (forall m e target_left,
      In m members -> selected m = true ->
      extraction m = Raised e target_left -> e = BadZipFile) ->
  exists tree corrupted_files, extract_members members = Ok (tree, corrupted_files).
Proof.
  induction members as [|m members IH]; intros H; [now exists [], []|].
  destruct IH as (tree & corrupted & Heq).
  { intros m' e b Hin. apply H. now right. }
  cbn [extract_members]. rewrite Heq.
  change (startswith (filename m) "ppt/media/"
          && endswith_any (filename m) AUDIO_EXTENSIONS)
    with (selected m).
  destruct (selected m) eqn:Hsel; [|eauto].
  rewrite try_extract_bad_zip; [eauto|].
  intros e b. apply H; [now left | exact Hsel].
Qed.

(** C1 (the code departs from the claim).  A container whose three media
    entries are all extracted, one per supported extension: the candidate
    list of [extract_audio_from_pptx] holds the [.m4a] entry only, while
    the loop of [transcribe.py] over the same entries keeps the three. *)
Theorem candidates_omit_mp3_and_wav :
  extract_audio_from_pptx
    [ {| filename := "ppt/media/media1.mp3"; extraction := Extracted |};
      {| filename := "ppt/media/media2.wav"; extraction := Extracted |};
      {| filename := "ppt/media/media3.m4a"; extraction := Extracted |} ]
    "out/deck"
  = Ok (["out/deck/temp/ppt/media/media3.m4a"], [])
  /\ Transcribe.unzip_members []
       [ {| filename := "ppt/media/media1.mp3"; extraction := Extracted |};
         {| filename := "ppt/media/media2.wav"; extraction := Extracted |};
         {| filename := "ppt/media/media3.m4a"; extraction := Extracted |} ]
     = Ok ([ ["ppt"; "media"; "media1.mp3"]; ["ppt"; "media"; "media2.wav"];
             ["ppt"; "media"; "media3.m4a"] ], [])
  /\ Transcribe.extract_audio_from_pptx
       [ ["ppt"; "media"; "media1.mp3"]; ["ppt"; "media"; "media2.wav"];
         ["ppt"; "media"; "media3.m4a"] ]
     = ["media/media1.mp3"; "media/media2.wav"; "media/media3.m4a"].
Proof. repeat split; reflexivity. Qed.

(** C7 (the code departs from the claim).  An entry whose extraction
    raises [BadZipFile] is put on [corrupted_files], the entries after it
    are still extracted and nothing is raised: this holds for every
    container in which no extraction raises another exception.  But take
    three [.m4a] entries of which the second has a wrong check sum: the
    error is raised when the data has been copied, the file stays in the
    scratch folder and is listed, so the call returns three candidates,
    the corrupted entry among them, and not two.  Two candidates are
    returned when [BadZipFile] comes from the header of the entry, before
    the file is created.  When the damaged entry makes the decompressor
    raise [zlib.error], the loop does not handle it: the call ends with
    that exception.  The loop of [unzip_pptx] behaves the same way. *)
Theorem corrupted_entry_stays_a_candidate :
  (forall members out,
      (forall m e target_left,
          In m members -> extraction m = Raised e target_left -> e = BadZipFile) ->
      exists audio_files,
        extract_audio_from_pptx members out
        = Ok (audio_files,
              map filename
                (filter (fun m => selected m && negb (is_extracted m)) members)))
  /\ extract_audio_from_pptx
       [ {| filename := "ppt/media/media1.m4a"; extraction := Extracted |};
         {| filename := "ppt/media/media2.m4a";
            extraction := Raised BadZipFile true |};
         {| filename := "ppt/media/media3.m4a"; extraction := Extracted |} ]
       "out/deck"
     = Ok ([ "out/deck/temp/ppt/media/media1.m4a";
             "out/deck/temp/ppt/media/media2.m4a";
             "out/deck/temp/ppt/media/media3.m4a" ],
           ["ppt/media/media2.m4a"])
  /\ extract_audio_from_pptx
       [ {| filename := "ppt/media/media1.m4a"; extraction := Extracted |};
         {| filename := "ppt/media/media2.m4a";
            extraction := Raised BadZipFile false |};
         {| filename := "ppt/media/media3.m4a"; extraction := Extracted |} ]
       "out/deck"
     = Ok ([ "out/deck/temp/ppt/media/media1.m4a";
             "out/deck/temp/ppt/media/media3.m4a" ],
           ["ppt/media/media2.m4a"])
  /\ extract_audio_from_pptx
       [ {| filename := "ppt/media/media1.m4a"; extraction := Extracted |};
         {| filename := "ppt/media/media2.m4a";
            extraction := Raised ZlibError true |};
         {| filename := "ppt/media/media3.m4a"; extraction := Extracted |} ]
       "out/deck"
     = Raise ZlibError
  /\ Transcribe.unzip_members []
       [ {| filename := "ppt/media/media1.m4a"; extraction := Extracted |};
         {| filename := "ppt/media/media2.m4a";
            extraction := Raised BadZipFile true |};
         {| filename := "ppt/media/media3.m4a"; extraction := Extracted |} ]
     = Ok ([ ["ppt"; "media"; "media1.m4a"]; ["ppt"; "media"; "media2.m4a"];
             ["ppt"; "media"; "media3.m4a"] ],
           ["ppt/media/media2.m4a"])
  /\ Transcribe.unzip_members []
       [ {| filename := "ppt/media/media1.m4a"; extraction := Extracted |};
         {| filename := "ppt/media/media2.m4a";
            extraction := Raised ZlibError true |};
         {| filename := "ppt/media/media3.m4a"; extraction := Extracted |} ]
     = Raise ZlibError.
Proof.
  split; [|repeat split; reflexivity].
  intros members out H.
  destruct (extraction_completes members (fun m e b Hin _ => H m e b Hin))
    as (tree & corrupted & Heq).
  unfold extract_audio_from_pptx. rewrite Heq.
  destruct (extraction_is_per_entry _ _ _ Heq) as [_ <-].
  destruct (negb (media_folder_exists tree)); eauto.
Qed.

(* ================================================================== *)
(** * Output paths of [transcribe.py] *)
(* ================================================================== *)

Lemma replace_absent (old new s : string) :
  contains s old = false -> replace s old new = s.
Proof.
  unfold replace. induction s as [|c s IH]; [reflexivity|].
  cbn [contains replace_from]. intros H.
  apply orb_false_iff in H as [Hp Hc]. rewrite Hp. f_equal. now apply IH.
Qed.

Lemma fs_set_same (sigma : Transcribe.fs) (path data : string) :
  Transcribe.fs_set sigma path data path = Some data.
Proof. unfold Transcribe.fs_set. now rewrite String.eqb_refl. Qed.

Lemma fs_write_same (sigma : Transcribe.fs) (path old data : string) :
  sigma path = Some old ->
  Transcribe.fs_write sigma path data path = Some (old ++ data).
Proof. intros H. unfold Transcribe.fs_write. rewrite H. apply fs_set_same. Qed.

Lemma string_app_assoc (a b c : string) : (a ++ b) ++ c = a ++ b ++ c.
Proof. induction a as [|x a IH]; cbn; [reflexivity | now rewrite IH]. Qed.

Lemma string_app_nil_r (s : string) : s ++ "" = s.
Proof. induction s as [|c s IH]; cbn; [reflexivity | now rewrite IH]. Qed.

(** The cue loop only appends to the cue file, also when it raises. *)
Lemma write_cues_appends (sigma : Transcribe.fs) (vtt_path old : string)
    (segs : list segment) :
  sigma vtt_path = Some old ->
  exists cues,
    fst (Transcribe.write_cues sigma vtt_path segs) vtt_path = Some (old ++ cues).
Proof.
  revert sigma old. induction segs as [|s rest IH]; intros sigma old H;
    cbn [Transcribe.write_cues].
  - exists "". cbn [fst]. now rewrite H, string_app_nil_r.
  - assert (Hstop : exists cues, sigma vtt_path = Some (old ++ cues))
      by (exists ""; now rewrite H, string_app_nil_r).
    destruct (Transcribe.format_time (seg_start s)) as [start|e]; [|exact Hstop].
    destruct (Transcribe.format_time (seg_end s)) as [end_|e]; [|exact Hstop].
    destruct (IH (Transcribe.fs_write sigma vtt_path
                    (start ++ " --> " ++ end_ ++ nl ++ seg_text s ++ nl ++ nl))
                _ (fs_write_same _ _ _ _ H)) as [cues Hc].
    eexists. rewrite Hc. now rewrite string_app_assoc.
Qed.

(** C9 (as the code has it).  For an audio path that ends in [.mp3] or
    [.wav] and in which [.m4a] does not occur, the derived text path and
    cue path are the audio path itself, so the outputs are written over
    the audio file: once the file has been transcribed, it holds the cue
    text. *)
Theorem other_extensions_overwrite_the_audio (abs_path : string) :
  endswith_any abs_path [".mp3"; ".wav"] = true ->
  contains abs_path ".m4a" = false ->
  Transcribe.text_path_of abs_path = abs_path
  /\ Transcribe.vtt_path_of abs_path = abs_path
  /\ forall w listdir cwd file sigma audio result,
       Transcribe.abspath cwd file = abs_path ->
       sigma abs_path = Some audio ->
       whisper_transcribe w abs_path = Ok result ->
       exists cues,
         fst (Transcribe.transcribe_audio_files w listdir cwd [file] sigma) abs_path
         = Some ("WEBVTT" ++ nl ++ nl ++ cues).
Proof.
  intros _ Hno.
  assert (Ht : Transcribe.text_path_of abs_path = abs_path)
    by now apply replace_absent.
  assert (Hv : Transcribe.vtt_path_of abs_path = abs_path)
    by now apply replace_absent.
  split; [exact Ht|]. split; [exact Hv|].
  intros w listdir cwd file sigma audio result Habs Hsigma Hres.
  cbn [Transcribe.transcribe_audio_files]. rewrite Habs, Hsigma, Hres, Ht, Hv.
  set (sigma2 := Transcribe.fs_write _ abs_path ("WEBVTT" ++ nl ++ nl)).
  assert (H2 : sigma2 abs_path = Some ("WEBVTT" ++ nl ++ nl)).
  { subst sigma2. unfold Transcribe.fs_open.
    rewrite (fs_write_same _ _ "" _ (fs_set_same _ _ _)). reflexivity. }
  destruct (write_cues_appends sigma2 abs_path _ (segments result) H2)
    as [cues Hc].
  exists cues. rewrite <- !string_app_assoc, string_app_assoc.
  destruct (Transcribe.write_cues sigma2 abs_path (segments result))
    as [sigma3 [u|e]]; cbn [fst] in *; rewrite Hc;
    now rewrite !string_app_assoc.
Qed.

Lemma other_extensions_overwrite_the_audio_witness :
  Transcribe.text_path_of "/w/media/a.mp3" = "/w/media/a.mp3"
  /\ Transcribe.vtt_path_of "/w/media/b.wav" = "/w/media/b.wav".
Proof.
  split.
  - exact (proj1 (other_extensions_overwrite_the_audio "/w/media/a.mp3"
                    eq_refl eq_refl)).
  - exact (proj1 (proj2 (other_extensions_overwrite_the_audio "/w/media/b.wav"
                           eq_refl eq_refl))).
Defined.

(** C9 fails as stated: a path that ends in [.mp3] but contains [.m4a]
    elsewhere is changed by the substitution, so the derived paths are not
    the audio path. *)
Lemma m4a_inside_the_path_is_substituted :
  endswith_any "/w/media/a.m4a.mp3" [".mp3"; ".wav"] = true
  /\ Transcribe.text_path_of "/w/media/a.m4a.mp3" = "/w/media/a.txt.mp3"
  /\ Transcribe.vtt_path_of "/w/media/a.m4a.mp3" = "/w/media/a.vtt.mp3"
  /\ Transcribe.text_path_of "/w/media/a.m4a.mp3" <> "/w/media/a.m4a.mp3"
  /\ Transcribe.vtt_path_of "/w/media/a.m4a.mp3" <> "/w/media/a.m4a.mp3".
Proof.
  repeat split; try reflexivity; intros H; vm_compute in H; discriminate H.
Qed.

(* ================================================================== *)
(** * Timestamps *)
(* ================================================================== *)

Lemma zeros_length (k : nat) : String.length (zeros k) = k.
Proof. induction k as [|k IH]; cbn; [reflexivity | now rewrite IH]. Qed.

Lemma string_length_app (a b : string) :
  String.length (a ++ b) = (String.length a + String.length b)%nat.
Proof. induction a as [|c a IH]; cbn; [reflexivity | now rewrite IH]. Qed.

(** A non-negative integer is padded up to the width, never cut. *)
Lemma format_int_length (width : nat) (z : Z) :
  0 <= z ->
  String.length (format_int width z)
  = Nat.max width (String.length (str_of_N (Z.abs_N z))).
Proof.
  intros Hz. unfold format_int.
  destruct (Z.ltb_spec z 0) as [Hneg|_]; [lia|].
  cbn [String.append String.length].
  rewrite string_length_app, zeros_length. lia.
Qed.

Lemma two_digits (z : Z) :
  0 <= z < 60 -> String.length (format_int 2 z) = 2%nat.
Proof.
  intros Hz.
  assert (Hall : forallb (fun n => (String.length (format_int 2 (Z.of_nat n)) =? 2)%nat)
                   (seq 0 60) = true) by (vm_compute; reflexivity).
  rewrite forallb_forall in Hall.
  specialize (Hall (Z.to_nat z)). rewrite Z2Nat.id in Hall by lia.
  apply Nat.eqb_eq, Hall, in_seq. lia.
Qed.

Lemma three_digits (z : Z) :
  0 <= z <= 999 -> String.length (format_int 3 z) = 3%nat.
Proof.
  intros Hz.
  assert (Hall : forallb (fun n => (String.length (format_int 3 (Z.of_nat n)) =? 3)%nat)
                   (seq 0 1000) = true) by (vm_compute; reflexivity).
  rewrite forallb_forall in Hall.
  specialize (Hall (Z.to_nat z)). rewrite Z2Nat.id in Hall by lia.
  apply Nat.eqb_eq, Hall, in_seq. lia.
Qed.

(** The two ways of splitting whole seconds, by successive division in
    [pptx_audio_transc_onefile.py] and from the total in [transcribe.py],
    agree. *)
Lemma split_seconds (T : Z) :
  T / 60 / 60 = T / 3600 /\ (T / 60) mod 60 = (T mod 3600) / 60.
Proof.
  split.
  - rewrite Z.div_div by lia. reflexivity.
  - change 3600 with (60 * 60). rewrite Z.rem_mul_r by lia.
    rewrite Z.mul_comm, Z.div_add by lia.
    rewrite (Z.div_small (T mod 60)) by (apply Z.mod_pos_bound; lia). lia.
Qed.

(** C4.  For a timestamp [x], a finite float that is not negative, with
    [T] the whole seconds of [x] and [ms] the truncation of the
    fractional part of [x] times 1000: both are defined, [ms] is at most
    999, and [format_time x] is the text [HH:MM:SS.mmm] made of [T / 3600]
    on at least two digits (the hours are not reduced modulo 24), of
    [T / 60 mod 60] and [T mod 60] on two digits and of [ms] on three
    digits; [format_time] of [transcribe.py] gives the same text.  The
    timestamps [0.0], [3661.5] and [59.999] give [00:00:00.000],
    [01:01:01.500] and [00:00:59.999], and 25 hours give [25:00:00.000]. *)
Theorem format_time_renders :
  (forall x : float,
      (0 <=? x)%float = true -> (x <? infinity)%float = true ->
      exists T ms,
        int_of_float x = Ok T /\ 0 <= T
        /\ int_of_float (float_mod1 x * 1000)%float = Ok ms /\ 0 <= ms <= 999
        /\ format_time x
           = Ok (format_int 2 (T / 3600) ++ ":" ++ format_int 2 (T / 60 mod 60)
                 ++ ":" ++ format_int 2 (T mod 60) ++ "." ++ format_int 3 ms)
        /\ Transcribe.format_time x = format_time x
        /\ (2 <= String.length (format_int 2 (T / 3600)))%nat
        /\ String.length (format_int 2 (T / 60 mod 60)) = 2%nat
        /\ String.length (format_int 2 (T mod 60)) = 2%nat
        /\ String.length (format_int 3 ms) = 3%nat)
  /\ format_time 0%float = Ok "00:00:00.000"
  /\ format_time 3661.5%float = Ok "01:01:01.500"
  /\ format_time 59.999%float = Ok "00:00:59.999"
  /\ format_time 90000%float = Ok "25:00:00.000"
  /\ Transcribe.format_time 0%float = Ok "00:00:00.000"
  /\ Transcribe.format_time 3661.5%float = Ok "01:01:01.500"
  /\ Transcribe.format_time 59.999%float = Ok "00:00:59.999".
Proof.
  split; [|repeat (split; [vm_compute; reflexivity|]); vm_compute; reflexivity].
  intros x H0 Hfin.
  destruct (seconds_defined x H0 Hfin) as (T & HT & HT0).
  destruct (millis_range x H0 Hfin) as (ms & Hms & Hr).
  destruct (split_seconds T) as [Hh Hm].
  exists T, ms.
  split; [exact HT|]. split; [exact HT0|]. split; [exact Hms|].
  split; [exact Hr|].
  split; [unfold format_time; rewrite Hms, HT; cbn zeta; now rewrite Hh|].
  split.
  { unfold format_time, Transcribe.format_time. rewrite Hms, HT. cbn zeta.
    now rewrite Hh, Hm. }
  split.
  { rewrite format_int_length by (apply Z.div_pos; lia). lia. }
  split; [apply two_digits, Z.mod_pos_bound; lia|].
  split; [apply two_digits, Z.mod_pos_bound; lia|].
  now apply three_digits.
Qed.

Lemma format_time_renders_witness :
  exists T ms,
    int_of_float 3661.5%float = Ok T /\ 0 <= T
    /\ int_of_float (float_mod1 3661.5 * 1000)%float = Ok ms /\ 0 <= ms <= 999
    /\ format_time 3661.5%float
       = Ok (format_int 2 (T / 3600) ++ ":" ++ format_int 2 (T / 60 mod 60)
             ++ ":" ++ format_int 2 (T mod 60) ++ "." ++ format_int 3 ms)
    /\ Transcribe.format_time 3661.5%float = format_time 3661.5%float
    /\ (2 <= String.length (format_int 2 (T / 3600)))%nat
    /\ String.length (format_int 2 (T / 60 mod 60)) = 2%nat
    /\ String.length (format_int 2 (T mod 60)) = 2%nat
    /\ String.length (format_int 3 ms) = 3%nat.
Proof.
  apply (proj1 format_time_renders 3661.5%float); vm_compute; reflexivity.
Defined.

(* ================================================================== *)
(** * Growth of the offset *)
(* ================================================================== *)

(** A duration that is a number and passes the too-short gate is not
    negative. *)
Lemma number_not_short_nonneg (d : float) :
  is_number d = true -> (d <? 1)%float = false -> (0 <=? d)%float = true.
Proof.
  unfold is_number. rewrite float_nonneg_spec, eqb_spec, ltb_spec.
  change (Prim2SF 1) with (S754_finite false 4503599627370496 (-52)).
  unfold SFeqb, SFltb, SFcompare, nonneg.
  destruct (Prim2SF d) as [s|s| |s m e]; try destruct s; cbv iota beta;
    cbn [negb]; congruence.
Qed.

Lemma advance_grows (w : world) (t : float) (c : string) :
  is_number (probed_duration w c) = true ->
  (0 <=? t)%float = true ->
  (t <=? advance w t c)%float = true /\ (0 <=? advance w t c)%float = true.
Proof.
  intros Hn Ht. unfold advance.
  destruct (examine w c) as [|d|d e|d r|d r] eqn:Hex;
    try (split; [now apply float_leb_refl | assumption]).
  apply included_iff in Hex as (_ & -> & Hd & _).
  apply float_add_nonneg; [assumption|].
  now apply number_not_short_nonneg.
Qed.

Lemma offset_grows (w : world) (items : list (Z * string)) (t : float) :
  durations_are_numbers w items = true ->
  (0 <=? t)%float = true ->
  (t <=? fold_left (advance w) (map snd items) t)%float = true
  /\ (0 <=? fold_left (advance w) (map snd items) t)%float = true.
Proof.
  revert t. induction items as [|[k c] items IH]; intros t Hn Ht;
    cbn [map fold_left snd].
  - split; [now apply float_leb_refl | assumption].
  - cbn [durations_are_numbers forallb snd] in Hn.
    apply andb_prop in Hn as [Hc Hn].
    destruct (advance_grows w t c Hc Ht) as [H1 H2].
    destruct (IH _ Hn H2) as [H3 H4].
    split; [exact (float_leb_trans _ _ _ H1 H3) | exact H4].
Qed.

(** Clips that are not included leave the offset where it is. *)
Lemma offset_kept (w : world) (items : list (Z * string)) (t : float) :
  forallb (fun item => negb (is_included w (snd item))) items = true ->
  fold_left (advance w) (map snd items) t = t.
Proof.
  revert t. induction items as [|[k c] items IH]; intros t H;
    cbn [map fold_left snd]; [reflexivity|].
  cbn [forallb snd] in H. apply andb_prop in H as [Hc H].
  rewrite <- (IH t H) at 2. f_equal.
  unfold advance. unfold is_included in Hc.
  destruct (examine w c); try reflexivity. discriminate.
Qed.

(** C5 (as the code has it).  Let clip [ci] be included and reached at
    offset [ti], and let a later clip [cj] be reached at offset [tj], all
    probed durations up to there being numbers.  Then [ti + di <= tj] for
    the duration [di] of [ci]; [tj] is exactly [ti + di] when no clip
    between the two is included, whether or not clips between them were
    skipped; and a cue of [ci] whose start lies within the clip is not
    after any cue of [cj] whose start is not negative. *)
Theorem offset_monotone (w : world) (txt_path vtt_path : string)
    (before between : list (Z * string)) (ki : Z) (ci cj : string)
    (di dj ti tj : float) (ri rj : transcription) :
  durations_are_numbers w (before ++ (ki, ci) :: between) = true ->
  examine w ci = Included di ri ->
  examine w cj = Included dj rj ->
  value_of (OneFile.merge_loop w txt_path vtt_path before 0) = Ok ti ->
  value_of (OneFile.merge_loop w txt_path vtt_path
              (before ++ (ki, ci) :: between) 0) = Ok tj ->
  (ti + di <=? tj)%float = true
  /\ (forallb (fun item => negb (is_included w (snd item))) between = true ->
      tj = (ti + di)%float)
  /\ (forall si sj,
         In si (segments ri) -> In sj (segments rj) ->
         (0 <=? seg_start si)%float = true ->
         (seg_start si <=? di)%float = true ->
         (0 <=? seg_start sj)%float = true ->
         (ti + seg_start si <=? tj + seg_start sj)%float = true).
Proof.
  intros Hn Hi Hj Hti Htj.
  apply merge_loop_value in Hti, Htj.
  rewrite map_app, fold_left_app, <- Hti in Htj. cbn [map fold_left snd] in Htj.
  unfold advance at 2 in Htj. rewrite Hi in Htj.
  unfold durations_are_numbers in Hn. rewrite forallb_app in Hn.
  apply andb_prop in Hn as [Hb Hn]. cbn [forallb snd] in Hn.
  apply andb_prop in Hn as [Hc Hm].
  assert (H0 : (0 <=? 0)%float = true) by reflexivity.
  destruct (offset_grows w before 0 Hb H0) as [_ Hti0]. rewrite <- Hti in Hti0.
  assert (Hdi : (0 <=? di)%float = true).
  { apply included_iff in Hi as (_ & -> & Hd & _).
    now apply number_not_short_nonneg. }
  destruct (float_add_nonneg ti di Hti0 Hdi) as [_ Hsum].
  destruct (offset_grows w between (ti + di) Hm Hsum) as [Hle Htj0].
  rewrite <- Htj in Hle, Htj0.
  split; [exact Hle|]. split.
  - intros Hskip. rewrite Htj. now apply offset_kept.
  - intros si sj _ _ Hsi0 Hsid Hsj0.
    apply (float_leb_trans _ (ti + di)); [now apply float_add_mono_r|].
    apply (float_leb_trans _ tj); [exact Hle|].
    now apply float_add_nonneg.
Qed.

Lemma offset_monotone_witness :
  (0 + 2 <=? 2)%float = true
  /\ (forallb (fun item => negb (is_included scenario (snd item))) [(2, "b.m4a")]
      = true -> 2%float = (0 + 2)%float).
Proof.
  destruct (offset_monotone scenario "t" "v" [] [(2, "b.m4a")] 1 "a.m4a" "c.m4a"
              2 3 0 2
              {| text := "hello";
                 segments := [{| seg_start := 0; seg_end := 1.5;
                                 seg_text := "hello" |}] |}
              {| text := "world";
                 segments := [{| seg_start := 0.25; seg_end := 2.5;
                                 seg_text := "world" |}] |})
    as (H1 & H2 & _); try (vm_compute; reflexivity).
  split; [exact H1 | exact H2].
Defined.

(** C5: the claim's condition for equality fails in both directions.  In
    the scenario, [b.m4a] between [a.m4a] and [c.m4a] is skipped and the
    offset of [c.m4a] is still the offset of [a.m4a] plus its duration;
    when [b.m4a] is included, no clip between the two is skipped and the
    offset of [c.m4a] is larger. *)
Lemma skipped_clips_do_not_decide_equality :
  (is_included scenario "a.m4a" = true
   /\ is_excluded scenario "b.m4a" = true
   /\ is_included scenario "c.m4a" = true
   /\ value_of (OneFile.merge_loop scenario "t" "v" [] 0) = Ok 0%float
   /\ value_of (OneFile.merge_loop scenario "t" "v"
                  (enumerate 1 ["a.m4a"; "b.m4a"]) 0) = Ok 2%float
   /\ (0 + probed_duration scenario "a.m4a")%float = 2%float)
  /\ (forallb (is_included scenario_all_included) scenario_clips = true
      /\ value_of (OneFile.merge_loop scenario_all_included "t" "v" [] 0)
         = Ok 0%float
      /\ value_of (OneFile.merge_loop scenario_all_included "t" "v"
                     (enumerate 1 ["a.m4a"; "b.m4a"]) 0) = Ok 4.5%float
      /\ (0 + probed_duration scenario_all_included "a.m4a")%float = 2%float
      /\ (4.5 =? 2)%float = false).
Proof.
  split; repeat (split; [vm_compute; reflexivity|]); vm_compute; reflexivity.
Qed.

(* ================================================================== *)
(** * Timestamps: the two variants, failures and width *)
(* ================================================================== *)

(** The [format_time] of [transcribe.py], which takes hours, minutes and
    seconds from the total, and the [format_time] of the two other files,
    which divides twice by 60, give the same result on every float: the
    same text, or the same exception. *)
Theorem format_time_variants_agree (seconds : float) :
  Transcribe.format_time seconds = format_time seconds.
Proof.
  unfold Transcribe.format_time, format_time.
  destruct (int_of_float (float_mod1 seconds * 1000)%float) as [ms|e];
    [|reflexivity].
  destruct (int_of_float seconds) as [T|e]; [|reflexivity].
  cbn zeta. destruct (split_seconds T) as [Hh Hm]. now rewrite Hh, Hm.
Qed.

Lemma prim_of_spec (x : float) (v : spec_float) :
  Prim2SF x = v -> x = SF2Prim v.
Proof. intros <-. symmetry. apply SF2Prim_Prim2SF. Qed.

(** Among the floats that are not below zero, [format_time] fails exactly
    on NaN and on infinity, and the exception is [ValueError] in both
    cases: the milliseconds are computed first, and [inf % 1] is NaN. *)
Theorem format_time_fails_only_off_the_line (x : float) :
  (x <? 0)%float = false ->
  (forall e, format_time x = Raise e ->
             e = ValueError /\ (x = nan \/ x = infinity))
  /\ (x = nan \/ x = infinity -> format_time x = Raise ValueError)
  /\ (x <> nan -> x <> infinity -> exists s, format_time x = Ok s).
Proof.
  intros Hlt.
  assert (Hbad : x = nan \/ x = infinity -> format_time x = Raise ValueError)
    by (intros [->| ->]; vm_compute; reflexivity).
  assert (Hcases : x = nan \/ x = infinity
                   \/ ((0 <=? x)%float = true /\ (x <? infinity)%float = true)).
  { rewrite ltb_spec in Hlt. rewrite leb_spec, ltb_spec.
    change (Prim2SF 0) with (S754_zero false) in *.
    change (Prim2SF infinity) with (S754_infinity false).
    destruct (Prim2SF x) as [s|s| |s m e] eqn:Hx.
    - right. right. split; reflexivity.
    - destruct s; [discriminate Hlt|].
      right. left. now apply prim_of_spec in Hx.
    - left. now apply prim_of_spec in Hx.
    - destruct s; [discriminate Hlt|]. right. right. split; reflexivity. }
  assert (Hgood : (0 <=? x)%float = true -> (x <? infinity)%float = true ->
                  exists s, format_time x = Ok s).
  { intros H0 Hfin.
    destruct (seconds_defined x H0 Hfin) as (T & HT & _).
    destruct (millis_range x H0 Hfin) as (ms & Hms & _).
    unfold format_time. rewrite Hms, HT. eexists. reflexivity. }
  split; [|split].
  - intros e He. destruct Hcases as [H|[H|[H0 Hfin]]].
    + rewrite (Hbad (or_introl H)) in He. injection He as <-. auto.
    + rewrite (Hbad (or_intror H)) in He. injection He as <-. auto.
    + destruct (Hgood H0 Hfin) as [s Hs]. congruence.
  - exact Hbad.
  - intros Hn Hi. destruct Hcases as [H|[H|[H0 Hfin]]]; [contradiction..|].
    now apply Hgood.
Qed.

Lemma format_time_fails_only_off_the_line_witness :
  exists s, format_time 59.999%float = Ok s.
Proof.
  refine (proj2 (proj2 (format_time_fails_only_off_the_line 59.999%float _)) _ _).
  - vm_compute; reflexivity.
  - intros H. apply (f_equal Prim2SF) in H. vm_compute in H. discriminate H.
  - intros H. apply (f_equal Prim2SF) in H. vm_compute in H. discriminate H.
Defined.

Lemma hundred_hours (z : Z) :
  0 <= z < 100 -> String.length (format_int 2 z) = 2%nat.
Proof.
  intros Hz.
  assert (Hall : forallb (fun n => (String.length (format_int 2 (Z.of_nat n)) =? 2)%nat)
                   (seq 0 100) = true) by (vm_compute; reflexivity).
  rewrite forallb_forall in Hall.
  specialize (Hall (Z.to_nat z)). rewrite Z2Nat.id in Hall by lia.
  apply Nat.eqb_eq, Hall, in_seq. lia.
Qed.

(** A timestamp of less than a hundred hours is rendered on exactly twelve
    characters, [HH:MM:SS.mmm], with the separators at their places. *)
Theorem format_time_width (x : float) (T : Z) (s : string) :
  (0 <=? x)%float = true ->
  int_of_float x = Ok T -> T < 360000 ->
  format_time x = Ok s ->
  String.length s = 12%nat
  /\ String.get 2 s = Some ":"%char
  /\ String.get 5 s = Some ":"%char
  /\ String.get 8 s = Some "."%char.
Proof.
  intros H0 HT HTb Hs.
  assert (Hfin : (x <? infinity)%float = true).
  { rewrite ltb_spec. change (Prim2SF infinity) with (S754_infinity false).
    unfold int_of_float in HT.
    destruct (Prim2SF x) as [s0|s0| |s0 m e]; try discriminate; reflexivity. }
  destruct (seconds_defined x H0 Hfin) as (T' & HT' & HT0).
  rewrite HT in HT'. injection HT' as <-.
  destruct (millis_range x H0 Hfin) as (ms & Hms & Hr).
  unfold format_time in Hs. rewrite Hms, HT in Hs. cbn zeta in Hs.
  injection Hs as <-.
  destruct (split_seconds T) as [Hh _]. rewrite Hh.
  pose proof (hundred_hours (T / 3600)
                (conj (Z.div_pos T 3600 HT0 ltac:(lia))
                      (Z.div_lt_upper_bound T 3600 100 ltac:(lia) ltac:(lia))))
    as Lh.
  pose proof (two_digits (T / 60 mod 60) (Z.mod_pos_bound _ 60 ltac:(lia))) as Lm.
  pose proof (two_digits (T mod 60) (Z.mod_pos_bound _ 60 ltac:(lia))) as Ls.
  pose proof (three_digits ms Hr) as Lms.
  destruct (format_int 2 (T / 3600)) as [|h1 [|h2 [|? ?]]]; try discriminate Lh.
  destruct (format_int 2 (T / 60 mod 60)) as [|m1 [|m2 [|? ?]]]; try discriminate Lm.
  destruct (format_int 2 (T mod 60)) as [|s1 [|s2 [|? ?]]]; try discriminate Ls.
  destruct (format_int 3 ms) as [|d1 [|d2 [|d3 [|? ?]]]]; try discriminate Lms.
  repeat split.
Qed.

Lemma format_time_width_witness :
  String.length "01:01:01.500" = 12%nat.
Proof.
  apply (format_time_width 3661.5%float 3661 "01:01:01.500");
    vm_compute; reflexivity.
Defined.

(* ================================================================== *)
(** * The timeline of a document *)
(* ================================================================== *)

Lemma enumerate_app {A : Type} (start : Z) (l1 l2 : list A) :
  enumerate start (l1 ++ l2)
  = (enumerate start l1 ++ enumerate (start + Z.of_nat (List.length l1)) l2)%list.
Proof.
  revert start. induction l1 as [|x l1 IH]; intros start.
  - cbn [app enumerate List.length Z.of_nat]. now rewrite Z.add_0_r.
  - cbn [app enumerate List.length]. rewrite IH. do 3 f_equal. lia.
Qed.

Lemma map_snd_enumerate {A : Type} (start : Z) (l : list A) :
  map snd (enumerate start l) = l.
Proof.
  revert start. induction l as [|x l IH]; intros start; [reflexivity|].
  cbn [enumerate map snd]. now rewrite IH.
Qed.

Lemma bind_ret_r {A : Type} (m : M A) : (x <- m ;; ret x) = m.
Proof.
  destruct m as [t [a|e]]; unfold bind, ret; [|reflexivity].
  now rewrite app_nil_r.
Qed.

(** The run on a list of clips followed by one more clip: the run on the
    list, then the step for the clip at the offset reached. *)
Lemma merge_one_more (w : world) (before : list string) (clip out name : string)
    (offset : float) :
  value_of (OneFile.transcribe_and_merge w before out name) = Ok offset ->
  OneFile.transcribe_and_merge w (before ++ [clip])%list out name
  = ((trace_of (OneFile.transcribe_and_merge w before out name)
      ++ trace_of (OneFile.merge_step w (OneFile.txt_path_of out name)
                     (OneFile.vtt_path_of out name) offset
                     (1 + Z.of_nat (List.length before), clip)))%list,
     value_of (OneFile.merge_step w (OneFile.txt_path_of out name)
                 (OneFile.vtt_path_of out name) offset
                 (1 + Z.of_nat (List.length before), clip))).
Proof.
  rewrite !merge_trace_eq. unfold value_of, trace_of. cbn [fst snd]. intros H.
  rewrite enumerate_app, merge_loop_app.
  destruct (OneFile.merge_loop w _ _ (enumerate 1 before) 0%float) as [tb rb].
  cbn [snd] in H. subst rb. rewrite (bind_ok _ _ _ _ eq_refl).
  cbn [enumerate OneFile.merge_loop]. rewrite bind_ret_r. cbn [fst snd].
  reflexivity.
Qed.

(** The clips after a clip add their events after those of the clip. *)
Lemma merge_prefix (w : world) (l1 l2 : list string) (out name : string) :
  exists rest,
    trace_of (OneFile.transcribe_and_merge w (l1 ++ l2)%list out name)
    = (trace_of (OneFile.transcribe_and_merge w l1 out name) ++ rest)%list.
Proof.
  rewrite !merge_trace_eq. unfold trace_of. cbn [fst].
  rewrite enumerate_app, merge_loop_app.
  destruct (trace_bind_app
              (OneFile.merge_loop w (OneFile.txt_path_of out name)
                 (OneFile.vtt_path_of out name) (enumerate 1 l1) 0%float)
              (fun t' => OneFile.merge_loop w (OneFile.txt_path_of out name)
                           (OneFile.vtt_path_of out name)
                           (enumerate (1 + Z.of_nat (List.length l1)) l2) t'))
    as [rest Hrest].
  unfold trace_of in Hrest. exists rest. cbn [app]. now rewrite Hrest.
Qed.

(** C3.  Take a document whose candidate clips are [before], then [clip],
    then [after], and let the merge of [before] alone complete with the
    offset [offset].  Then [offset] is the sum, taken in list order from
    0.0, of the durations of the included clips of [before]; the events of
    [clip] come right after those of [before], and those of [after] after
    them.  When [clip] is not decodable, or lasts less than 1.0, or has a
    transcribed text that is empty once stripped, it writes nothing and
    the offset stays [offset].  When [clip] is included, it writes its
    text block, then one cue per segment with bounds [offset + start] and
    [offset + end], and the offset after it is [offset] plus its
    duration. *)
Theorem merge_timeline (w : world) (before after : list string)
    (clip out name : string) (offset : float) :
  value_of (OneFile.transcribe_and_merge w before out name) = Ok offset ->
  let run := fun audio_files => OneFile.transcribe_and_merge w audio_files out name in
  offset = spec_offset w before
  /\ (exists rest,
         trace_of (run (before ++ clip :: after)%list)
         = (trace_of (run (before ++ [clip])%list) ++ rest)%list)
  /\ (decodable w clip = false
      \/ (probed_duration w clip <? 1)%float = true
      \/ (decodable w clip = true
          /\ (probed_duration w clip <? 1)%float = false
          /\ exists result, whisper_transcribe w clip = Ok result
                            /\ strip (text result) = "") ->
      value_of (run (before ++ [clip])%list) = Ok offset
      /\ exists examinations,
           trace_of (run (before ++ [clip])%list)
           = (trace_of (run before) ++ examinations)%list
           /\ forallb (fun e => negb (is_write e)) examinations = true)
  /\ (forall result lines,
         decodable w clip = true ->
         (probed_duration w clip <? 1)%float = false ->
         whisper_transcribe w clip = Ok result ->
         strip (text result) <> "" ->
         Forall2 (fun s line =>
                    exists start end_,
                      format_time (offset + seg_start s) = Ok start
                      /\ format_time (offset + seg_end s) = Ok end_
                      /\ line = start ++ " --> " ++ end_ ++ nl
                                ++ seg_text s ++ nl ++ nl)
                 (segments result) lines ->
         trace_of (run (before ++ [clip])%list)
         = (trace_of (run before)
            ++ EvDecode clip :: EvProbe clip :: EvTranscribe clip
               :: EvWrite (OneFile.txt_path_of out name)
                    (text_block (1 + Z.of_nat (List.length before)) (text result))
               :: map (EvWrite (OneFile.vtt_path_of out name)) lines)%list
         /\ value_of (run (before ++ [clip])%list)
            = Ok (offset + probed_duration w clip)%float).
Proof.
  intros Hbefore run. subst run. cbn beta.
  split.
  { rewrite merge_trace_eq in Hbefore. unfold value_of in Hbefore.
    cbn [snd] in Hbefore. apply merge_loop_value in Hbefore.
    now rewrite map_snd_enumerate in Hbefore. }
  split.
  { change (clip :: after) with ([clip] ++ after)%list. rewrite app_assoc.
    apply merge_prefix. }
  rewrite (merge_one_more w before clip out name offset Hbefore).
  unfold value_of at 1 3, trace_of at 1 4. cbn [fst snd].
  rewrite merge_step_spec. split.
  - intros H. apply excluded_iff in H. unfold is_excluded in H.
    destruct (examine w clip); try discriminate;
      (split; [reflexivity|]; eexists; split; [reflexivity|reflexivity]).
  - intros result lines Hdec Hdur Hres Htext Hlines.
    assert (Hinc : examine w clip = Included (probed_duration w clip) result)
      by (apply included_iff; auto).
    rewrite Hinc. cbn zeta. rewrite write_cues_spec.
    assert (Hcl : cue_lines offset (segments result) = Ok lines).
    { clear - Hlines.
      induction Hlines as [|s line segs ls (st & en & H1 & H2 & ->) _ IH];
        cbn [cue_lines]; [reflexivity|].
      unfold cue_line. rewrite H1, H2, IH. reflexivity. }
    rewrite Hcl. split; reflexivity.
Qed.

Lemma merge_timeline_witness :
  trace_of (OneFile.transcribe_and_merge scenario (["a.m4a"; "b.m4a"] ++ ["c.m4a"])%list
              "out" "deck")
  = (trace_of (OneFile.transcribe_and_merge scenario ["a.m4a"; "b.m4a"] "out" "deck")
     ++ EvDecode "c.m4a" :: EvProbe "c.m4a" :: EvTranscribe "c.m4a"
        :: EvWrite (OneFile.txt_path_of "out" "deck")
             (text_block (1 + Z.of_nat (List.length ["a.m4a"; "b.m4a"])) "world")
        :: map (EvWrite (OneFile.vtt_path_of "out" "deck"))
             [("00:00:02.250 --> 00:00:04.500" ++ nl ++ "world" ++ nl ++ nl)%string])%list
  /\ value_of (OneFile.transcribe_and_merge scenario
                 (["a.m4a"; "b.m4a"] ++ ["c.m4a"])%list "out" "deck")
     = Ok (2 + probed_duration scenario "c.m4a")%float.
Proof.
  assert (Hbefore : value_of (OneFile.transcribe_and_merge scenario
                                ["a.m4a"; "b.m4a"] "out" "deck") = Ok 2%float)
    by (vm_compute; reflexivity).
  assert (Hdec : decodable scenario "c.m4a" = true) by (vm_compute; reflexivity).
  assert (Hdur : (probed_duration scenario "c.m4a" <? 1)%float = false)
    by (vm_compute; reflexivity).
  assert (Hres : whisper_transcribe scenario "c.m4a"
                 = Ok {| text := "world";
                         segments := [{| seg_start := 0.25; seg_end := 2.5;
                                         seg_text := "world" |}] |})
    by (vm_compute; reflexivity).
  assert (Htext : strip "world" <> "")
    by (intros H; vm_compute in H; discriminate H).
  assert (Hlines :
            Forall2 (fun s line =>
                       exists start end_,
                         format_time (2 + seg_start s) = Ok start
                         /\ format_time (2 + seg_end s) = Ok end_
                         /\ line = start ++ " --> " ++ end_ ++ nl
                                   ++ seg_text s ++ nl ++ nl)
                    [{| seg_start := 0.25; seg_end := 2.5; seg_text := "world" |}]
                    ["00:00:02.250 --> 00:00:04.500" ++ nl ++ "world" ++ nl ++ nl]).
  { constructor; [|constructor].
    exists "00:00:02.250", "00:00:04.500".
    split; [vm_compute; reflexivity|].
    split; [vm_compute; reflexivity | reflexivity]. }
  pose proof (merge_timeline scenario ["a.m4a"; "b.m4a"] [] "c.m4a" "out" "deck"
                2%float Hbefore) as H.
  cbv zeta in H. destruct H as (_ & _ & _ & Hinc).
  exact (Hinc _ _ Hdec Hdur Hres Htext Hlines).
Defined.

(* ================================================================== *)
(** * A failure of the transcription engine *)
(* ================================================================== *)

(** [model.transcribe] is called without a handler in the merged
    pipeline: when it raises on a clip that passed the two gates, the
    document's merge ends with that exception.  What was written for the
    clips before it stays as it was written, the failing clip adds
    nothing to the artifacts, and the clips after it are never
    examined. *)
Theorem engine_failure_ends_the_merge (w : world) (before after : list string)
    (clip out name : string) (e : exn) (t : float) :
  value_of (OneFile.transcribe_and_merge w before out name) = Ok t ->
  decodable w clip = true ->
  (probed_duration w clip <? 1)%float = false ->
  whisper_transcribe w clip = Raise e ->
  OneFile.transcribe_and_merge w (before ++ clip :: after) out name
  = ((trace_of (OneFile.transcribe_and_merge w before out name)
      ++ [EvDecode clip; EvProbe clip; EvTranscribe clip])%list,
     Raise e).
Proof.
  intros Hbefore Hdec Hdur Hraise.
  rewrite !merge_trace_eq in *. unfold value_of, trace_of in *.
  cbn [fst snd] in *.
  set (txt := OneFile.txt_path_of out name) in *.
  set (vtt := OneFile.vtt_path_of out name) in *.
  rewrite enumerate_app. cbn [enumerate].
  rewrite merge_loop_app.
  destruct (OneFile.merge_loop w txt vtt (enumerate 1 before) 0%float)
    as [tb rb] eqn:Hloop.
  cbn [snd] in Hbefore. subst rb.
  rewrite (bind_ok _ _ _ _ eq_refl).
  cbn [OneFile.merge_loop]. rewrite merge_step_spec.
  assert (Hex : examine w clip = EngineFailed (probed_duration w clip) e).
  { unfold examine. rewrite Hdec. cbn [negb]. rewrite Hdur, Hraise. reflexivity. }
  rewrite Hex. cbn [bind fst snd app]. reflexivity.
Qed.

Lemma engine_failure_ends_the_merge_witness :
  value_of (OneFile.transcribe_and_merge
              {| ffmpeg_run := ffmpeg_run scenario;
                 ffmpeg_probe := ffmpeg_probe scenario;
                 whisper_transcribe := fun p =>
                   if (p =? "c.m4a")%string then Raise RuntimeError
                   else whisper_transcribe scenario p |}
              (["a.m4a"; "b.m4a"] ++ "c.m4a" :: ["d.m4a"]) "out" "deck")
  = Raise RuntimeError.
Proof.
  rewrite (engine_failure_ends_the_merge _ ["a.m4a"; "b.m4a"] ["d.m4a"] "c.m4a"
             "out" "deck" RuntimeError 2%float);
    vm_compute; reflexivity.
Defined.

(* ================================================================== *)
(** * The cue artifact *)
(* ================================================================== *)

Lemma writes_to_cues (vtt_path : string) (lines : list string) :
  writes_to vtt_path (map (EvWrite vtt_path) lines) = lines.
Proof.
  induction lines as [|l lines IH]; [reflexivity|].
  cbn [map writes_to flat_map]. rewrite String.eqb_refl. cbn [app].
  f_equal. exact IH.
Qed.

(** The writes to the cue file: the cues of the included clips, in clip
    order, each clip rebased by the offset in force when it is reached. *)
Lemma loop_writes_vtt (w : world) (txt_path vtt_path : string)
    (items : list (Z * string)) (t t' : float) :
  txt_path <> vtt_path ->
  value_of (OneFile.merge_loop w txt_path vtt_path items t) = Ok t' ->
  spec_cues w items t
  = Ok (writes_to vtt_path
          (trace_of (OneFile.merge_loop w txt_path vtt_path items t))).
Proof.
  intros Hne. apply String.eqb_neq in Hne. revert t.
  induction items as [|[index audio_file] rest IH]; intros t; [reflexivity|].
  cbn [OneFile.merge_loop spec_cues]. rewrite merge_step_spec.
  destruct (examine w audio_file) as [|d|d e|d r|d r]; cbn zeta;
    try (rewrite (bind_ok _ _ _ _ eq_refl); unfold value_of, trace_of;
         cbn [fst snd]; intros H; rewrite writes_to_app; cbn [app];
         now apply IH);
    try (unfold value_of, bind; cbn [snd]; discriminate).
  rewrite write_cues_spec.
  destruct (cue_lines t (segments r)) as [lines|e]; cbn [fst snd].
  - rewrite (bind_ok _ _ _ _ eq_refl). unfold value_of, trace_of. cbn [fst snd].
    intros H. rewrite (IH _ H). unfold trace_of. f_equal.
    rewrite writes_to_app. cbn [writes_to flat_map]. rewrite Hne. cbn [app].
    fold (writes_to vtt_path (map (EvWrite vtt_path) lines)).
    now rewrite writes_to_cues.
  - unfold value_of, bind; cbn [snd]. discriminate.
Qed.

(** When the merge of a document completes, the cue artifact holds the
    header, a blank line, and then exactly the cues of the included
    clips: in clip order, those of one clip in segment order and rebased
    by the sum of the durations of the included clips before it. *)
Theorem cue_artifact_content (w : world) (audio_files : list string)
    (out name : string) (t : float) :
  value_of (OneFile.transcribe_and_merge w audio_files out name) = Ok t ->
  exists cues,
    spec_cues w (enumerate 1 audio_files) 0%float = Ok cues
    /\ file_content (OneFile.vtt_path_of out name)
         (trace_of (OneFile.transcribe_and_merge w audio_files out name)) ""
       = "WEBVTT" ++ nl ++ nl ++ String.concat "" cues.
Proof.
  rewrite merge_trace_eq. unfold value_of, trace_of. cbn [fst snd]. intros H.
  pose proof (txt_vtt_distinct out name) as Hne.
  assert (Hne' : OneFile.txt_path_of out name <> OneFile.vtt_path_of out name)
    by congruence.
  pose proof (loop_writes_vtt w _ _ (enumerate 1 audio_files) 0%float t Hne' H)
    as Hc.
  eexists. split; [exact Hc|]. unfold trace_of.
  - cbn [file_content]. rewrite String.eqb_refl.
    destruct (OneFile.txt_path_of out name =? OneFile.vtt_path_of out name)%string;
      rewrite file_content_writes by apply loop_trace_no_open;
      cbn [String.append]; now rewrite !string_app_assoc.
Qed.

Lemma cue_artifact_content_witness :
  file_content "out/deck_transcription.vtt"
    (trace_of (OneFile.transcribe_and_merge scenario scenario_clips "out" "deck")) ""
  = "WEBVTT" ++ nl ++ nl
    ++ "00:00:00.000 --> 00:00:01.500" ++ nl ++ "hello" ++ nl ++ nl
    ++ "00:00:02.250 --> 00:00:04.500" ++ nl ++ "world" ++ nl ++ nl.
Proof.
  destruct (cue_artifact_content scenario scenario_clips "out" "deck" 5%float
              ltac:(vm_compute; reflexivity)) as (cues & Hc & Hf).
  vm_compute in Hc. injection Hc as <-. exact Hf.
Defined.

(* ================================================================== *)
(** * Strings and paths *)
(* ================================================================== *)

Lemma prefix_split (p s : string) :
  String.prefix p s = true -> exists r, s = p ++ r.
Proof.
  revert s. induction p as [|c p IH]; intros s H.
  - exists s. reflexivity.
  - destruct s as [|d s]; [discriminate|]. cbn [String.prefix] in H.
    destruct (ascii_dec c d) as [->|]; [|discriminate].
    destruct (IH s H) as [r ->]. exists r. reflexivity.
Qed.

Lemma prefix_app (p s t : string) :
  String.prefix p s = true -> String.prefix p (s ++ t) = true.
Proof.
  revert s. induction p as [|c p IH]; intros s H; [now destruct (s ++ t)|].
  destruct s as [|d s]; [discriminate|]. cbn [String.prefix String.append] in *.
  destruct (ascii_dec c d); [now apply IH | discriminate].
Qed.

Lemma prefix_self_app (p r : string) : String.prefix p (p ++ r) = true.
Proof.
  induction p as [|c p IH]; [now destruct r|].
  cbn [String.append String.prefix].
  destruct (ascii_dec c c); [exact IH | congruence].
Qed.

Lemma rev_string_app (a b : string) :
  rev_string (a ++ b) = rev_string b ++ rev_string a.
Proof.
  induction a as [|c a IH]; cbn [String.append rev_string].
  - now rewrite string_app_nil_r.
  - now rewrite IH, string_app_assoc.
Qed.

Lemma rev_string_involutive (s : string) : rev_string (rev_string s) = s.
Proof.
  induction s as [|c s IH]; [reflexivity|]. cbn [rev_string].
  rewrite rev_string_app, IH. reflexivity.
Qed.

Lemma endswith_app (a s p : string) :
  endswith s p = true -> endswith (a ++ s) p = true.
Proof.
  unfold endswith. rewrite rev_string_app. apply prefix_app.
Qed.

Lemma endswith_split (s p : string) :
  endswith s p = true -> exists r, s = r ++ p.
Proof.
  unfold endswith. intros H. apply prefix_split in H as [r Hr].
  exists (rev_string r).
  rewrite <- (rev_string_involutive s), Hr, rev_string_app.
  now rewrite rev_string_involutive.
Qed.

Lemma slash_test (c : ascii) :
  (c =? "/")%char = String.prefix "/" (String c "").
Proof.
  cbn [String.prefix]. destruct (ascii_dec "/" c) as [<-|Hne]; [reflexivity|].
  apply Ascii.eqb_neq. congruence.
Qed.

Lemma contains_cons (c : ascii) (s : string) :
  contains (String c s) "/" = (c =? "/")%char || contains s "/".
Proof.
  cbn [contains]. f_equal. rewrite slash_test. cbn [String.prefix].
  destruct (ascii_dec "/" c); [now destruct s | reflexivity].
Qed.

Lemma contains_app_char (cur : string) (c : ascii) :
  contains cur "/" = false -> (c =? "/")%char = false ->
  contains (cur ++ String c "") "/" = false.
Proof.
  intros Hcur Hc. induction cur as [|d cur IH].
  - cbn [String.append]. rewrite contains_cons, Hc. reflexivity.
  - cbn [String.append]. rewrite contains_cons in *.
    apply orb_false_iff in Hcur as [Hd Hcur]. rewrite Hd. cbn [orb]. auto.
Qed.

(** A name without a slash is one component. *)
Lemma split_slash_no_slash (s cur : string) :
  contains s "/" = false -> split_slash s cur = [cur ++ s].
Proof.
  revert cur. induction s as [|c s IH]; intros cur H; cbn [split_slash].
  - now rewrite string_app_nil_r.
  - rewrite contains_cons in H. apply orb_false_iff in H as [Hc Hs].
    rewrite Hc, (IH _ Hs), string_app_assoc. reflexivity.
Qed.

Lemma split_slash_app (a b cur : string) :
  split_slash (a ++ String "/" b) cur
  = (split_slash a cur ++ split_slash b "")%list.
Proof.
  revert cur. induction a as [|c a IH]; intros cur;
    cbn [String.append split_slash]; [reflexivity|].
  destruct (c =? "/")%char; [cbn [app]; f_equal|]; apply IH.
Qed.

(** No component of a split path holds a slash. *)
Lemma split_slash_components (s cur : string) :
  contains cur "/" = false ->
  Forall (fun c => contains c "/" = false) (split_slash s cur).
Proof.
  revert cur. induction s as [|c s IH]; intros cur Hcur; cbn [split_slash].
  - constructor; [exact Hcur | constructor].
  - destruct (c =? "/")%char eqn:Hc.
    + constructor; [exact Hcur|]. now apply IH.
    + apply IH. now apply contains_app_char.
Qed.

Lemma arcname_media (rest : string) :
  arcname ("ppt/media/" ++ rest) = "ppt" :: "media" :: arcname rest.
Proof. reflexivity. Qed.

(** The components of an archive name are plain names: no slash, not
    empty, and neither [.] nor [..]. *)
Lemma arcname_components (name c : string) :
  In c (arcname name) ->
  contains c "/" = false /\ c <> "" /\ c <> "." /\ c <> "..".
Proof.
  unfold arcname. intros H. apply filter_In in H as [Hin Hf].
  pose proof (split_slash_components name "" eq_refl) as Hall.
  rewrite Forall_forall in Hall. split; [now apply Hall|].
  apply negb_true_iff in Hf.
  apply orb_false_iff in Hf as [Hf H3]. apply orb_false_iff in Hf as [H1 H2].
  repeat split; now apply String.eqb_neq.
Qed.

(* ================================================================== *)
(** * Silent transcriptions *)
(* ================================================================== *)

Lemma lstrip_from_eq (backwards : bool) (s : string) :
  lstrip_from backwards s
  = match s with
    | EmptyString => EmptyString
    | String c s1 =>
        if isspace c then lstrip_from backwards s1
        else
          match s1 with
          | EmptyString => s
          | String d s2 =>
              if (if backwards then isspace2 d c else isspace2 c d)
              then lstrip_from backwards s2
              else
                match s2 with
                | EmptyString => s
                | String e s3 =>
                    if (if backwards then isspace3 e d c else isspace3 c d e)
                    then lstrip_from backwards s3
                    else s
                end
          end
    end.
Proof. destruct s; reflexivity. Qed.

Lemma all_space_eq (s : string) :
  all_space s
  = match s with
    | EmptyString => true
    | String c s1 =>
        if isspace c then all_space s1
        else
          match s1 with
          | EmptyString => false
          | String d s2 =>
              if isspace2 c d then all_space s2
              else
                match s2 with
                | EmptyString => false
                | String e s3 => if isspace3 c d e then all_space s3 else false
                end
          end
    end.
Proof. destruct s; reflexivity. Qed.

Lemma rev_string_empty (s : string) : rev_string s = "" -> s = "".
Proof.
  destruct s as [|c s]; [reflexivity|]. cbn [rev_string].
  destruct (rev_string s); discriminate.
Qed.

Lemma spaces_app (a b : string) : spaces a -> spaces b -> spaces (a ++ b).
Proof.
  intros Ha Hb. induction Ha; cbn [String.append];
    [exact Hb | now constructor ..].
Qed.

(** What the forward reading drops is white space, and it drops the
    whole text exactly when every character is white space. *)
Lemma lstrip_all_space (n : nat) (s : string) :
  (String.length s <= n)%nat ->
  (all_space s = true -> lstrip_from false s = "")
  /\ (spaces (lstrip_from false s) -> all_space s = true).
Proof.
  revert s. induction n as [|n IH]; intros s Hlen.
  - destruct s; [split; reflexivity | cbn in Hlen; lia].
  - rewrite lstrip_from_eq, all_space_eq.
    destruct s as [|c s1]; [split; reflexivity|]. cbn [String.length] in Hlen.
    destruct (isspace c) eqn:Hc; [apply IH; lia|].
    destruct s1 as [|d s2].
    { split; [discriminate|]. intros H. inversion H; congruence. }
    cbn [String.length] in Hlen.
    destruct (isspace2 c d) eqn:Hd; [apply IH; lia|].
    destruct s2 as [|e s3].
    { split; [discriminate|]. intros H. inversion H; congruence. }
    cbn [String.length] in Hlen.
    destruct (isspace3 c d e) eqn:He; [apply IH; lia|].
    split; [discriminate|]. intros H. inversion H; congruence.
Qed.

(** When the backward reading drops the whole text, the text is a
    sequence of white-space characters. *)
Lemma rstrip_spaces (n : nat) (r : string) :
  (String.length r <= n)%nat ->
  lstrip_from true r = "" -> spaces (rev_string r).
Proof.
  revert r. induction n as [|n IH]; intros r Hlen.
  - destruct r; [constructor | cbn in Hlen; lia].
  - rewrite lstrip_from_eq.
    destruct r as [|c r1]; [constructor|]. cbn [String.length] in Hlen.
    destruct (isspace c) eqn:Hc.
    { intros H. cbn [rev_string]. apply spaces_app; [apply IH; [lia|exact H]|].
      now repeat constructor. }
    destruct r1 as [|d r2]; [discriminate|]. cbn [String.length] in Hlen.
    destruct (isspace2 d c) eqn:Hd.
    { intros H. cbn [rev_string]. rewrite string_app_assoc.
      apply spaces_app; [apply IH; [lia|exact H]|].
      cbn [String.append]. now repeat constructor. }
    destruct r2 as [|e r3]; [discriminate|]. cbn [String.length] in Hlen.
    destruct (isspace3 e d c) eqn:He; [|discriminate].
    intros H. cbn [rev_string]. rewrite !string_app_assoc.
    apply spaces_app; [apply IH; [lia|exact H]|].
    cbn [String.append]. now repeat constructor.
Qed.

(** A transcription is taken as silent exactly when every character of
    its text is white space for [str.strip] (the empty text included):
    a text with one other character is never silent, however much white
    space surrounds it. *)
Theorem silent_iff_all_white_space (text : string) :
  is_silent_transcription text = true <-> all_space text = true.
Proof.
  split.
  - intros H. apply silent_strip_empty in H. unfold strip, rstrip in H.
    apply rev_string_empty in H.
    apply (rstrip_spaces _ _ (le_n _)) in H.
    rewrite rev_string_involutive in H.
    now apply (proj2 (lstrip_all_space _ text (le_n _))).
  - intros H. apply strip_empty_silent. unfold strip, lstrip.
    now rewrite (proj1 (lstrip_all_space _ text (le_n _)) H).
Qed.

Lemma silent_iff_all_white_space_witness :
  is_silent_transcription
    (" " ++ nl ++ String "194" (String "160" (String "227" (String "128"
       (String "128" " ")))))
  = true.
Proof.
  apply (proj2 (silent_iff_all_white_space
                  (" " ++ nl ++ String "194" (String "160" (String "227"
                     (String "128" (String "128" " "))))))).
  reflexivity.
Defined.

(* ================================================================== *)
(** * The candidate clips of a document *)
(* ================================================================== *)

Tactic Notation "char_cases" ident(s) :=
  destruct s as [|[[] [] [] [] [] [] [] []] s]; try reflexivity.

(** One step of the listing of [ppt/media]. *)
Lemma media_children_cons (p : list string) (tree : list (list string)) :
  media_children (p :: tree)
  = match p with
    | a :: b :: c :: _ =>
        if (a =? "ppt")%string && (b =? "media")%string
        then if existsb (String.eqb c) (media_children tree)
             then media_children tree
             else c :: media_children tree
        else media_children tree
    | _ => media_children tree
    end.
Proof.
  destruct p as [|a [|b [|c sub]]]; [reflexivity| | |].
  - do 3 char_cases a. destruct a; reflexivity.
  - do 3 char_cases a. destruct a; [|reflexivity].
    do 5 char_cases b. destruct b; reflexivity.
  - do 3 char_cases a. destruct a; [|reflexivity].
    do 5 char_cases b. destruct b; reflexivity.
Qed.

Lemma media_children_in (tree : list (list string)) (n : string) :
  In n (media_children tree)
  <-> exists sub, In ("ppt" :: "media" :: n :: sub) tree.
Proof.
  induction tree as [|p tree IH].
  - split; [intros [] | intros [sub []]].
  - rewrite media_children_cons.
    assert (Hskip : (forall sub, p <> "ppt" :: "media" :: n :: sub) ->
              (In n (media_children tree)
               <-> exists sub, In ("ppt" :: "media" :: n :: sub) (p :: tree))).
    { intros Hp. rewrite IH. split; intros [s Hs]; exists s.
      - now right.
      - destruct Hs as [Hs|Hs]; [now apply Hp in Hs | exact Hs]. }
    destruct p as [|a [|b [|c sub]]]; try (apply Hskip; discriminate).
    destruct (String.eqb_spec a "ppt") as [->|Ha]; cbn [andb];
      [|apply Hskip; congruence].
    destruct (String.eqb_spec b "media") as [->|Hb]; cbn [andb];
      [|apply Hskip; congruence].
    assert (Hc : In n (c :: media_children tree)
                 <-> exists s, In ("ppt" :: "media" :: n :: s)
                                  (("ppt" :: "media" :: c :: sub) :: tree)).
    { cbn [In]. rewrite IH. split.
      - intros [->|[s Hs]]; [exists sub; now left | exists s; now right].
      - intros [s [Hs|Hs]]; [left; congruence | right; now exists s]. }
    destruct (existsb (String.eqb c) (media_children tree)) eqn:Hex;
      [|exact Hc].
    rewrite <- Hc. cbn [In]. split; [now right|].
    intros [<-|Hin]; [|exact Hin].
    apply existsb_exists in Hex as (x & Hx & Heq).
    apply String.eqb_eq in Heq. now subst x.
Qed.

Lemma media_children_nodup (tree : list (list string)) :
  NoDup (media_children tree).
Proof.
  induction tree as [|p tree IH]; [constructor|].
  rewrite media_children_cons.
  destruct p as [|a [|b [|c sub]]]; try exact IH.
  destruct ((a =? "ppt")%string && (b =? "media")%string); [|exact IH].
  destruct (existsb (String.eqb c) (media_children tree)) eqn:Hex; [exact IH|].
  constructor; [|exact IH]. intros Hin.
  assert (Ht : existsb (String.eqb c) (media_children tree) = true)
    by (apply existsb_exists; exists c; split; [exact Hin | apply String.eqb_refl]).
  congruence.
Qed.

(** A path through [ppt/media] makes the folder exist. *)
Lemma media_folder_exists_of (tree : list (list string)) (tl : list string) :
  In ("ppt" :: "media" :: tl) tree -> media_folder_exists tree = true.
Proof.
  intros H. unfold media_folder_exists. apply existsb_exists.
  exists ("ppt" :: "media" :: tl). split; [exact H | reflexivity].
Qed.

Lemma insert_sorted_in (x y : string) (l : list string) :
  In y (insert_sorted x l) <-> y = x \/ In y l.
Proof.
  induction l as [|z l IH]; cbn [insert_sorted In].
  - intuition.
  - destruct (String.leb x z); cbn [In]; [intuition|]. rewrite IH. intuition.
Qed.

Lemma sorted_in (y : string) (l : list string) : In y (sorted l) <-> In y l.
Proof.
  induction l as [|x l IH]; cbn [sorted In]; [reflexivity|].
  rewrite insert_sorted_in, IH. intuition.
Qed.

Lemma insert_sorted_is_sorted (x : string) (l : list string) :
  is_sorted l = true -> is_sorted (insert_sorted x l) = true.
Proof.
  induction l as [|y l IH]; intros Hl; [reflexivity|].
  cbn [insert_sorted]. destruct (String.leb x y) eqn:Hxy.
  - cbn [is_sorted] in *. now rewrite Hxy.
  - assert (Hyx : String.leb y x = true)
      by (destruct (String.leb_total x y); congruence).
    assert (Htl : is_sorted l = true).
    { cbn [is_sorted] in Hl. destruct l as [|z l']; [reflexivity|].
      now apply andb_prop in Hl as [_ Hl]. }
    specialize (IH Htl).
    destruct l as [|z l']; cbn [insert_sorted] in *.
    + cbn [is_sorted]. now rewrite Hyx.
    + cbn [is_sorted] in Hl. apply andb_prop in Hl as [Hyz _].
      destruct (String.leb x z); cbn [is_sorted] in *.
      * now rewrite Hyx, IH.
      * now rewrite Hyz, IH.
Qed.

Lemma sorted_is_sorted (l : list string) : is_sorted (sorted l) = true.
Proof.
  induction l as [|x l IH]; [reflexivity|].
  cbn [sorted]. now apply insert_sorted_is_sorted.
Qed.

Lemma insert_sorted_nodup (x : string) (l : list string) :
  ~ In x l -> NoDup l -> NoDup (insert_sorted x l).
Proof.
  induction l as [|y l IH]; intros Hx Hl; cbn [insert_sorted].
  - constructor; [intros [] | constructor].
  - destruct (String.leb x y); [now constructor|].
    inversion Hl as [|? ? Hy Hl']; subst. constructor.
    + rewrite insert_sorted_in. intros [->|Hin]; [apply Hx; now left | auto].
    + apply IH; [intros Hin; apply Hx; now right | exact Hl'].
Qed.

Lemma sorted_nodup (l : list string) : NoDup l -> NoDup (sorted l).
Proof.
  induction 1 as [|x l Hx Hl IH]; [constructor|].
  cbn [sorted]. apply insert_sorted_nodup; [now rewrite sorted_in | exact IH].
Qed.

(** The candidate clips are the names of [ppt/media] that end in [.m4a],
    in order. *)
Lemma candidates_eq (members : list zip_member) (out : string)
    (audio_files corrupted_files : list string) :
  extract_audio_from_pptx members out = Ok (audio_files, corrupted_files) ->
  exists tree,
    extract_members members = Ok (tree, corrupted_files)
    /\ audio_files
       = map (path_join (path_join (path_join (path_join out "temp") "ppt") "media"))
           (sorted (glob_m4a tree)).
Proof.
  unfold extract_audio_from_pptx.
  destruct (extract_members members) as [[tree corrupted]|e]; [|discriminate].
  destruct (media_folder_exists tree) eqn:Hm; cbn [negb]; intros H;
    injection H as <- <-; exists tree; (split; [reflexivity|]); [reflexivity|].
  unfold glob_m4a.
  destruct (media_children tree) as [|n l] eqn:Hc; [reflexivity|]. exfalso.
  assert (Hn : In n (media_children tree)) by (rewrite Hc; now left).
  apply media_children_in in Hn as [sub Hsub].
  apply media_folder_exists_of in Hsub. congruence.
Qed.

(** The paths below the scratch folder are those left by the selected
    members. *)
Lemma extracted_tree (members : list zip_member) (tree : list (list string))
    (corrupted_files : list string) :
  extract_members members = Ok (tree, corrupted_files) ->
  forall p, In p tree <->
            exists m, In m members /\ selected m = true /\ p = path_left m.
Proof.
  intros H p. apply extraction_is_per_entry in H as [-> _].
  rewrite in_map_iff. split.
  - intros (m & <- & Hm). apply filter_In in Hm as [Hin Hsel]. eauto.
  - intros (m & Hin & Hsel & ->). exists m. split; [reflexivity|].
    apply filter_In. auto.
Qed.

Lemma in_removelast {A : Type} (x : A) (l : list A) :
  In x (removelast l) -> In x l.
Proof.
  induction l as [|y l IH]; [intros []|].
  destruct l as [|z l]; [intros []|].
  intros [H|H]; [now left | right; now apply IH].
Qed.

Lemma path_left_components (m : zip_member) (c : string) :
  In c (path_left m) -> In c (arcname (filename m)).
Proof.
  unfold path_left. destruct (target_exists m); [auto | apply in_removelast].
Qed.

(** Every candidate clip is a name ending in [.m4a] directly inside the
    scratch folder's [ppt/media]; that name is the third component of the
    path that a selected member of the archive left there, either because
    the member was extracted or because its extraction raised
    [BadZipFile], which the loop handles.  A member outside [ppt/media/]
    and a member with another extension than the three audio ones never
    give a candidate. *)
Theorem candidates_come_from_extracted_members (members : list zip_member)
    (out c : string) (audio_files corrupted_files : list string) :
  normalised out = true ->
  extract_audio_from_pptx members out = Ok (audio_files, corrupted_files) ->
  In c audio_files ->
  exists m n sub,
    In m members
    /\ startswith (filename m) "ppt/media/" = true
    /\ endswith_any (filename m) AUDIO_EXTENSIONS = true
    /\ (extraction m = Extracted
        \/ exists target_left, extraction m = Raised BadZipFile target_left)
    /\ path_left m = "ppt" :: "media" :: n :: sub
    /\ endswith n ".m4a" = true
    /\ c = path_join (path_join (path_join (path_join out "temp") "ppt") "media") n.
Proof.
  intros _ Heq H. apply candidates_eq in Heq as (tree & Htree & ->).
  apply in_map_iff in H as (n & <- & Hn). apply (proj1 (sorted_in _ _)) in Hn.
  unfold glob_m4a in Hn. apply filter_In in Hn as [Hn Hm4a].
  apply (proj1 (media_children_in _ n)) in Hn as [sub Hsub].
  apply (proj1 (extracted_tree _ _ _ Htree _)) in Hsub as (m & Hin & Hsel & Hp).
  pose proof Hsel as Hsel'.
  unfold selected in Hsel. apply andb_prop in Hsel as [Hpre Hend].
  exists m, n, sub. repeat split; auto.
  assert (Hok : exists path bad, try_extract m = Ok (path, bad)).
  { clear - Htree Hin Hsel'. revert tree corrupted_files Htree.
    induction members as [|m' members IH]; [destruct Hin|].
    intros tree corrupted_files Htree. cbn [extract_members] in Htree.
    change (startswith (filename m') "ppt/media/"
            && endswith_any (filename m') AUDIO_EXTENSIONS)
      with (selected m') in Htree.
    destruct Hin as [->|Hin].
    - rewrite Hsel' in Htree.
      destruct (try_extract m) as [[path bad]|e]; [eauto | discriminate Htree].
    - destruct (selected m'); [|now apply (IH Hin _ _ Htree)].
      destruct (try_extract m') as [[path bad]|e]; [|discriminate Htree].
      destruct (extract_members members) as [[tree' corrupted']|e];
        [|discriminate Htree].
      now apply (IH Hin _ _ eq_refl). }
  destruct Hok as (path & bad & Hok). unfold try_extract in Hok.
  destruct (extraction m) as [|e target_left]; [now left|].
  right. exists target_left. destruct e; try discriminate Hok. reflexivity.
Qed.

Lemma candidates_come_from_extracted_members_witness :
  exists m n sub,
    In m [ {| filename := "ppt/media/media1.m4a"; extraction := Extracted |};
           {| filename := "ppt/media/media2.m4a";
              extraction := Raised BadZipFile true |};
           {| filename := "ppt/media/media3.wav"; extraction := Extracted |} ]
    /\ startswith (filename m) "ppt/media/" = true
    /\ endswith_any (filename m) AUDIO_EXTENSIONS = true
    /\ (extraction m = Extracted
        \/ exists target_left, extraction m = Raised BadZipFile target_left)
    /\ path_left m = "ppt" :: "media" :: n :: sub
    /\ endswith n ".m4a" = true
    /\ "out/deck/temp/ppt/media/media2.m4a"
       = path_join (path_join (path_join (path_join "out/deck" "temp") "ppt")
                      "media") n.
Proof.
  apply (candidates_come_from_extracted_members
           [ {| filename := "ppt/media/media1.m4a"; extraction := Extracted |};
             {| filename := "ppt/media/media2.m4a";
                extraction := Raised BadZipFile true |};
             {| filename := "ppt/media/media3.wav"; extraction := Extracted |} ]
           "out/deck" "out/deck/temp/ppt/media/media2.m4a"
           [ "out/deck/temp/ppt/media/media1.m4a";
             "out/deck/temp/ppt/media/media2.m4a" ]
           ["ppt/media/media2.m4a"]);
    [reflexivity | reflexivity | right; left; reflexivity].
Defined.

(** In a container in which no selected member makes the extraction
    raise anything but [BadZipFile], the call returns, and an [.m4a]
    member stored directly in [ppt/media/] whose file exists after its
    extraction is a candidate clip, wherever it stands in the archive. *)
Theorem extracted_m4a_members_are_candidates (members : list zip_member)
    (out : string) (m : zip_member) (n : string) :
  normalised out = true ->
  (forall m' e target_left,
      In m' members -> selected m' = true ->
      extraction m' = Raised e target_left -> e = BadZipFile) ->
  In m members ->
  filename m = "ppt/media/" ++ n ->
  contains n "/" = false ->
  endswith n ".m4a" = true ->
  target_exists m = true ->
  exists audio_files corrupted_files,
    extract_audio_from_pptx members out = Ok (audio_files, corrupted_files)
    /\ In (path_join (path_join (path_join (path_join out "temp") "ppt") "media") n)
         audio_files.
Proof.
  intros _ Hraise Hin Hname Hslash Hm4a Hext.
  assert (Hn : n <> "" /\ n <> "." /\ n <> "..")
    by (repeat split; intros ->; discriminate Hm4a).
  destruct Hn as (H1 & H2 & H3).
  apply String.eqb_neq in H1, H2, H3.
  assert (Harc : arcname (filename m) = ["ppt"; "media"; n]).
  { rewrite Hname, arcname_media. unfold arcname.
    rewrite (split_slash_no_slash n "" Hslash). cbn [String.append filter].
    now rewrite H1, H2, H3. }
  assert (Hsel : selected m = true).
  { unfold selected. rewrite Hname. apply andb_true_intro.
    split; [apply prefix_self_app|].
    unfold AUDIO_EXTENSIONS. cbn [endswith_any existsb].
    now rewrite (endswith_app "ppt/media/" n ".m4a" Hm4a). }
  destruct (extraction_completes members Hraise) as (tree & corrupted & Htree).
  assert (Hchild : In n (media_children tree)).
  { apply (proj2 (media_children_in _ n)). exists [].
    apply (proj2 (extracted_tree _ _ _ Htree _)). exists m.
    repeat split; auto. unfold path_left. now rewrite Hext, Harc. }
  pose proof Hchild as Hc. apply media_children_in in Hc as [sub Hsub].
  apply media_folder_exists_of in Hsub.
  unfold extract_audio_from_pptx. rewrite Htree, Hsub. cbn [negb].
  eexists. eexists. split; [reflexivity|].
  apply in_map. apply (proj2 (sorted_in _ _)).
  unfold glob_m4a. apply filter_In. split; [exact Hchild | exact Hm4a].
Qed.

Lemma extracted_m4a_members_are_candidates_witness :
  exists audio_files corrupted_files,
    extract_audio_from_pptx
      [ {| filename := "ppt/media/media1.mp3"; extraction := Extracted |};
        {| filename := "ppt/media/media3.m4a"; extraction := Extracted |} ]
      "out/deck"
    = Ok (audio_files, corrupted_files)
    /\ In "out/deck/temp/ppt/media/media3.m4a" audio_files.
Proof.
  apply (extracted_m4a_members_are_candidates
           [ {| filename := "ppt/media/media1.mp3"; extraction := Extracted |};
             {| filename := "ppt/media/media3.m4a"; extraction := Extracted |} ]
           "out/deck"
           {| filename := "ppt/media/media3.m4a"; extraction := Extracted |}
           "media3.m4a");
    try reflexivity.
  - intros m' e target_left [<-|[<-|[]]] _ H; discriminate H.
  - right. left. reflexivity.
Defined.

(** The candidate clips are listed by increasing file name, each name
    once, whatever the order of the members in the archive and however
    many members share a name. *)
Theorem candidates_sorted_without_repetition (members : list zip_member)
    (out : string) (audio_files corrupted_files : list string) :
  extract_audio_from_pptx members out = Ok (audio_files, corrupted_files) ->
  exists names,
    audio_files
    = map (path_join (path_join (path_join (path_join out "temp") "ppt") "media"))
          names
    /\ is_sorted names = true
    /\ NoDup names.
Proof.
  intros H. apply candidates_eq in H as (tree & _ & ->).
  exists (sorted (glob_m4a tree)).
  split; [reflexivity|]. split; [apply sorted_is_sorted|].
  apply sorted_nodup. unfold glob_m4a. apply NoDup_filter.
  apply media_children_nodup.
Qed.

Lemma candidates_sorted_without_repetition_witness :
  exists names,
    [ "out/deck/temp/ppt/media/a.m4a"; "out/deck/temp/ppt/media/b.m4a" ]
    = map (path_join (path_join (path_join (path_join "out/deck" "temp") "ppt")
                        "media")) names
    /\ is_sorted names = true
    /\ NoDup names.
Proof.
  apply (candidates_sorted_without_repetition
           [ {| filename := "ppt/media/b.m4a"; extraction := Extracted |};
             {| filename := "ppt/media/a.m4a"; extraction := Extracted |};
             {| filename := "ppt/media/b.m4a"; extraction := Extracted |} ]
           "out/deck" _ []).
  reflexivity.
Defined.

(* ================================================================== *)
(** * The per-clip pipeline: the names of the output files *)
(* ================================================================== *)

Lemma no_slash_no_leading_slash (n : string) :
  contains n "/" = false -> startswith n "/" = false.
Proof.
  destruct n as [|c n]; [reflexivity|]. unfold startswith. cbn [contains].
  intros H. now apply orb_false_iff in H as [H _].
Qed.

Lemma path_parts_name (n : string) :
  contains n "/" = false -> n <> "" -> n <> "." ->
  PerClip.path_parts n = [n].
Proof.
  intros Hs H1 H2. unfold PerClip.path_parts.
  rewrite (split_slash_no_slash n "" Hs). cbn [String.append filter].
  apply String.eqb_neq in H1, H2. now rewrite H1, H2.
Qed.

(** Joining adds the components of the second path to those of the
    first. *)
Lemma path_parts_join (a b : string) :
  startswith b "/" = false ->
  PerClip.path_parts (path_join a b)
  = (PerClip.path_parts a ++ PerClip.path_parts b)%list.
Proof.
  intros Hb. unfold path_join. rewrite Hb.
  destruct (String.eqb_spec a "") as [->|Ha]; [reflexivity|]. cbn [orb].
  destruct (endswith a "/") eqn:He.
  - apply endswith_split in He as [r ->].
    unfold PerClip.path_parts.
    rewrite string_app_assoc. cbn [String.append].
    rewrite !split_slash_app, !filter_app. cbn [split_slash filter].
    cbn [String.eqb orb negb]. now rewrite app_nil_r.
  - unfold PerClip.path_parts. cbn [String.append].
    now rewrite split_slash_app, filter_app.
Qed.

(** The candidate clips are plain names below the scratch folder. *)
Lemma candidate_names (members : list zip_member) (out c : string)
    (audio_files corrupted_files : list string) :
  extract_audio_from_pptx members out = Ok (audio_files, corrupted_files) ->
  In c audio_files ->
  exists n,
    c = path_join (path_join (path_join (path_join out "temp") "ppt") "media") n
    /\ contains n "/" = false /\ n <> "" /\ n <> "."
    /\ endswith n ".m4a" = true.
Proof.
  intros Heq H. apply candidates_eq in Heq as (tree & Htree & ->).
  apply in_map_iff in H as (n & <- & Hn). apply (proj1 (sorted_in _ _)) in Hn.
  unfold glob_m4a in Hn. apply filter_In in Hn as [Hn Hm4a].
  apply (proj1 (media_children_in _ n)) in Hn as [sub Hsub].
  apply (proj1 (extracted_tree _ _ _ Htree _)) in Hsub as (m & _ & _ & Hp).
  assert (Hc : In n (arcname (filename m)))
    by (apply path_left_components; rewrite <- Hp; right; right; now left).
  apply arcname_components in Hc as (H0 & H1 & H2 & _).
  exists n. auto.
Qed.

Lemma candidate_parent3 (members : list zip_member) (out c : string)
    (audio_files corrupted_files : list string) :
  extract_audio_from_pptx members out = Ok (audio_files, corrupted_files) ->
  In c audio_files ->
  PerClip.parent3_name c = "temp".
Proof.
  intros Heq H.
  apply (candidate_names _ _ _ _ _ Heq) in H as (n & -> & Hs & H1 & H2 & _).
  unfold PerClip.parent3_name.
  rewrite (path_parts_join _ n (no_slash_no_leading_slash n Hs)).
  rewrite !path_parts_join by reflexivity.
  rewrite (path_parts_name n Hs H1 H2).
  change (PerClip.path_parts "temp") with ["temp"].
  change (PerClip.path_parts "ppt") with ["ppt"].
  change (PerClip.path_parts "media") with ["media"].
  rewrite !rev_app_distr. reflexivity.
Qed.

(** [transcribe_audio] against the verdict on the clip: the whole run. *)
Lemma transcribe_audio_run (w : world) (audio_file output_folder : string)
    (slide_number : Z) :
  PerClip.transcribe_audio w audio_file output_folder slide_number =
  match examine w audio_file with
  | Undecodable => ([EvDecode audio_file], Ok tt)
  | TooShort _ => ([EvDecode audio_file; EvProbe audio_file], Ok tt)
  | EngineFailed _ e =>
      ([EvDecode audio_file; EvProbe audio_file; EvTranscribe audio_file], Raise e)
  | Silent _ _ =>
      ([EvDecode audio_file; EvProbe audio_file; EvTranscribe audio_file], Ok tt)
  | Included _ result =>
      let text_file := clip_text_file output_folder audio_file slide_number in
      let vtt_file := clip_vtt_file output_folder audio_file slide_number in
      ((EvDecode audio_file :: EvProbe audio_file :: EvTranscribe audio_file
        :: EvOpen text_file :: EvWrite text_file (text result)
        :: EvOpen vtt_file :: EvWrite vtt_file ("WEBVTT" ++ nl ++ nl)
        :: fst (PerClip.write_cues vtt_file (segments result)))%list,
       snd (PerClip.write_cues vtt_file (segments result)))
  end.
Proof.
  unfold PerClip.transcribe_audio, examine.
  rewrite (bind_ok _ _ _ _ (is_valid_audio_eq w audio_file)).
  destruct (decodable w audio_file); cbn [negb]; [|reflexivity].
  rewrite (bind_ok _ _ _ _ (get_audio_duration_eq w audio_file)).
  destruct (probed_duration w audio_file <? 1)%float; [reflexivity|].
  rewrite transcribe_eq.
  destruct (whisper_transcribe w audio_file) as [result|e]; [|reflexivity].
  rewrite (bind_ok _ _ _ _ eq_refl).
  destruct (is_silent_transcription (text result)); [reflexivity|].
  rewrite !bind_emit. cbn [fst snd app]. reflexivity.
Qed.

(** The per-clip writer names its two files after the third parent of the
    clip's path.  For every candidate clip of a document that parent is
    the scratch folder, so the files of the clip at position [k] are
    [temp_slide_k.txt] and [temp_slide_k.vtt] in the output folder,
    whatever the document is called. *)
Theorem per_clip_files_named_after_scratch_folder (w : world)
    (members : list zip_member) (out clip : string)
    (audio_files corrupted_files : list string) :
  extract_audio_from_pptx members out = Ok (audio_files, corrupted_files) ->
  In clip audio_files ->
  PerClip.parent3_name clip = "temp"
  /\ forall output_folder slide_number,
       is_included w clip = true ->
       file_created
         (path_join output_folder
            ("temp_slide_" ++ str_of_int slide_number ++ ".txt"))
         (trace_of (PerClip.transcribe_audio w clip output_folder slide_number))
       = true
       /\ file_created
            (path_join output_folder
               ("temp_slide_" ++ str_of_int slide_number ++ ".vtt"))
            (trace_of (PerClip.transcribe_audio w clip output_folder slide_number))
          = true.
Proof.
  intros Heq Hin.
  pose proof (candidate_parent3 members out clip _ _ Heq Hin) as Hp.
  split; [exact Hp|].
  intros output_folder slide_number Hinc.
  rewrite transcribe_audio_run. unfold is_included in Hinc.
  destruct (examine w clip); try discriminate Hinc.
  unfold clip_text_file, clip_vtt_file. rewrite Hp. cbn zeta.
  unfold trace_of, file_created. cbn [fst existsb is_open].
  rewrite !String.eqb_refl, !orb_true_r. split; reflexivity.
Qed.

Lemma per_clip_files_named_after_scratch_folder_witness :
  PerClip.parent3_name "out/deck/temp/ppt/media/media1.m4a" = "temp".
Proof.
  apply (proj1 (per_clip_files_named_after_scratch_folder scenario
                  [ {| filename := "ppt/media/media1.m4a";
                       extraction := Extracted |} ]
                  "out/deck" "out/deck/temp/ppt/media/media1.m4a"
                  ["out/deck/temp/ppt/media/media1.m4a"] []
                  eq_refl (or_introl eq_refl))).
Defined.

(* ================================================================== *)
(** * The per-clip pipeline: which files exist *)
(* ================================================================== *)

Lemma file_created_app (file : string) (t1 t2 : list event) :
  file_created file (t1 ++ t2) = file_created file t1 || file_created file t2.
Proof. apply existsb_app. Qed.

Lemma per_clip_cues_open_nothing (file vtt_file : string) (segs : list segment) :
  file_created file (fst (PerClip.write_cues vtt_file segs)) = false.
Proof.
  unfold file_created.
  destruct (existsb (is_open file) (fst (PerClip.write_cues vtt_file segs)))
    eqn:H; [|reflexivity].
  apply existsb_exists in H as (e & He & Ho).
  apply per_clip_write_cues_only_writes in He as [d ->]. discriminate Ho.
Qed.

(** The files one call of [transcribe_audio] creates. *)
Lemma transcribe_audio_files_created (w : world)
    (audio_file output_folder file : string) (slide_number : Z) :
  file_created file
    (trace_of (PerClip.transcribe_audio w audio_file output_folder slide_number))
  = is_included w audio_file
    && ((clip_text_file output_folder audio_file slide_number =? file)%string
        || (clip_vtt_file output_folder audio_file slide_number =? file)%string).
Proof.
  rewrite transcribe_audio_run. unfold is_included.
  destruct (examine w audio_file) as [|d|d e|d r|d r]; try reflexivity.
  cbn zeta. unfold trace_of. cbn [fst andb].
  pose proof (per_clip_cues_open_nothing file
                (clip_vtt_file output_folder audio_file slide_number)
                (segments r)) as Hn.
  unfold file_created in *. cbn [existsb is_open orb]. rewrite Hn.
  now rewrite !orb_false_r.
Qed.

(** When the per-clip processing of a document completes, the files it
    has created are exactly the two files of every included clip, numbered
    by the clip's position in the candidate list; a clip that is skipped
    leaves no file, and its number is not given to another clip. *)
Theorem per_clip_files_exist_for_included_clips (w : world)
    (audio_files : list string) (output_folder file : string) :
  value_of (PerClip.transcribe_all w (enumerate 1 audio_files) output_folder)
  = Ok tt ->
  file_created file
    (trace_of (PerClip.transcribe_all w (enumerate 1 audio_files) output_folder))
  = true
  <-> exists index audio_file,
        In (index, audio_file) (enumerate 1 audio_files)
        /\ is_included w audio_file = true
        /\ (file = clip_text_file output_folder audio_file index
            \/ file = clip_vtt_file output_folder audio_file index).
Proof.
  generalize 1. induction audio_files as [|c rest IH]; intros start Hv.
  - cbn. split; [discriminate | intros (k & a & [] & _)].
  - cbn [enumerate PerClip.transcribe_all] in *.
    pose proof (transcribe_audio_files_created w c output_folder file start) as Hc.
    destruct (PerClip.transcribe_audio w c output_folder start) as [ts [[]|e]];
      [|unfold value_of, bind in Hv; cbn [snd] in Hv; discriminate Hv].
    rewrite (bind_ok _ _ _ _ eq_refl) in Hv |- *. unfold value_of, trace_of in *.
    cbn [fst snd] in *. specialize (IH (start + 1) Hv).
    rewrite file_created_app, orb_true_iff, IH, Hc. clear IH Hc. split.
    + intros [H|(k & a & Hin & Hinc & Hf)].
      * apply andb_prop in H as [Hinc Hf]. exists start, c.
        split; [now left|]. split; [exact Hinc|].
        apply orb_prop in Hf as [Hf|Hf]; apply String.eqb_eq in Hf; auto.
      * exists k, a. split; [now right | auto].
    + intros (k & a & [Heq|Hin] & Hinc & Hf).
      * injection Heq as <- <-. left. rewrite Hinc. cbn [andb].
        apply orb_true_iff.
        destruct Hf as [->| ->]; [left | right]; apply String.eqb_refl.
      * right. exists k, a. auto.
Qed.

Lemma per_clip_files_exist_for_included_clips_witness :
  file_created "out/_slide_3.vtt"
    (trace_of (PerClip.transcribe_all scenario (enumerate 1 scenario_clips) "out"))
  = true.
Proof.
  apply (proj2 (per_clip_files_exist_for_included_clips scenario scenario_clips
                  "out" "out/_slide_3.vtt" ltac:(vm_compute; reflexivity))).
  exists 3, "c.m4a". split; [right; right; left; reflexivity|].
  split; [reflexivity | right; reflexivity].
Defined.

(* ================================================================== *)
(** * Substituting an extension *)
(* ================================================================== *)

Lemma replace_from_skip (old new s : string) (k : nat) :
  (String.length s <= k)%nat -> replace_from old new k s = "".
Proof.
  revert k. induction s as [|c s IH]; intros k H; [reflexivity|].
  cbn [String.length] in H. destruct k as [|k]; [lia|].
  cbn [replace_from]. apply IH. lia.
Qed.

(** A pattern found at the head of [u ++ q] lies within [u], or runs over
    the end of [u] into [q]. *)
Lemma prefix_straddle (p u q : string) :
  String.prefix p (u ++ q) = true ->
  String.prefix p u = true
  \/ exists t, p = u ++ t /\ String.prefix t q = true /\ t <> "".
Proof.
  revert u. induction p as [|a p IH]; intros u H; [left; now destruct u|].
  destruct u as [|b u].
  - right. exists (String a p). repeat split; [exact H | discriminate].
  - cbn [String.append String.prefix] in *.
    destruct (ascii_dec a b) as [->|]; [|discriminate].
    destruct (IH u H) as [Hp|(t & -> & Ht & Hne)]; [now left|].
    right. exists t. repeat split; assumption.
Qed.

(** Replacing a final extension: when the first character of the pattern
    does not occur again in it, and the pattern does not occur in the
    stem, only the extension changes. *)
Lemma replace_suffix (d : ascii) (o new stem : string) :
  (forall s t, o <> s ++ String d t) ->
  contains stem (String d o) = false ->
  replace (stem ++ String d o) (String d o) new = stem ++ new.
Proof.
  intros Hfree. unfold replace. induction stem as [|c stem IH]; intros Hno.
  - cbn [String.append replace_from].
    pose proof (prefix_self_app (String d o) "") as Hp.
    rewrite string_app_nil_r in Hp. rewrite Hp. cbn [String.length Nat.sub].
    rewrite Nat.sub_0_r, replace_from_skip by lia. apply string_app_nil_r.
  - cbn [contains] in Hno. apply orb_false_iff in Hno as [Hp Hc].
    cbn [String.append replace_from].
    assert (Hpre : String.prefix (String d o) (String c (stem ++ String d o))
                   = false).
    { destruct (String.prefix (String d o) (String c (stem ++ String d o)))
        eqn:H; [exfalso|reflexivity].
      destruct (prefix_straddle (String d o) (String c stem) (String d o) H)
        as [Hin|(t & Heq & Ht & Hne)]; [congruence|].
      destruct t as [|x t]; [congruence|].
      cbn [String.prefix] in Ht.
      destruct (ascii_dec x d) as [->|]; [|discriminate].
      cbn [String.append] in Heq. injection Heq as _ Heq.
      exact (Hfree _ _ Heq). }
    rewrite Hpre. f_equal. now apply IH.
Qed.

Lemma m4a_dot_free (s t : string) : "m4a" <> s ++ String "." t.
Proof.
  intros H.
  repeat (destruct s as [|? s]; cbn [String.append] in H;
          [discriminate H | injection H as _ H]).
  destruct s; discriminate H.
Qed.

Lemma pptx_dot_free (s t : string) : "pptx" <> s ++ String "." t.
Proof.
  intros H.
  repeat (destruct s as [|? s]; cbn [String.append] in H;
          [discriminate H | injection H as _ H]).
  destruct s; discriminate H.
Qed.

(* ================================================================== *)
(** * The interactive variant: the files it writes *)
(* ================================================================== *)

Lemma fs_set_other (sigma : Transcribe.fs) (path data q : string) :
  q <> path -> Transcribe.fs_set sigma path data q = sigma q.
Proof.
  intros H. unfold Transcribe.fs_set. apply String.eqb_neq in H. now rewrite H.
Qed.

Lemma fs_write_other (sigma : Transcribe.fs) (path data q : string) :
  q <> path -> Transcribe.fs_write sigma path data q = sigma q.
Proof.
  intros H. unfold Transcribe.fs_write.
  destruct (sigma path); now apply fs_set_other.
Qed.

Lemma write_cues_other (sigma : Transcribe.fs) (vtt_path q : string)
    (segs : list segment) :
  q <> vtt_path -> fst (Transcribe.write_cues sigma vtt_path segs) q = sigma q.
Proof.
  intros H. revert sigma. induction segs as [|s rest IH]; intros sigma;
    cbn [Transcribe.write_cues]; [reflexivity|].
  destruct (Transcribe.format_time (seg_start s)); [|reflexivity].
  destruct (Transcribe.format_time (seg_end s)); [|reflexivity].
  rewrite IH. now apply fs_write_other.
Qed.

(** [transcribe_audio_files] changes no file but the derived text and cue
    paths of the clips it is given: a path that is neither is left with
    the content it had, or stays absent, whatever the engine returns. *)
Theorem interactive_writes_only_derived_paths (w : world)
    (listdir : string -> option exn) (cwd : string)
    (audio_files : list string) (sigma : Transcribe.fs) (q : string) :
  (forall file, In file audio_files ->
     q <> Transcribe.text_path_of (Transcribe.abspath cwd file)
     /\ q <> Transcribe.vtt_path_of (Transcribe.abspath cwd file)) ->
  fst (Transcribe.transcribe_audio_files w listdir cwd audio_files sigma) q = sigma q.
Proof.
  revert sigma. induction audio_files as [|file rest IH]; intros sigma H;
    [reflexivity|].
  assert (Hrest : forall f, In f rest ->
             q <> Transcribe.text_path_of (Transcribe.abspath cwd f)
             /\ q <> Transcribe.vtt_path_of (Transcribe.abspath cwd f))
    by (intros f Hf; apply H; now right).
  destruct (H file (or_introl eq_refl)) as [Ht Hv].
  cbn [Transcribe.transcribe_audio_files].
  destruct (sigma (Transcribe.abspath cwd file));
    [|destruct (listdir _); [reflexivity | now apply IH]].
  destruct (whisper_transcribe w (Transcribe.abspath cwd file)) as [result|e].
  - set (sigma2 := Transcribe.fs_write _ _ ("WEBVTT" ++ nl ++ nl)).
    assert (H2 : sigma2 q = sigma q).
    { subst sigma2. unfold Transcribe.fs_open.
      rewrite fs_write_other, fs_set_other, fs_write_other, fs_set_other
        by assumption. reflexivity. }
    pose proof (write_cues_other sigma2 _ q (segments result) Hv) as H3.
    destruct (Transcribe.write_cues sigma2 _ (segments result))
      as [sigma3 [u|e]]; cbn [fst] in *.
    + rewrite (IH sigma3 Hrest). congruence.
    + congruence.
  - destruct e; try reflexivity. now apply IH.
Qed.

Lemma interactive_writes_only_derived_paths_witness :
  fst (Transcribe.transcribe_audio_files scenario (fun _ => None) "/w"
         ["media/a.m4a"]
         (fun q => if (q =? "/w/media/a.m4a")%string then Some "audio" else None))
      "/w/media/a.m4a"
  = Some "audio".
Proof.
  rewrite (interactive_writes_only_derived_paths scenario (fun _ => None) "/w"
             ["media/a.m4a"]).
  - reflexivity.
  - intros file [<-|[]]. split; intros H; vm_compute in H; discriminate H.
Defined.

(** For a clip whose path is a stem followed by [.m4a], the extension
    occurring nowhere else, the outputs are the stem followed by [.txt]
    and by [.vtt]; after the clip is transcribed the text file holds the
    transcribed text, the cue file starts with the header, and the audio
    file is as it was. *)
Theorem m4a_outputs_beside_the_audio (stem : string) :
  contains stem ".m4a" = false ->
  Transcribe.text_path_of (stem ++ ".m4a") = stem ++ ".txt"
  /\ Transcribe.vtt_path_of (stem ++ ".m4a") = stem ++ ".vtt"
  /\ forall w listdir cwd file sigma audio result,
       Transcribe.abspath cwd file = stem ++ ".m4a" ->
       sigma (stem ++ ".m4a") = Some audio ->
       whisper_transcribe w (stem ++ ".m4a") = Ok result ->
       fst (Transcribe.transcribe_audio_files w listdir cwd [file] sigma) (stem ++ ".m4a")
       = Some audio
       /\ fst (Transcribe.transcribe_audio_files w listdir cwd [file] sigma) (stem ++ ".txt")
          = Some (text result)
       /\ exists cues,
            fst (Transcribe.transcribe_audio_files w listdir cwd [file] sigma)
                (stem ++ ".vtt")
            = Some ("WEBVTT" ++ nl ++ nl ++ cues).
Proof.
  intros Hno.
  assert (Ht : Transcribe.text_path_of (stem ++ ".m4a") = stem ++ ".txt")
    by (apply (replace_suffix "." "m4a"); [apply m4a_dot_free | exact Hno]).
  assert (Hv : Transcribe.vtt_path_of (stem ++ ".m4a") = stem ++ ".vtt")
    by (apply (replace_suffix "." "m4a"); [apply m4a_dot_free | exact Hno]).
  split; [exact Ht|]. split; [exact Hv|].
  intros w listdir cwd file sigma audio result Habs Hsigma Hres.
  assert (Hat : stem ++ ".m4a" <> stem ++ ".txt")
    by (intros H; apply append_inj_l in H; discriminate H).
  assert (Hav : stem ++ ".m4a" <> stem ++ ".vtt")
    by (intros H; apply append_inj_l in H; discriminate H).
  assert (Htv : stem ++ ".txt" <> stem ++ ".vtt")
    by (intros H; apply append_inj_l in H; discriminate H).
  cbn [Transcribe.transcribe_audio_files]. rewrite Habs, Hsigma, Hres, Ht, Hv.
  set (sigma1 := Transcribe.fs_write _ (stem ++ ".txt") (text result)).
  assert (H1 : sigma1 (stem ++ ".txt") = Some (text result)).
  { subst sigma1. unfold Transcribe.fs_open.
    rewrite (fs_write_same _ _ "" _ (fs_set_same _ _ _)). reflexivity. }
  set (sigma2 := Transcribe.fs_write _ (stem ++ ".vtt") ("WEBVTT" ++ nl ++ nl)).
  assert (H2 : sigma2 (stem ++ ".vtt") = Some ("WEBVTT" ++ nl ++ nl)).
  { subst sigma2. unfold Transcribe.fs_open.
    rewrite (fs_write_same _ _ "" _ (fs_set_same _ _ _)). reflexivity. }
  assert (H2t : sigma2 (stem ++ ".txt") = Some (text result)).
  { subst sigma2. unfold Transcribe.fs_open.
    rewrite fs_write_other, fs_set_other by assumption. exact H1. }
  assert (H2a : sigma2 (stem ++ ".m4a") = Some audio).
  { subst sigma2 sigma1. unfold Transcribe.fs_open.
    rewrite fs_write_other, fs_set_other, fs_write_other, fs_set_other
      by assumption. exact Hsigma. }
  pose proof (write_cues_other sigma2 (stem ++ ".vtt") (stem ++ ".txt")
                (segments result) Htv) as H3t.
  pose proof (write_cues_other sigma2 (stem ++ ".vtt") (stem ++ ".m4a")
                (segments result) Hav) as H3a.
  destruct (write_cues_appends sigma2 (stem ++ ".vtt") _ (segments result) H2)
    as [cues Hc].
  destruct (Transcribe.write_cues sigma2 (stem ++ ".vtt") (segments result))
    as [sigma3 [u|e]]; cbn [fst] in *;
    (split; [congruence|]; split;
     [congruence | exists cues; rewrite Hc; now rewrite !string_app_assoc]).
Qed.

Lemma m4a_outputs_beside_the_audio_witness :
  Transcribe.text_path_of ("/w/media/a" ++ ".m4a") = "/w/media/a" ++ ".txt"
  /\ Transcribe.vtt_path_of ("/w/media/a" ++ ".m4a") = "/w/media/a" ++ ".vtt".
Proof.
  destruct (m4a_outputs_beside_the_audio "/w/media/a" eq_refl) as (H1 & H2 & _).
  split; [exact H1 | exact H2].
Defined.

(* ================================================================== *)
(** * The interactive variant: finding and unzipping the document *)
(* ================================================================== *)

Lemma getinfo_found (members : list zip_member) (name : string) :
  In name (map filename members) ->
  exists info, Transcribe.getinfo members name = Ok info /\ In info members.
Proof.
  intros H. unfold Transcribe.getinfo.
  destruct (find (fun info => (filename info =? name)%string) (rev members))
    as [info|] eqn:Hf.
  - apply find_some in Hf as [Hin _]. exists info. split; [reflexivity|].
    now apply in_rev.
  - exfalso. apply in_map_iff in H as (m & Hm & Hin).
    pose proof (find_none _ _ Hf m (proj1 (in_rev _ _) Hin)) as Hn.
    cbn beta in Hn. rewrite Hm, String.eqb_refl in Hn. discriminate Hn.
Qed.

(** The loop of [unzip_pptx] completes when no extraction raises anything
    but [BadZipFile]. *)
Lemma unzip_names_completes (members : list zip_member) (names : list string)
    (tree : list (list string)) (corrupted_files : list string) :
  (forall m e target_left,
      In m members -> extraction m = Raised e target_left -> e = BadZipFile) ->
  (forall name, In name names -> In name (map filename members)) ->
  exists files corrupted,
    Transcribe.unzip_names members names tree corrupted_files
    = Ok (files, corrupted).
Proof.
  intros Hraise. revert tree corrupted_files.
  induction names as [|name names IH]; intros tree corrupted_files Hnames;
    cbn [Transcribe.unzip_names]; [eauto|].
  destruct (getinfo_found members name) as (info & -> & Hin);
    [apply Hnames; now left|].
  assert (Ht : exists file bad, Transcribe.unzip_turn info = Ok (file, bad)).
  { unfold Transcribe.unzip_turn.
    destruct (extraction info) as [|e target_left] eqn:He.
    - destruct (endswith (filename info) "/"); eauto.
    - rewrite (Hraise info e target_left Hin He).
      destruct (endswith (filename info) "/"); eauto. }
  destruct Ht as (file & bad & ->). apply IH.
  intros n Hn. apply Hnames. now right.
Qed.

(** [unzip_pptx] extracts an existing document whose path is a stem
    followed by [.pptx] into the folder named by the stem, when the stem
    is not empty and the extension occurs nowhere else in the path, the
    folder can be created, the file is an archive, and no extraction
    raises anything but [BadZipFile].  A path that does not end in
    [.pptx], or that does not exist, is refused.  An existing file that
    is no archive makes the call raise, and so does the path [.pptx],
    whose extraction folder has the empty name. *)
Theorem unzip_folder_is_the_stem (path_exists : string -> bool)
    (mk : string -> option exn) (open_zip : string -> result (list zip_member))
    (tree : list (list string)) :
  (forall stem members,
      contains stem ".pptx" = false ->
      stem <> "" ->
      path_exists (stem ++ ".pptx") = true ->
      mk stem = None ->
      open_zip (stem ++ ".pptx") = Ok members ->
      (forall m e target_left,
          In m members -> extraction m = Raised e target_left -> e = BadZipFile) ->
      Interactive.unzip_pptx path_exists mk open_zip tree (stem ++ ".pptx")
      = Ok (Some stem))
  /\ (forall pptx_path,
         endswith pptx_path ".pptx" = false \/ path_exists pptx_path = false ->
         Interactive.unzip_pptx path_exists mk open_zip tree pptx_path = Ok None)
  /\ (forall stem e,
         contains stem ".pptx" = false ->
         stem <> "" ->
         path_exists (stem ++ ".pptx") = true ->
         mk stem = None ->
         open_zip (stem ++ ".pptx") = Raise e ->
         Interactive.unzip_pptx path_exists mk open_zip tree (stem ++ ".pptx")
         = Raise e)
  /\ (path_exists ".pptx" = true ->
      Interactive.unzip_pptx path_exists mk open_zip tree ".pptx"
      = Raise FileNotFoundError).
Proof.
  assert (Hfolder : forall stem,
             contains stem ".pptx" = false -> stem <> "" ->
             path_exists (stem ++ ".pptx") = true -> mk stem = None ->
             Interactive.unzip_pptx path_exists mk open_zip tree (stem ++ ".pptx")
             = match open_zip (stem ++ ".pptx") with
               | Raise e => Raise e
               | Ok members =>
                   match Transcribe.unzip_members tree members with
                   | Raise e => Raise e
                   | Ok _ => Ok (Some stem)
                   end
               end).
  { intros stem Hno Hne Hex Hmk. unfold Interactive.unzip_pptx.
    rewrite (endswith_app stem ".pptx" ".pptx" eq_refl), Hex. cbn [andb].
    rewrite (replace_suffix "." "pptx" "" stem pptx_dot_free Hno).
    rewrite string_app_nil_r. unfold Interactive.makedirs.
    apply String.eqb_neq in Hne. now rewrite Hne, Hmk. }
  split; [|split; [|split]].
  - intros stem members Hno Hne Hex Hmk Hopen Hraise.
    rewrite (Hfolder stem Hno Hne Hex Hmk), Hopen.
    destruct (unzip_names_completes members (map filename members) tree []
                Hraise (fun n H => H)) as (files & corrupted & Heq).
    unfold Transcribe.unzip_members. now rewrite Heq.
  - intros pptx_path [H|H]; unfold Interactive.unzip_pptx; rewrite H;
      [reflexivity | now rewrite andb_false_r].
  - intros stem e Hno Hne Hex Hmk Hopen.
    now rewrite (Hfolder stem Hno Hne Hex Hmk), Hopen.
  - intros Hex. unfold Interactive.unzip_pptx.
    change (endswith ".pptx" ".pptx") with true. rewrite Hex. reflexivity.
Qed.

Lemma unzip_folder_is_the_stem_witness :
  Interactive.unzip_pptx (fun _ => true) (fun _ => None)
    (fun _ => Ok [ {| filename := "ppt/media/media1.m4a";
                      extraction := Raised BadZipFile true |} ])
    [] ("decks/intro" ++ ".pptx")
  = Ok (Some "decks/intro").
Proof.
  apply (proj1 (unzip_folder_is_the_stem (fun _ => true) (fun _ => None)
                  (fun _ => Ok [ {| filename := "ppt/media/media1.m4a";
                                    extraction := Raised BadZipFile true |} ])
                  [])
           "decks/intro"
           [ {| filename := "ppt/media/media1.m4a";
                extraction := Raised BadZipFile true |} ]);
    try reflexivity.
  - discriminate.
  - intros m e target_left [<-|[]] H. now injection H as <- _.
Defined.

(** Whatever the folder holds and whatever is typed, a path returned by
    [auto_detect_pptx] is the folder joined with one of its entries whose
    name ends in [.pptx]; with several such entries, the answer [k]
    selects the [k]-th of them for [k] from one to their number, and any
    other number selects nothing. *)
Theorem auto_detect_returns_a_listed_pptx (listing : list string)
    (folder_path : string) :
  (forall isdir answer p,
      Interactive.auto_detect_pptx isdir listing answer folder_path = Ok (Some p) ->
      isdir = true
      /\ exists f, In f listing /\ endswith f ".pptx" = true
                   /\ p = path_join folder_path f)
  /\ (forall k,
         let pptx_files := filter (fun f => endswith f ".pptx") listing in
         (2 <= List.length pptx_files)%nat ->
         Interactive.auto_detect_pptx true listing (Ok k) folder_path
         = if (1 <=? k) && (k <=? Z.of_nat (List.length pptx_files))
           then Ok (Some (path_join folder_path
                            (nth (Z.to_nat (k - 1)) pptx_files "")))
           else Ok None).
Proof.
  split.
  - intros isdir answer p. unfold Interactive.auto_detect_pptx.
    destruct isdir; cbn [negb]; [|discriminate].
    set (pptx_files := filter (fun f => endswith f ".pptx") listing).
    assert (Hall : forall f, In f pptx_files ->
                     In f listing /\ endswith f ".pptx" = true)
      by (intros f Hf; now apply filter_In in Hf).
    destruct pptx_files as [|f1 [|f2 more]] eqn:Hfiles; [discriminate| |].
    + intros H. injection H as <-. split; [reflexivity|].
      exists f1. destruct (Hall f1 (or_introl eq_refl)). auto.
    + destruct answer as [n|e]; [|discriminate].
      destruct ((0 <=? n - 1) && (n - 1 <? Z.of_nat (List.length (f1 :: f2 :: more))))
        eqn:Hb; [|discriminate].
      intros H. injection H as <-. split; [reflexivity|].
      apply andb_prop in Hb as [H0 H1].
      apply Z.leb_le in H0. apply Z.ltb_lt in H1.
      assert (Hin : In (nth (Z.to_nat (n - 1)) (f1 :: f2 :: more) "")
                      (f1 :: f2 :: more)) by (apply nth_In; lia).
      destruct (Hall _ Hin). eauto.
  - intros k pptx_files Hlen. unfold Interactive.auto_detect_pptx.
    cbn [negb]. fold pptx_files.
    destruct pptx_files as [|f1 [|f2 more]]; cbn [List.length] in Hlen;
      [lia | lia |].
    replace ((0 <=? k - 1) && (k - 1 <? Z.of_nat (List.length (f1 :: f2 :: more))))
      with ((1 <=? k) && (k <=? Z.of_nat (List.length (f1 :: f2 :: more))));
      [reflexivity|].
    f_equal.
    + apply Bool.eq_true_iff_eq. rewrite !Z.leb_le. lia.
    + apply Bool.eq_true_iff_eq. rewrite Z.leb_le, Z.ltb_lt. lia.
Qed.

Lemma auto_detect_returns_a_listed_pptx_witness :
  Interactive.auto_detect_pptx true ["a.pptx"; "notes.txt"; "b.pptx"] (Ok 2) "decks"
  = Ok (Some "decks/b.pptx").
Proof.
  rewrite (proj2 (auto_detect_returns_a_listed_pptx
                    ["a.pptx"; "notes.txt"; "b.pptx"] "decks") 2);
    [reflexivity | cbn; lia].
Defined.

(* ================================================================== *)
(** * The interactive variant: unzipping and collecting the audio *)
(* ================================================================== *)

(** One step of the walk below [ppt/media]. *)
Lemma interactive_extract_cons (p : list string) (tree : list (list string)) :
  Transcribe.extract_audio_from_pptx (p :: tree)
  = match p with
    | a :: b :: c :: sub =>
        if (a =? "ppt")%string && (b =? "media")%string
           && endswith_any (last sub c) AUDIO_EXTENSIONS
        then path_join "media" (last sub c)
             :: Transcribe.extract_audio_from_pptx tree
        else Transcribe.extract_audio_from_pptx tree
    | _ => Transcribe.extract_audio_from_pptx tree
    end.
Proof.
  destruct p as [|a [|b [|c sub]]]; [reflexivity| | |].
  - do 3 char_cases a. destruct a; reflexivity.
  - do 3 char_cases a. destruct a; [|reflexivity].
    do 5 char_cases b. destruct b; reflexivity.
  - do 3 char_cases a. destruct a; [|reflexivity].
    do 5 char_cases b. destruct b; [|reflexivity].
    cbn [Transcribe.extract_audio_from_pptx String.eqb Ascii.eqb Bool.eqb andb].
    destruct (endswith_any (last sub c) AUDIO_EXTENSIONS); reflexivity.
Qed.

(** The audio files of [transcribe.py] are collected at any depth below
    [ppt/media] and copied to [media/<name>]: the candidates are exactly
    the base names of the files with one of the three extensions, the
    sub-folder being dropped, and there is one candidate per file, so two
    files of the same name in different sub-folders give the same
    candidate twice. *)
Theorem interactive_candidates_are_flattened (tree : list (list string)) :
  (forall c,
      In c (Transcribe.extract_audio_from_pptx tree)
      <-> exists n sub,
            In ("ppt" :: "media" :: n :: sub) tree
            /\ endswith_any (last sub n) AUDIO_EXTENSIONS = true
            /\ c = path_join "media" (last sub n))
  /\ List.length (Transcribe.extract_audio_from_pptx tree)
     = List.length
         (filter (fun p => match p with
                           | a :: b :: n :: sub =>
                               (a =? "ppt")%string && (b =? "media")%string
                               && endswith_any (last sub n) AUDIO_EXTENSIONS
                           | _ => false
                           end) tree).
Proof.
  split.
  - intros c. induction tree as [|p tree IH].
    + split; [intros [] | intros (n & sub & [] & _)].
    + rewrite interactive_extract_cons.
      assert (Hskip : In c (Transcribe.extract_audio_from_pptx tree) ->
                exists n sub, In ("ppt" :: "media" :: n :: sub) (p :: tree)
                  /\ endswith_any (last sub n) AUDIO_EXTENSIONS = true
                  /\ c = path_join "media" (last sub n)).
      { intros H. apply IH in H as (n & sub & Hin & He & Hc).
        exists n, sub. split; [now right | auto]. }
      destruct p as [|a [|b [|n0 sub0]]];
        try (split; [exact Hskip|];
             intros (n & sub & [Heq|Hin] & He & Hc); [discriminate Heq|];
             apply IH; eauto).
      destruct (String.eqb_spec a "ppt") as [->|Ha]; cbn [andb].
      2:{ split; [exact Hskip|].
          intros (n & sub & [Heq|Hin] & He & Hc); [congruence|].
          apply IH; eauto. }
      destruct (String.eqb_spec b "media") as [->|Hb]; cbn [andb].
      2:{ split; [exact Hskip|].
          intros (n & sub & [Heq|Hin] & He & Hc); [congruence|].
          apply IH; eauto. }
      destruct (endswith_any (last sub0 n0) AUDIO_EXTENSIONS) eqn:Hend.
      * split.
        -- intros [<-|H]; [|now apply Hskip].
           exists n0, sub0. split; [now left | auto].
        -- intros (n & sub & [Heq|Hin] & He & Hc).
           ++ injection Heq as <- <-. now left.
           ++ right. apply IH. eauto.
      * split; [exact Hskip|].
        intros (n & sub & [Heq|Hin] & He & Hc); [|apply IH; eauto].
        injection Heq as <- <-. congruence.
  - induction tree as [|p tree IH]; [reflexivity|].
    rewrite interactive_extract_cons. cbn [filter].
    destruct p as [|a [|b [|n0 sub0]]]; try exact IH.
    destruct ((a =? "ppt")%string && (b =? "media")%string
              && endswith_any (last sub0 n0) AUDIO_EXTENSIONS);
      cbn [List.length]; now rewrite IH.
Qed.

(* ================================================================== *)
(** * The per-clip pipeline: the content of the two files *)
(* ================================================================== *)

(** The text of one cue of the per-clip writer: the bounds are the
    segment's own, counted from the start of the clip. *)
Lemma per_clip_write_cues_run (vtt_file : string) (segs : list segment)
    (lines : list string) :
  Forall2 (fun s line =>
             exists start end_,
               format_time (seg_start s) = Ok start
               /\ format_time (seg_end s) = Ok end_
               /\ line = start ++ " --> " ++ end_ ++ nl ++ seg_text s ++ nl ++ nl)
          segs lines ->
  PerClip.write_cues vtt_file segs = (map (EvWrite vtt_file) lines, Ok tt).
Proof.
  induction 1 as [|s line segs lines (start & end_ & Hs & He & ->) _ IH];
    [reflexivity|].
  cbn [PerClip.write_cues]. rewrite Hs, bind_lift_ok, He, bind_lift_ok, bind_emit.
  rewrite IH. reflexivity.
Qed.

Lemma per_clip_names_differ (output_folder audio_file : string) (slide_number : Z) :
  clip_vtt_file output_folder audio_file slide_number
  <> clip_text_file output_folder audio_file slide_number.
Proof.
  unfold clip_vtt_file, clip_text_file. intros H.
  apply path_join_inj in H.
  - repeat apply append_inj_l in H. discriminate H.
  - now apply startswith_slash_ext.
Qed.

(** For an included clip all of whose cue times can be formatted, the
    per-clip writer leaves a text file holding the transcribed text and
    nothing else (no label, no line feed added), and a cue file holding
    the header, a blank line and one cue per segment with the segment's
    own times: the per-clip cues are not rebased. *)
Theorem per_clip_file_contents (w : world) (audio_file output_folder : string)
    (slide_number : Z) (duration : float) (result : transcription)
    (lines : list string) :
  examine w audio_file = Included duration result ->
  Forall2 (fun s line =>
             exists start end_,
               format_time (seg_start s) = Ok start
               /\ format_time (seg_end s) = Ok end_
               /\ line = start ++ " --> " ++ end_ ++ nl ++ seg_text s ++ nl ++ nl)
          (segments result) lines ->
  value_of (PerClip.transcribe_audio w audio_file output_folder slide_number)
  = Ok tt
  /\ file_content (clip_text_file output_folder audio_file slide_number)
       (trace_of (PerClip.transcribe_audio w audio_file output_folder slide_number))
       ""
     = text result
  /\ file_content (clip_vtt_file output_folder audio_file slide_number)
       (trace_of (PerClip.transcribe_audio w audio_file output_folder slide_number))
       ""
     = "WEBVTT" ++ nl ++ nl ++ String.concat "" lines.
Proof.
  intros Hex Hlines. rewrite transcribe_audio_run, Hex. cbn zeta.
  rewrite (per_clip_write_cues_run _ _ _ Hlines).
  unfold value_of, trace_of. cbn [fst snd].
  pose proof (per_clip_names_differ output_folder audio_file slide_number) as Hne.
  set (text_file := clip_text_file output_folder audio_file slide_number) in *.
  set (vtt_file := clip_vtt_file output_folder audio_file slide_number) in *.
  assert (Hvt : (vtt_file =? text_file)%string = false) by now apply String.eqb_neq.
  assert (Htv : (text_file =? vtt_file)%string = false)
    by (rewrite String.eqb_sym; exact Hvt).
  assert (Hopen : forall file,
             forallb (fun e => negb (is_open file e)) (map (EvWrite vtt_file) lines)
             = true).
  { intros file. apply forallb_forall. intros e He.
    apply in_map_iff in He as (l & <- & _). reflexivity. }
  split; [reflexivity|]. split.
  - cbn [file_content]. rewrite !String.eqb_refl, ?Hvt, ?Htv.
    rewrite file_content_writes by apply Hopen.
    rewrite (writes_to_other text_file vtt_file); [apply string_app_nil_r| |].
    + exact Hne.
    + intros e He. apply in_map_iff in He as (l & <- & _). eauto.
  - cbn [file_content]. rewrite !String.eqb_refl, ?Hvt, ?Htv.
    rewrite file_content_writes by apply Hopen.
    rewrite writes_to_cues. cbn [String.append].
    now rewrite !string_app_assoc.
Qed.

Lemma per_clip_file_contents_witness :
  file_content (clip_vtt_file "out" "c.m4a" 3)
    (trace_of (PerClip.transcribe_audio scenario "c.m4a" "out" 3)) ""
  = "WEBVTT" ++ nl ++ nl
    ++ String.concat ""
         ["00:00:00.250 --> 00:00:02.500" ++ nl ++ "world" ++ nl ++ nl].
Proof.
  refine (proj2 (proj2 (per_clip_file_contents scenario "c.m4a" "out" 3 3
            {| text := "world";
               segments := [{| seg_start := 0.25; seg_end := 2.5;
                               seg_text := "world" |}] |}
            ["00:00:00.250 --> 00:00:02.500" ++ nl ++ "world" ++ nl ++ nl]
            _ _))).
  - vm_compute. reflexivity.
  - constructor; [|constructor].
    exists "00:00:00.250", "00:00:02.500".
    split; [vm_compute; reflexivity|].
    split; [vm_compute; reflexivity | reflexivity].
Defined.

(* ================================================================== *)
(** * The loop of [main] over the documents *)
(* ================================================================== *)






